(** * License manager: key derivation, envelope, serial binding and the
      validation state machine

    A shallow embedding of the Go packages [crypto], [config] and [license]
    of the license manager, and the properties of its specification.

    Layout: the byte-level helpers and the hash functions of Go's standard
    library that the code calls ([crypto/sha256], [crypto/md5], HMAC and
    [x/crypto/pbkdf2]); the world the program runs in (files, environment,
    random source); the interfaces of the two library services that are used
    as black boxes (the AES-GCM AEAD and [encoding/json]); the three packages,
    function by function; the vocabulary in which the properties are stated;
    reference implementations of the two interfaces and sample data; the
    lemmas; and the claims of the specification, C1 to C10. *)

From Stdlib Require Import ZArith List Ascii String Lia.
From Stdlib.Strings Require Import Byte.
From stdpp Require Import base option list gmap strings pretty.

Local Open Scope Z_scope.
Local Open Scope list_scope.

(** ** Bytes *)

Module Bytes.

Definition to_Z (b : byte) : Z := Z.of_N (Byte.to_N b).

Definition of_Z (z : Z) : byte :=
  match Byte.of_N (Z.to_N (z mod 256)) with
  | Some b => b
  | None => x00
  end.

(** [[]byte(s)] and [string(bs)]. *)
Definition of_string (s : string) : list byte := list_byte_of_string s.
Definition to_string (bs : list byte) : string := string_of_list_byte bs.

(** Big-endian and little-endian encodings of [v] on [n] bytes. *)
Fixpoint big_endian (n : nat) (v : Z) : list byte :=
  match n with
  | O => []
  | S n' => of_Z (Z.shiftr v (8 * Z.of_nat n')) :: big_endian n' v
  end.

Fixpoint little_endian (n : nat) (v : Z) : list byte :=
  match n with
  | O => []
  | S n' => of_Z v :: little_endian n' (Z.shiftr v 8)
  end.

Definition from_big_endian (bs : list byte) : Z :=
  fold_left (fun acc b => Z.lor (Z.shiftl acc 8) (to_Z b)) bs 0.

Definition from_little_endian (bs : list byte) : Z :=
  fold_right (fun b acc => Z.lor (to_Z b) (Z.shiftl acc 8)) 0 bs.

Definition xor (a b : byte) : byte := of_Z (Z.lxor (to_Z a) (to_Z b)).

(** Consecutive groups of [n] bytes, [k] of them. *)
Fixpoint chunks (n k : nat) (bs : list byte) : list (list byte) :=
  match k with
  | O => []
  | S k' => firstn n bs :: chunks n k' (skipn n bs)
  end.

(** [hex.EncodeToString]: two lower-case digits per byte. *)
Definition hex_digit (d : Z) : ascii :=
  if d <? 10 then ascii_of_N (Z.to_N (48 + d)) else ascii_of_N (Z.to_N (87 + d)).

Fixpoint hex_EncodeToString (bs : list byte) : string :=
  match bs with
  | [] => EmptyString
  | b :: r =>
      String (hex_digit (Z.shiftr (to_Z b) 4))
        (String (hex_digit (Z.land (to_Z b) 15)) (hex_EncodeToString r))
  end.

End Bytes.

(** ** 32-bit words *)

Module Word32.

Definition wrap (x : Z) : Z := x mod 2 ^ 32.
Definition add (x y : Z) : Z := wrap (x + y).
Definition not (x : Z) : Z := wrap (Z.lnot x).
Definition rotr (n x : Z) : Z := Z.lor (Z.shiftr x n) (wrap (Z.shiftl x (32 - n))).
Definition rotl (n x : Z) : Z := Z.lor (wrap (Z.shiftl x n)) (Z.shiftr x (32 - n)).

End Word32.

(** ** SHA-256 ([crypto/sha256], FIPS 180-4) *)

Module SHA256.
Import Word32.

(** The constants of FIPS 180-4, from their definition: the first 32 bits of
    the fractional parts of the cube roots (round constants) and of the square
    roots (initial state) of the first primes. *)
Definition is_prime (n : nat) : bool :=
  forallb (fun d => negb (n mod d =? 0)%nat) (seq 2 (n - 2)).

Definition primes : list Z :=
  map Z.of_nat (filter (fun n => is_prime n = true) (seq 2 310)).

(** The integer cube root of [n], by bisection between [lo] and [hi]. *)
Fixpoint cube_root (fuel : nat) (lo hi n : Z) : Z :=
  match fuel with
  | O => lo
  | S fuel' =>
      let mid := (lo + hi) / 2 in
      if mid * mid * mid <=? n then cube_root fuel' mid hi n
      else cube_root fuel' lo mid n
  end.

Definition K : list Z :=
  Eval vm_compute in
    map (fun p => cube_root 40 0 (2 ^ 36) (p * 2 ^ 96) mod 2 ^ 32) primes.

Definition state : Type := Z * Z * Z * Z * Z * Z * Z * Z.

Definition init : state :=
  Eval vm_compute in
    match map (fun p => Z.sqrt (p * 2 ^ 64) mod 2 ^ 32) (firstn 8 primes) with
    | [a; b; c; d; e; f; g; h] => (a, b, c, d, e, f, g, h)
    | _ => (0, 0, 0, 0, 0, 0, 0, 0)
    end.

Definition Ch (x y z : Z) : Z := Z.lxor (Z.land x y) (Z.land (not x) z).
Definition Maj (x y z : Z) : Z :=
  Z.lxor (Z.lxor (Z.land x y) (Z.land x z)) (Z.land y z).
Definition Sigma0 (x : Z) : Z := Z.lxor (Z.lxor (rotr 2 x) (rotr 13 x)) (rotr 22 x).
Definition Sigma1 (x : Z) : Z := Z.lxor (Z.lxor (rotr 6 x) (rotr 11 x)) (rotr 25 x).
Definition sigma0 (x : Z) : Z := Z.lxor (Z.lxor (rotr 7 x) (rotr 18 x)) (Z.shiftr x 3).
Definition sigma1 (x : Z) : Z := Z.lxor (Z.lxor (rotr 17 x) (rotr 19 x)) (Z.shiftr x 10).

(** The message is followed by the byte 0x80, zero bytes up to 56 modulo
    64, and the bit length on eight bytes. *)
Definition pad (msg : list byte) : list byte :=
  let n := Z.of_nat (length msg) in
  msg ++ x80 :: repeat x00 (Z.to_nat ((55 - n) mod 64))
      ++ Bytes.big_endian 8 ((8 * n) mod 2 ^ 64).

(** One round. The second component is the window [W_t .. W_(t+15)] of the
    message schedule. *)
Definition round (st : state * list Z) (k : Z) : state * list Z :=
  let '((a, b, c, d, e, f, g, h), w) := st in
  let t1 := add (add (add (add h (Sigma1 e)) (Ch e f g)) k) (nth 0 w 0) in
  let t2 := add (Sigma0 a) (Maj a b c) in
  let wnew :=
    add (add (add (sigma1 (nth 14 w 0)) (nth 9 w 0)) (sigma0 (nth 1 w 0)))
        (nth 0 w 0) in
  ((add t1 t2, a, b, c, add d t1, e, f, g), tl w ++ [wnew]).

Definition compress (h : state) (block : list byte) : state :=
  let w := map Bytes.from_big_endian (Bytes.chunks 4 16 block) in
  let '((a, b, c, d, e, f, g, hh), _) := fold_left round K (h, w) in
  let '(a0, b0, c0, d0, e0, f0, g0, h0) := h in
  (add a0 a, add b0 b, add c0 c, add d0 d, add e0 e, add f0 f, add g0 g, add h0 hh).

Definition digest (h : state) : list byte :=
  let '(a, b, c, d, e, f, g, hh) := h in
  Bytes.big_endian 4 a ++ Bytes.big_endian 4 b ++ Bytes.big_endian 4 c
    ++ Bytes.big_endian 4 d ++ Bytes.big_endian 4 e ++ Bytes.big_endian 4 f
    ++ Bytes.big_endian 4 g ++ Bytes.big_endian 4 hh.

(** [sha256.Sum256]. *)
Definition Sum256 (msg : list byte) : list byte :=
  let p := pad msg in
  digest (fold_left compress (Bytes.chunks 64 (length p / 64) p) init).

Definition Size : nat := 32.
Definition BlockSize : nat := 64.

End SHA256.

(** ** HMAC-SHA256 ([crypto/hmac] over [sha256.New], RFC 2104) *)

Module HMAC.

Definition block_key (key : list byte) : list byte :=
  let k := if (SHA256.BlockSize <? length key)%nat then SHA256.Sum256 key else key in
  k ++ repeat x00 (SHA256.BlockSize - length k).

Definition Sum (key msg : list byte) : list byte :=
  let k := block_key key in
  let ipad := map (Bytes.xor x36) k in
  let opad := map (Bytes.xor x5c) k in
  SHA256.Sum256 (opad ++ SHA256.Sum256 (ipad ++ msg)).

End HMAC.

(** ** PBKDF2 ([pbkdf2.Key] with [sha256.New], RFC 8018) *)

Module PBKDF2.

(** The iterations 2..iter of one block: [u] is the last PRF output and
    [t] the running exclusive-or. *)
Fixpoint iterate (password : list byte) (n : nat) (u t : list byte) : list byte :=
  match n with
  | O => t
  | S n' =>
      let u' := HMAC.Sum password u in
      iterate password n' u' (zip_with Bytes.xor t u')
  end.

Definition block (password salt : list byte) (iter : Z) (i : nat) : list byte :=
  let u1 := HMAC.Sum password (salt ++ Bytes.big_endian 4 (Z.of_nat i)) in
  iterate password (Z.to_nat (iter - 1)) u1 u1.

Definition Key (password salt : list byte) (iter keyLen : Z) : list byte :=
  let hashLen := Z.of_nat SHA256.Size in
  let numBlocks := (keyLen + hashLen - 1) / hashLen in
  firstn (Z.to_nat keyLen)
    (concat (map (block password salt iter) (seq 1 (Z.to_nat numBlocks)))).

End PBKDF2.

(** ** MD5 ([crypto/md5], RFC 1321) *)

Module MD5.
Import Word32.

Definition T : list Z :=
  [ 0xd76aa478; 0xe8c7b756; 0x242070db; 0xc1bdceee; 0xf57c0faf; 0x4787c62a;
    0xa8304613; 0xfd469501; 0x698098d8; 0x8b44f7af; 0xffff5bb1; 0x895cd7be;
    0x6b901122; 0xfd987193; 0xa679438e; 0x49b40821; 0xf61e2562; 0xc040b340;
    0x265e5a51; 0xe9b6c7aa; 0xd62f105d; 0x02441453; 0xd8a1e681; 0xe7d3fbc8;
    0x21e1cde6; 0xc33707d6; 0xf4d50d87; 0x455a14ed; 0xa9e3e905; 0xfcefa3f8;
    0x676f02d9; 0x8d2a4c8a; 0xfffa3942; 0x8771f681; 0x6d9d6122; 0xfde5380c;
    0xa4beea44; 0x4bdecfa9; 0xf6bb4b60; 0xbebfbc70; 0x289b7ec6; 0xeaa127fa;
    0xd4ef3085; 0x04881d05; 0xd9d4d039; 0xe6db99e5; 0x1fa27cf8; 0xc4ac5665;
    0xf4292244; 0x432aff97; 0xab9423a7; 0xfc93a039; 0x655b59c3; 0x8f0ccc92;
    0xffeff47d; 0x85845dd1; 0x6fa87e4f; 0xfe2ce6e0; 0xa3014314; 0x4e0811a1;
    0xf7537e82; 0xbd3af235; 0x2ad7d2bb; 0xeb86d391 ].

Definition shifts : list Z :=
  [ 7; 12; 17; 22; 7; 12; 17; 22; 7; 12; 17; 22; 7; 12; 17; 22;
    5; 9; 14; 20; 5; 9; 14; 20; 5; 9; 14; 20; 5; 9; 14; 20;
    4; 11; 16; 23; 4; 11; 16; 23; 4; 11; 16; 23; 4; 11; 16; 23;
    6; 10; 15; 21; 6; 10; 15; 21; 6; 10; 15; 21; 6; 10; 15; 21 ].

Definition state : Type := Z * Z * Z * Z.

Definition init : state := (0x67452301, 0xefcdab89, 0x98badcfe, 0x10325476).

Definition pad (msg : list byte) : list byte :=
  let n := Z.of_nat (length msg) in
  msg ++ x80 :: repeat x00 (Z.to_nat ((55 - n) mod 64))
      ++ Bytes.little_endian 8 ((8 * n) mod 2 ^ 64).

(** The round function and the message word index of step [i]. *)
Definition mix (i : nat) (b c d : Z) : Z * nat :=
  if (i <? 16)%nat then (Z.lor (Z.land b c) (Z.land (not b) d), i)
  else if (i <? 32)%nat then
    (Z.lor (Z.land d b) (Z.land (not d) c), (5 * i + 1) mod 16)%nat
  else if (i <? 48)%nat then
    (Z.lxor (Z.lxor b c) d, (3 * i + 5) mod 16)%nat
  else (Z.lxor c (Z.lor b (not d)), (7 * i) mod 16)%nat.

Definition step (m : list Z) (st : state) (i : nat) : state :=
  let '(a, b, c, d) := st in
  let '(f, g) := mix i b c d in
  let f' := add (add (add f a) (nth i T 0)) (nth g m 0) in
  (d, add b (rotl (nth i shifts 0) f'), b, c).

Definition compress (h : state) (block : list byte) : state :=
  let m := map Bytes.from_little_endian (Bytes.chunks 4 16 block) in
  let '(a, b, c, d) := fold_left (step m) (seq 0 64) h in
  let '(a0, b0, c0, d0) := h in
  (add a0 a, add b0 b, add c0 c, add d0 d).

Definition digest (h : state) : list byte :=
  let '(a, b, c, d) := h in
  Bytes.little_endian 4 a ++ Bytes.little_endian 4 b
    ++ Bytes.little_endian 4 c ++ Bytes.little_endian 4 d.

(** [md5.Sum]. *)
Definition Sum (msg : list byte) : list byte :=
  let p := pad msg in
  digest (fold_left compress (Bytes.chunks 64 (length p / 64) p) init).

End MD5.

(** ** Go's [int] (64 bits, two's complement) *)

Module Int.

Definition min : Z := - 2 ^ 63.
Definition max : Z := 2 ^ 63 - 1.
Definition wrap (x : Z) : Z := (x + 2 ^ 63) mod 2 ^ 64 - 2 ^ 63.
Definition add (x y : Z) : Z := wrap (x + y).
Definition sub (x y : Z) : Z := wrap (x - y).

End Int.

(** ** Package [license]: the data model *)

(** A [time.Time], observed through the two layouts the code formats it
    with: [time.RFC3339] and ["2006-01-02"]. *)
Inductive Layout := RFC3339 | DateOnly.

Record Time := mkTime { time_RFC3339 : string; time_DateOnly : string }.

Definition Format (t : Time) (layout : Layout) : string :=
  match layout with
  | RFC3339 => time_RFC3339 t
  | DateOnly => time_DateOnly t
  end.

(** [UsageMap] is [None] for Go's nil map. A nil and an empty
    [UsageHistory] are both the empty list. *)
Record License := mkLicense {
  Serial : string;
  PCId : string;
  ProductName : string;
  CreatedAt : Time;
  MaxDays : Z;
  IsLifetime : bool;
  LastUsedDate : string;
  FirstRunDate : string;
  RunCount : Z;
  IsActivated : bool;
  UsageHistory : list string;
  UsageMap : option (gmap string bool)
}.

Record CreateLicenseRequest := mkCreateLicenseRequest {
  req_ProductName : string;
  req_MaxDays : Z;
  req_IsLifetime : bool
}.

(** Field assignments. *)
Definition set_IsActivated (v : bool) (l : License) : License :=
  mkLicense (Serial l) (PCId l) (ProductName l) (CreatedAt l) (MaxDays l)
    (IsLifetime l) (LastUsedDate l) (FirstRunDate l) (RunCount l) v
    (UsageHistory l) (UsageMap l).
Definition set_FirstRunDate (v : string) (l : License) : License :=
  mkLicense (Serial l) (PCId l) (ProductName l) (CreatedAt l) (MaxDays l)
    (IsLifetime l) (LastUsedDate l) v (RunCount l) (IsActivated l)
    (UsageHistory l) (UsageMap l).
Definition set_LastUsedDate (v : string) (l : License) : License :=
  mkLicense (Serial l) (PCId l) (ProductName l) (CreatedAt l) (MaxDays l)
    (IsLifetime l) v (FirstRunDate l) (RunCount l) (IsActivated l)
    (UsageHistory l) (UsageMap l).
Definition set_RunCount (v : Z) (l : License) : License :=
  mkLicense (Serial l) (PCId l) (ProductName l) (CreatedAt l) (MaxDays l)
    (IsLifetime l) (LastUsedDate l) (FirstRunDate l) v (IsActivated l)
    (UsageHistory l) (UsageMap l).
Definition set_UsageHistory (v : list string) (l : License) : License :=
  mkLicense (Serial l) (PCId l) (ProductName l) (CreatedAt l) (MaxDays l)
    (IsLifetime l) (LastUsedDate l) (FirstRunDate l) (RunCount l)
    (IsActivated l) v (UsageMap l).
Definition set_UsageMap (v : option (gmap string bool)) (l : License) : License :=
  mkLicense (Serial l) (PCId l) (ProductName l) (CreatedAt l) (MaxDays l)
    (IsLifetime l) (LastUsedDate l) (FirstRunDate l) (RunCount l)
    (IsActivated l) (UsageHistory l) v.

(** ** Errors *)

(** The errors of package [crypto]. *)
Inductive CryptoError :=
  | EmptyMasterKey                 (* "master key cannot be empty" *)
  | MissingMasterKey               (* "LICENSE_MASTER_KEY environment variable
                                      is required" *)
  | BadMasterKeyLength             (* "master key must be 32 bytes" *)
  | InvalidKeySize                 (* aes.NewCipher *)
  | EnvelopeTooShort               (* "ciphertext too short" *)
  | EnvelopeAuthenticationFailed.  (* gcm.Open *)

(** The errors of package [license], one constructor per message. *)
Inductive Error :=
  | PathUnavailable        (* "failed to get license file path" *)
  | AlreadyExists          (* "license file already exists" *)
  | NoSuchLicense          (* "license file not found", "no license file found
                              for product" *)
  | ReadFailed             (* "failed to read license file" *)
  | CorruptOrRevoked (e : CryptoError)
                           (* "failed to decrypt license file" *)
  | MalformedRecord        (* "failed to parse license file" *)
  | WrongMachine           (* "license is not valid for this PC" *)
  | InvalidSerial          (* "license serial is invalid" *)
  | ClockRollbackDetected  (* "system date/time appears to have been rolled
                              back" *)
  | LicenseExpired (used allowed : Z)
                           (* "license has expired - used %d days out of %d
                              allowed" *)
  | PersistenceFailed (e : CryptoError).
                           (* "failed to save license", "failed to update
                              license usage" *)

Inductive Result (E A : Type) :=
  | Ok (a : A)
  | Err (e : E).
Arguments Ok {E A} a.
Arguments Err {E A} e.

Record ValidationResult := mkValidationResult {
  IsValid : bool;
  result_License : option License;
  ErrorMessage : option Error
}.

(** ** The world the program runs in *)

(** Files by path, the process environment and working directory, and the
    operating system's random source: [rand_Read] hands out the bytes of
    [rand_source] from position [rand_pos] on. Absence of a file is the only
    I/O fault in the model, and directories are not represented. *)
Record World := mkWorld {
  files : gmap string (list byte);
  environ : gmap string string;
  cwd : option string;
  rand_source : nat -> byte;
  rand_pos : nat
}.

(** Computations that read and write the world and may stop with an error
    of type [E]; the effects made before the error stay. *)
Definition M (E A : Type) : Type := World -> Result E A * World.

#[global] Instance M_ret {E} : MRet (M E) := fun A a w => (Ok a, w).
#[global] Instance M_bind {E} : MBind (M E) := fun A B f m w =>
  match m w with
  | (Ok a, w') => f a w'
  | (Err e, w') => (Err e, w')
  end.

Definition fail {E A : Type} (e : E) : M E A := fun w => (Err e, w).

(** A pure result, and the wrapping of an error ([fmt.Errorf]). *)
Definition lift {E A : Type} (r : Result E A) : M E A := fun w => (r, w).

Definition wrap_err {E E' A : Type} (f : E -> E') (m : M E A) : M E' A :=
  fun w => match m w with
           | (Ok a, w') => (Ok a, w')
           | (Err e, w') => (Err (f e), w')
           end.

Definition os_Getenv {E} (name : string) : M E string :=
  fun w => (Ok (default EmptyString (environ w !! name)), w).

(** [os.Getwd]. *)
Definition os_Getwd : M Error string :=
  fun w => match cwd w with
           | Some d => (Ok d, w)
           | None => (Err PathUnavailable, w)
           end.

(** [os.Stat]: whether the file exists. *)
Definition os_Stat {E} (path : string) : M E bool :=
  fun w => (Ok (bool_decide (is_Some (files w !! path))), w).

Definition os_ReadFile (path : string) : M Error (list byte) :=
  fun w => match files w !! path with
           | Some bs => (Ok bs, w)
           | None => (Err ReadFailed, w)
           end.

Definition write_file (path : string) (data : list byte) (w : World) : World :=
  mkWorld (<[path := data]> (files w)) (environ w) (cwd w) (rand_source w)
    (rand_pos w).

Definition os_WriteFile {E} (path : string) (data : list byte) : M E unit :=
  fun w => (Ok tt, write_file path data w).

(** [crypto/rand.Read] on a buffer of [n] bytes: the next [n] bytes of the
    source, which are consumed. *)
Definition rand_bytes (w : World) (n : nat) : list byte :=
  map (rand_source w) (seq (rand_pos w) n).

Definition rand_consume (w : World) (n : nat) : World :=
  mkWorld (files w) (environ w) (cwd w) (rand_source w) (rand_pos w + n)%nat.

Definition rand_Read {E} (n : nat) : M E (list byte) :=
  fun w => (Ok (rand_bytes w n), rand_consume w n).

(** [filepath.Join] of a directory and a file name (a clean directory path
    and a name without separators: nothing to simplify). *)
Definition filepath_Join (dir name : string) : string :=
  dir +:+ "/" +:+ name.

(** ** Library services used as black boxes *)

(** The AEAD returned by [cipher.NewGCM] over [aes.NewCipher(key)], without
    additional data: [gcm_Seal key nonce plaintext] is the ciphertext followed
    by the tag, the bytes that [Seal] appends to its destination. A sealed
    message opens under the same key and nonce. *)
Class AEAD := {
  gcm_Seal : list byte -> list byte -> list byte -> list byte;
  gcm_Open : list byte -> list byte -> list byte -> option (list byte);
  gcm_Open_Seal : forall key nonce plaintext,
    length key = 32%nat -> length nonce = 12%nat ->
    gcm_Open key nonce (gcm_Seal key nonce plaintext) = Some plaintext
}.

Definition gcm_NonceSize : nat := 12.

(** [encoding/json] on [License]. The field [usage_map] is tagged
    [omitempty]: an empty map is left out and read back as nil. *)
Definition omitempty (l : License) : License :=
  match UsageMap l with
  | Some m => if decide (m = ∅) then set_UsageMap None l else l
  | None => l
  end.

Class JSON := {
  json_MarshalIndent : License -> list byte;
  json_Unmarshal : list byte -> option License;
  json_Unmarshal_Marshal : forall l,
    json_Unmarshal (json_MarshalIndent l) = Some (omitempty l)
}.

(** ** Package [crypto] *)

Record CryptoManager := mkCryptoManager { masterKey : list byte }.

Definition getMasterKey : M CryptoError (list byte) :=
  envKey ← os_Getenv "LICENSE_MASTER_KEY";
  if decide (envKey = EmptyString) then fail MissingMasterKey
  else mret (SHA256.Sum256 (Bytes.of_string envKey)).

Definition NewCryptoManager : M CryptoError CryptoManager :=
  key ← getMasterKey;
  if decide (length key ≠ 32%nat) then fail BadMasterKeyLength
  else mret (mkCryptoManager key).

Definition NewCryptoManagerWithKey (masterKey : string)
  : Result CryptoError CryptoManager :=
  if decide (masterKey = EmptyString) then Err EmptyMasterKey
  else Ok (mkCryptoManager (SHA256.Sum256 (Bytes.of_string masterKey))).

Definition deriveSalt (cm : CryptoManager) (purpose : string) : list byte :=
  let data := Bytes.of_string "LICENSE_MANAGER_2025_" ++ Bytes.of_string purpose in
  let data := data ++ masterKey cm in
  SHA256.Sum256 data.

Definition DeriveSerialKey (cm : CryptoManager) : list byte :=
  let salt := deriveSalt cm "SERIAL_KEY_DERIVATION" in
  PBKDF2.Key (masterKey cm) salt 10000 32.

Definition DeriveEncryptionKey (cm : CryptoManager) : list byte :=
  let salt := deriveSalt cm "ENCRYPTION_KEY_DERIVATION" in
  PBKDF2.Key (masterKey cm) salt 10000 32.

(** [strings.ToUpper], on the ASCII letters. *)
Definition upper (c : ascii) : ascii :=
  let n := N_of_ascii c in
  if ((97 <=? n) && (n <=? 122))%N then ascii_of_N (n - 32) else c.

Fixpoint strings_ToUpper (s : string) : string :=
  match s with
  | EmptyString => EmptyString
  | String c r => String (upper c) (strings_ToUpper r)
  end.

(** The loop of [GenerateSerial]: [i] is the index of the next character of
    [hashStr] and [serial] the string built so far. *)
Fixpoint group_by_five (i : nat) (hashStr serial : string) : string :=
  match hashStr with
  | EmptyString => serial
  | String char rest =>
      let serial :=
        if ((0 <? i) && (i mod 5 =? 0))%nat then serial +:+ "-" else serial in
      group_by_five (S i) rest (serial +:+ String char EmptyString)
  end.

(** [fmt.Sprintf("%s|%s|%d|%s", ...)]. *)
Definition serial_data (pcId productName : string) (maxDays : Z)
    (serialKeyHex : string) : string :=
  pcId +:+ "|" +:+ productName +:+ "|" +:+ pretty maxDays +:+ "|" +:+ serialKeyHex.

(** [serial[:23]] is [substring 0 23 serial]; the slice is in range because
    [serial] has 38 characters ([GenerateSerial_in_range] below). *)
Definition GenerateSerial (cm : CryptoManager) (pcId productName : string)
    (maxDays : Z) : string :=
  let serialKey := DeriveSerialKey cm in
  let serialKeyHex := Bytes.hex_EncodeToString serialKey in
  let data := serial_data pcId productName maxDays serialKeyHex in
  let hash := MD5.Sum (Bytes.of_string data) in
  let hashStr := Bytes.hex_EncodeToString hash in
  let serial := group_by_five 0 hashStr EmptyString in
  strings_ToUpper (substring 0 23 serial).

(** [aes.NewCipher] accepts keys of 16, 24 or 32 bytes. *)
Definition aes_NewCipher (key : list byte) : Result CryptoError (list byte) :=
  if bool_decide (length key = 16 \/ length key = 24 \/ length key = 32)%nat
  then Ok key else Err InvalidKeySize.

Definition Encrypt `{!AEAD} (cm : CryptoManager) (data : list byte)
  : M CryptoError (list byte) :=
  let key := DeriveEncryptionKey cm in
  block ← lift (aes_NewCipher key);
  nonce ← rand_Read gcm_NonceSize;
  let ciphertext := nonce ++ gcm_Seal block nonce data in
  mret ciphertext.

Definition Decrypt `{!AEAD} (cm : CryptoManager) (data : list byte)
  : Result CryptoError (list byte) :=
  let key := DeriveEncryptionKey cm in
  match aes_NewCipher key with
  | Err e => Err e
  | Ok block =>
      let nonceSize := gcm_NonceSize in
      if (length data <? nonceSize)%nat then Err EnvelopeTooShort
      else
        let nonce := firstn nonceSize data in
        let ciphertext := skipn nonceSize data in
        match gcm_Open block nonce ciphertext with
        | None => Err EnvelopeAuthenticationFailed
        | Some plaintext => Ok plaintext
        end
  end.

Definition HashData (cm : CryptoManager) (data : list byte) : list byte :=
  SHA256.Sum256 data.

Definition GenerateRandomBytes {E} (cm : CryptoManager) (length : nat)
  : M E (list byte) :=
  rand_Read length.

(** ** Packages [strings] and [strconv] *)

(** A Go string is a sequence of bytes, and the functions of [strings] that
    go by characters read it as UTF-8. The white space of [unicode.IsSpace]
    is U+0009 to U+000D, U+0020, U+0085, U+00A0, U+1680, U+2000 to U+200A,
    U+2028, U+2029, U+202F, U+205F and U+3000: [space1], [space2] and
    [space3] recognise their encodings of one, two and three bytes. *)
Definition space1 (a : ascii) : bool :=
  let a := N_of_ascii a in
  ((9 <=? a) && (a <=? 13) || (a =? 32))%N.

Definition space2 (a b : ascii) : bool :=
  let a := N_of_ascii a in
  let b := N_of_ascii b in
  ((a =? 0xC2) && ((b =? 0x85) || (b =? 0xA0)))%N.

Definition space3 (a b c : ascii) : bool :=
  let a := N_of_ascii a in
  let b := N_of_ascii b in
  let c := N_of_ascii c in
  ((a =? 0xE1) && (b =? 0x9A) && (c =? 0x80)
   || (a =? 0xE2) && (b =? 0x80)
      && ((0x80 <=? c) && (c <=? 0x8A) || (c =? 0xA8) || (c =? 0xA9) || (c =? 0xAF))
   || (a =? 0xE2) && (b =? 0x81) && (c =? 0x9F)
   || (a =? 0xE3) && (b =? 0x80) && (c =? 0x80))%N.

(** The string cut into its white space characters (marked [true], with
    their bytes) and its other bytes (marked [false]). The first byte of a
    white space character of several bytes is never a continuation byte of
    UTF-8, so the decoder of the library, from the left as from the right,
    finds a white space character exactly where this cut has one. *)
Fixpoint scan (s : string) : list (bool * string) :=
  match s with
  | EmptyString => []
  | String a r =>
      if space1 a then (true, String a EmptyString) :: scan r
      else
        match r with
        | String b r' =>
            if space2 a b then (true, String a (String b EmptyString)) :: scan r'
            else
              match r' with
              | String c r'' =>
                  if space3 a b c
                  then (true, String a (String b (String c EmptyString))) :: scan r''
                  else (false, String a EmptyString) :: scan r
              | EmptyString => (false, String a EmptyString) :: scan r
              end
        | EmptyString => (false, String a EmptyString) :: scan r
        end
  end.

Fixpoint drop_spaces (cs : list (bool * string)) : list (bool * string) :=
  match cs with
  | (true, _) :: rest => drop_spaces rest
  | _ => cs
  end.

(** [strings.TrimSpace]: the leading white space goes, then the trailing. *)
Definition strings_TrimSpace (s : string) : string :=
  let cs := drop_spaces (scan s) in
  let cs := rev (drop_spaces (rev cs)) in
  String.concat EmptyString (map snd cs).

(** [strings.Fields]: [field] is the field being read, empty between two
    fields. *)
Fixpoint fields_from (cs : list (bool * string)) (field : string) : list string :=
  match cs with
  | [] => if decide (field = EmptyString) then [] else [field]
  | (true, _) :: rest =>
      (if decide (field = EmptyString) then [] else [field])
        ++ fields_from rest EmptyString
  | (false, b) :: rest => fields_from rest (field +:+ b)
  end.

Definition strings_Fields (s : string) : list string :=
  fields_from (scan s) EmptyString.

(** [strings.Split(s, sep)] and [strings.SplitSeq(s, sep)] for a separator
    of one byte: the pieces between the separators, empty ones included. *)
Fixpoint strings_Split (s : string) (sep : ascii) : list string :=
  match s with
  | EmptyString => [EmptyString]
  | String c r =>
      if Ascii.eqb c sep then EmptyString :: strings_Split r sep
      else
        match strings_Split r sep with
        | piece :: pieces => String c piece :: pieces
        | [] => [String c EmptyString]
        end
  end.

Fixpoint strings_Contains (s substr : string) : bool :=
  String.prefix substr s
  || match s with
     | EmptyString => false
     | String _ r => strings_Contains r substr
     end.

Definition strings_Join (elems : list string) (sep : string) : string :=
  String.concat sep elems.

(** No byte of the string is [utf8.RuneSelf] or above. *)
Definition is_ascii (s : string) : bool :=
  forallb (fun c => (N_of_ascii c <? 128)%N) (list_ascii_of_string s).

(** [strings.ToLower] on a string of ASCII characters: [A] to [Z] become [a]
    to [z]. On a string with other bytes the library maps every character by
    the case tables of Unicode, which are not modelled: what is stated of
    [strings_ToLower] is stated of ASCII strings. *)
Definition lower (c : ascii) : ascii :=
  let n := N_of_ascii c in
  if ((65 <=? n) && (n <=? 90))%N then ascii_of_N (n + 32) else c.

Fixpoint strings_ToLower (s : string) : string :=
  match s with
  | EmptyString => EmptyString
  | String c r => String (lower c) (strings_ToLower r)
  end.

(** The errors of [strconv]. *)
Inductive NumError :=
  | ErrSyntax   (* "invalid syntax" *)
  | ErrRange.   (* "value out of range" *)

(** The value of a decimal digit. *)
Definition digit (ch : ascii) : option Z :=
  let n := Z.of_N (N_of_ascii ch) in
  if (48 <=? n) && (n <=? 57) then Some (n - 48) else None.

(** The loop of the fast path of [strconv.Atoi], for strings too short to
    overflow. *)
Fixpoint atoi_digits (s : string) (n : Z) : Result NumError Z :=
  match s with
  | EmptyString => Ok n
  | String ch r =>
      match digit ch with
      | None => Err ErrSyntax
      | Some d => atoi_digits r (n * 10 + d)
      end
  end.

(** The loop of [strconv.ParseUint(s, 10, 64)]: the overflow of [uint64] is
    reported where it happens, before the rest of the string is looked at. *)
Fixpoint parse_digits (s : string) (n : Z) : Result NumError Z :=
  match s with
  | EmptyString => Ok n
  | String c r =>
      match digit c with
      | None => Err ErrSyntax
      | Some d =>
          let cutoff := (2 ^ 64 - 1) / 10 + 1 in
          if cutoff <=? n then Err ErrRange
          else
            let n := n * 10 in
            let n1 := n + d in
            if 2 ^ 64 - 1 <? n1 then Err ErrRange else parse_digits r n1
      end
  end.

Definition strconv_ParseUint (s : string) : Result NumError Z :=
  if decide (s = EmptyString) then Err ErrSyntax else parse_digits s 0.

(** [strconv.ParseInt(s, 10, 0)], with an [int] of 64 bits. *)
Definition strconv_ParseInt (s : string) : Result NumError Z :=
  match s with
  | EmptyString => Err ErrSyntax
  | String c r =>
      let neg := Ascii.eqb c "-" in
      let s := if Ascii.eqb c "+" || Ascii.eqb c "-" then r else s in
      match strconv_ParseUint s with
      | Err e => Err e
      | Ok un =>
          let cutoff := 2 ^ 63 in
          if negb neg && (cutoff <=? un) then Err ErrRange
          else if neg && (cutoff <? un) then Err ErrRange
          else Ok (if neg then - un else un)
      end
  end.

(** [strconv.Atoi]: strings of fewer than 19 bytes take the fast path. *)
Definition strconv_Atoi (s : string) : Result NumError Z :=
  let sLen := String.length s in
  if ((0 <? sLen) && (sLen <? 19))%nat then
    match s with
    | EmptyString => Err ErrSyntax
    | String c r =>
        let signed := Ascii.eqb c "-" || Ascii.eqb c "+" in
        let s' := if signed then r else s in
        if signed && (String.length s' <? 1)%nat then Err ErrSyntax
        else
          match atoi_digits s' 0 with
          | Err e => Err e
          | Ok n => Ok (if Ascii.eqb c "-" then - n else n)
          end
    end
  else strconv_ParseInt s.

(** ** Package [config] *)

Record Config := mkConfig {
  DefaultMaxDays : Z;
  LifetimeDays : Z;
  MasterKey : string
}.

Definition DefaultConfig : Config := mkConfig 30 99999 EmptyString.

(** [strings.ReplaceAll(s, old, "_")] for a one-character [old]. *)
Fixpoint replace_char (old : ascii) (s : string) : string :=
  match s with
  | EmptyString => EmptyString
  | String c r =>
      String (if Ascii.eqb c old then "_"%char else c) (replace_char old r)
  end.

Definition sanitizeFilename (name : string) : string :=
  let result := replace_char " " name in
  let result := replace_char "/" result in
  let result := replace_char "\" result in
  let result := replace_char ":" result in
  let result := replace_char "*" result in
  let result := replace_char "?" result in
  let result := replace_char "034" result in
  let result := replace_char "<" result in
  let result := replace_char ">" result in
  let result := replace_char "|" result in
  result.

Definition GetLicenseFilePathForProduct (c : Config) (productName : string)
  : M Error string :=
  licenseDir ← os_Getenv "LICENSE_DIR";
  dir ← (if decide (licenseDir ≠ EmptyString) then mret licenseDir else os_Getwd);
  let filename := sanitizeFilename productName +:+ ".license" in
  mret (filepath_Join dir filename).

Definition IsLifetimeRequest (c : Config) (maxDays : Z) : bool :=
  (maxDays =? -1) || (LifetimeDays c <=? maxDays).

Definition IsLifetimeString (c : Config) (daysStr : string) : bool :=
  bool_decide (strings_ToLower (strings_TrimSpace daysStr) = "lifetime"%string).

(** The errors of [ParseMaxDays]: the error of [strconv.Atoi], or
    [strconv.ErrRange] itself for a number that is not positive. *)
Inductive ParseError :=
  | NotANumber (e : NumError)
  | NotPositive.

(** [ParseMaxDays]: the days and whether the license is a lifetime one. *)
Definition ParseMaxDays (c : Config) (daysStr : string)
  : Result ParseError (Z * bool) :=
  if IsLifetimeString c daysStr then Ok (LifetimeDays c, true)
  else
    match strconv_Atoi daysStr with
    | Err e => Err (NotANumber e)
    | Ok days =>
        if days <=? 0 then Err NotPositive
        else
          let isLifetime := IsLifetimeRequest c days in
          let days := if isLifetime then LifetimeDays c else days in
          Ok (days, isLifetime)
    end.

Record ConfigError := mkConfigError { Field : string; Message : string }.

Definition ConfigError_Error (e : ConfigError) : string :=
  "config error in " +:+ Field e +:+ ": " +:+ Message e.

Definition Config_Validate (c : Config) : Result ConfigError unit :=
  if DefaultMaxDays c <=? 0
  then Err (mkConfigError "DefaultMaxDays" "must be positive")
  else if LifetimeDays c <=? 0
  then Err (mkConfigError "LifetimeDays" "must be positive")
  else Ok tt.

(** [LoadConfig]: the defaults, each overridden by its environment variable
    when that holds a positive number. *)
Definition LoadConfig {E} : M E Config :=
  let config := DefaultConfig in
  defaultDays ← os_Getenv "LICENSE_DEFAULT_DAYS";
  let config :=
    if decide (defaultDays ≠ EmptyString) then
      match strconv_Atoi defaultDays with
      | Ok days =>
          if 0 <? days
          then mkConfig days (LifetimeDays config) (MasterKey config)
          else config
      | Err _ => config
      end
    else config in
  lifetimeDays ← os_Getenv "LICENSE_LIFETIME_DAYS";
  let config :=
    if decide (lifetimeDays ≠ EmptyString) then
      match strconv_Atoi lifetimeDays with
      | Ok days =>
          if 0 <? days
          then mkConfig (DefaultMaxDays config) days (MasterKey config)
          else config
      | Err _ => config
      end
    else config in
  masterKey ← os_Getenv "LICENSE_MASTER_KEY";
  mret (mkConfig (DefaultMaxDays config) (LifetimeDays config) masterKey).

(** ** Package [hardware] *)

(** The machine the program runs on: [runtime.GOOS], and what
    [exec.Command(name, args...).Output()] returns, [None] when the command
    fails. *)
Record Host := mkHost {
  GOOS : string;
  command_output : string -> list string -> option string
}.

Definition runCmd (p : Host) (name : string) (args : list string) : string :=
  match command_output p name args with
  | None => EmptyString
  | Some output => output
  end.

(** A loop over lines that stops at the first line giving a result. *)
Fixpoint first_line (found : string -> option string) (lines : list string)
  : option string :=
  match lines with
  | [] => None
  | line :: rest =>
      match found line with
      | Some value => Some value
      | None => first_line found rest
      end
  end.

Definition extractValue (p : Host) (output key : string) : string :=
  let lines := strings_Split output "010" in
  default EmptyString
    (first_line
       (fun line =>
          if strings_Contains line (key +:+ "=") then
            let parts := strings_Split line "=" in
            if (2 <=? length parts)%nat then
              let value := strings_TrimSpace (nth 1 parts EmptyString) in
              if bool_decide (value ≠ EmptyString)
                 && bool_decide (value ≠ "To be filled by O.E.M."%string)
              then Some value else None
            else None
          else None)
       lines).

(** The hardware identifiers that [Generate] collects, in order. *)
Definition components_windows (p : Host) : list string :=
  let components := [] in
  let components :=
    let cpu := runCmd p "wmic" ["cpu"; "get"; "ProcessorId"; "/format:list"]%string in
    if decide (cpu ≠ EmptyString) then
      let val := extractValue p cpu "ProcessorId" in
      if decide (val ≠ EmptyString) then components ++ ["cpu:" +:+ val]
      else components
    else components in
  let components :=
    let mb :=
      runCmd p "wmic" ["baseboard"; "get"; "SerialNumber"; "/format:list"]%string in
    if decide (mb ≠ EmptyString) then
      let val := extractValue p mb "SerialNumber" in
      if decide (val ≠ EmptyString) then components ++ ["mb:" +:+ val]
      else components
    else components in
  let components :=
    let guid :=
      runCmd p "reg"
        ["query"; "HKLM\SOFTWARE\Microsoft\Cryptography"; "/v"; "MachineGuid"]%string in
    if decide (guid ≠ EmptyString) then
      let lines := strings_Split guid "010" in
      match
        first_line
          (fun line =>
             if strings_Contains line "MachineGuid" then
               let parts := strings_Fields line in
               if (3 <=? length parts)%nat
               then Some ("guid:" +:+ nth 2 parts EmptyString) else None
             else None)
          lines
      with
      | Some component => components ++ [component]
      | None => components
      end
    else components in
  components.

Definition components_linux (p : Host) : list string :=
  let components := [] in
  let components :=
    let machineId := runCmd p "cat" ["/etc/machine-id"%string] in
    if decide (machineId ≠ EmptyString)
    then components ++ ["machine:" +:+ strings_TrimSpace machineId]
    else components in
  let components :=
    let cpuInfo := runCmd p "cat" ["/proc/cpuinfo"%string] in
    if decide (cpuInfo ≠ EmptyString) then
      let lines := strings_Split cpuInfo "010" in
      match
        first_line
          (fun line =>
             if strings_Contains line "processor" && strings_Contains line "0"
             then Some ("cpu:" +:+ strings_TrimSpace line) else None)
          lines
      with
      | Some component => components ++ [component]
      | None => components
      end
    else components in
  let components :=
    let mac := runCmd p "cat" ["/sys/class/net/*/address"%string] in
    if decide (mac ≠ EmptyString) then
      let macs := strings_Split (strings_TrimSpace mac) "010" in
      if (0 <? length macs)%nat
         && bool_decide (nth 0 macs EmptyString ≠ "00:00:00:00:00:00"%string)
      then components ++ ["mac:" +:+ nth 0 macs EmptyString]
      else components
    else components in
  components.

Definition components_darwin (p : Host) : list string :=
  let components := [] in
  let components :=
    let uuid := runCmd p "system_profiler" ["SPHardwareDataType"%string] in
    if decide (uuid ≠ EmptyString) then
      let lines := strings_Split uuid "010" in
      match
        first_line
          (fun line =>
             if strings_Contains line "Hardware UUID:" then
               let parts := strings_Split line ":" in
               if (2 <=? length parts)%nat
               then Some ("uuid:"
                          +:+ strings_TrimSpace (strings_Join (drop 1 parts) ":"))
               else None
             else None)
          lines
      with
      | Some component => components ++ [component]
      | None => components
      end
    else components in
  let components :=
    let serial := runCmd p "system_profiler" ["SPHardwareDataType"%string] in
    if decide (serial ≠ EmptyString) then
      let lines := strings_Split serial "010" in
      match
        first_line
          (fun line =>
             if strings_Contains line "Serial Number" then
               let parts := strings_Split line ":" in
               if (2 <=? length parts)%nat
               then Some ("serial:" +:+ strings_TrimSpace (nth 1 parts EmptyString))
               else None
             else None)
          lines
      with
      | Some component => components ++ [component]
      | None => components
      end
    else components in
  components.

Inductive HardwareError :=
  | NoHardwareIdentifiers.  (* "could not generate PC ID - no hardware
                               identifiers found" *)

Definition Generate (p : Host) : Result HardwareError string :=
  let components :=
    if decide (GOOS p = "windows"%string) then components_windows p
    else if decide (GOOS p = "linux"%string) then components_linux p
    else if decide (GOOS p = "darwin"%string) then components_darwin p
    else [] in
  if decide (length components = 0%nat) then Err NoHardwareIdentifiers
  else
    let combined := strings_Join components "|" in
    let hash := SHA256.Sum256 (Bytes.of_string combined) in
    Ok (Bytes.hex_EncodeToString (take 16 hash)).

Definition GetSupportedPlatforms (p : Host) : list string :=
  ["windows"; "linux"; "darwin"]%string.

Definition IsSupported (p : Host) : bool :=
  let supported := GetSupportedPlatforms p in
  bool_decide (GOOS p ∈ supported).

(** ** Package [license]: the manager *)

Record Manager := mkManager {
  config : Config;
  crypto : CryptoManager;
  PCID : string
}.

Definition GetPCID (m : Manager) : string := PCID m.

(** [saveLicense]: marshal, encrypt, write. *)
Definition saveLicense `{!AEAD, !JSON} (m : Manager) (license : License)
    (filename : string) : M Error unit :=
  let data := json_MarshalIndent license in
  encryptedData ← wrap_err PersistenceFailed (Encrypt (crypto m) data);
  os_WriteFile filename encryptedData.

Definition Create `{!AEAD, !JSON} (m : Manager) (req : CreateLicenseRequest)
    (now : Time) : M Error License :=
  licenseFile ← GetLicenseFilePathForProduct (config m) (req_ProductName req);
  found ← os_Stat licenseFile;
  if found : bool then fail AlreadyExists
  else
    let maxDays := req_MaxDays req in
    let isLifetime := req_IsLifetime req || IsLifetimeRequest (config m) maxDays in
    let maxDays := if isLifetime then LifetimeDays (config m) else maxDays in
    let pcid := PCID m in
    let serial := GenerateSerial (crypto m) pcid (req_ProductName req) maxDays in
    let license :=
      mkLicense serial pcid (req_ProductName req) now maxDays isLifetime
        EmptyString EmptyString 0 false [] (Some ∅) in
    _ ← saveLicense m license licenseFile;
    mret license.

(** The map built from the history when the record has none. *)
Definition rebuild_UsageMap (history : list string) : gmap string bool :=
  foldl (fun usageMap date => <[date := true]> usageMap) ∅ history.

(** What the usage update of [readAndVerifyLicense] decides. *)
Inductive Usage :=
  | SameInstant (license : License)  (* save and return at once *)
  | Rollback                         (* fail, nothing saved *)
  | Updated (license : License).     (* go on to the expiration check *)

(** The usage accounting of a later run: [readAndVerifyLicense] from the
    initialization of the usage map to the end of its [else] branch. *)
Definition record_usage (license : License) (nowRFC3339 today : string) : License :=
  let license :=
    match UsageMap license with
    | None => set_UsageMap (Some (rebuild_UsageMap (UsageHistory license))) license
    | Some _ => license
    end in
  let usedToday :=
    match UsageMap license with
    | Some usageMap => default false (usageMap !! today)
    | None =>
        if bool_decide (last (UsageHistory license) = Some today) then true
        else bool_decide (today ∈ UsageHistory license)
    end in
  if negb usedToday then
    let license := set_LastUsedDate nowRFC3339 license in
    let license := set_UsageHistory (UsageHistory license ++ [today]) license in
    let license :=
      match UsageMap license with
      | Some usageMap => set_UsageMap (Some (<[today := true]> usageMap)) license
      | None => license
      end in
    license
  else
    set_LastUsedDate nowRFC3339 license.

(** The in-memory update of [readAndVerifyLicense], from [if
    !license.IsActivated] to the end of its [else] branch. *)
Definition update_usage (license : License) (nowRFC3339 today : string) : Usage :=
  if negb (IsActivated license) then
    let license := set_IsActivated true license in
    let license := set_FirstRunDate nowRFC3339 license in
    let license := set_LastUsedDate nowRFC3339 license in
    let license := set_RunCount 1 license in
    let license := set_UsageHistory [today] license in
    let license := set_UsageMap (Some {[ today := true ]}) license in
    Updated license
  else
    let license := set_RunCount (Int.add (RunCount license) 1) license in
    if bool_decide (LastUsedDate license ≠ EmptyString) then
      if bool_decide (LastUsedDate license = nowRFC3339) then SameInstant license
      else if String.ltb nowRFC3339 (LastUsedDate license) then Rollback
      else Updated (record_usage license nowRFC3339 today)
    else Updated (record_usage license nowRFC3339 today).

(** [readAndVerifyLicense]; [now] is what [time.Now()] returns. *)
Definition readAndVerifyLicense `{!AEAD, !JSON} (m : Manager)
    (filename currentPcId : string) (now : Time) : M Error License :=
  found ← os_Stat filename;
  if negb found then fail NoSuchLicense
  else
    encryptedData ← os_ReadFile filename;
    data ← wrap_err CorruptOrRevoked (lift (Decrypt (crypto m) encryptedData));
    match json_Unmarshal data with
    | None => fail MalformedRecord
    | Some license =>
        if decide (PCId license ≠ currentPcId) then fail WrongMachine
        else
          let expectedSerial :=
            GenerateSerial (crypto m) currentPcId (ProductName license)
              (MaxDays license) in
          if decide (Serial license ≠ expectedSerial) then fail InvalidSerial
          else
            let nowRFC3339 := Format now RFC3339 in
            let today := Format now DateOnly in
            match update_usage license nowRFC3339 today with
            | SameInstant license =>
                _ ← saveLicense m license filename;
                mret license
            | Rollback => fail ClockRollbackDetected
            | Updated license =>
                if negb (IsLifetime license)
                   && (MaxDays license <? Z.of_nat (length (UsageHistory license)))
                then fail (LicenseExpired (Z.of_nat (length (UsageHistory license)))
                             (MaxDays license))
                else
                  _ ← saveLicense m license filename;
                  mret license
            end
    end.

(** [Validate] reports a failure in the result, never as an error. *)
Definition Validate `{!AEAD, !JSON} (m : Manager) (productName : string)
    (now : Time) : World -> ValidationResult * World :=
  fun w =>
    match GetLicenseFilePathForProduct (config m) productName w with
    | (Err e, w') => (mkValidationResult false None (Some e), w')
    | (Ok licenseFile, w') =>
        match readAndVerifyLicense m licenseFile (PCID m) now w' with
        | (Err e, w'') => (mkValidationResult false None (Some e), w'')
        | (Ok license, w'') => (mkValidationResult true (Some license) None, w'')
        end
    end.

Definition View `{!AEAD, !JSON} (m : Manager) (productName : string)
  : M Error License :=
  licenseFile ← GetLicenseFilePathForProduct (config m) productName;
  encryptedData ← os_ReadFile licenseFile;
  data ← wrap_err CorruptOrRevoked (lift (Decrypt (crypto m) encryptedData));
  match json_Unmarshal data with
  | None => fail MalformedRecord
  | Some license =>
      if decide (PCId license ≠ PCID m) then fail WrongMachine
      else mret license
  end.

Definition Revoke (m : Manager) (productName : string) : M Error unit :=
  licenseFile ← GetLicenseFilePathForProduct (config m) productName;
  found ← os_Stat licenseFile;
  if negb found then fail NoSuchLicense
  else
    corruptData ← GenerateRandomBytes (crypto m) 1024;
    os_WriteFile licenseFile corruptData.

Record LicenseInfo := mkLicenseInfo {
  info_ProductName : string;
  info_IsLifetime : bool;
  info_MaxDays : Z;
  info_UsedDays : Z;
  info_RemainingDays : Z;
  info_RunCount : Z;
  info_FirstRunDate : string;
  info_LastUsedDate : string;
  info_UsageHistory : list string;
  info_IsValid : bool
}.

(** How [GetInfo] ends without an info: with the message of the failed
    validation, or, were a result reported valid without a license, at the
    dereference of the nil pointer, which stops a Go program. *)
Inductive InfoError :=
  | ValidationFailed (message : option Error)
  | NilLicense.

Definition GetInfo `{!AEAD, !JSON} (m : Manager) (productName : string)
    (now : Time) : M InfoError LicenseInfo :=
  fun w =>
    let (result, w) := Validate m productName now w in
    if negb (IsValid result) then (Err (ValidationFailed (ErrorMessage result)), w)
    else
      match result_License result with
      | None => (Err NilLicense, w)
      | Some license =>
          let usedDays := Z.of_nat (length (UsageHistory license)) in
          let remainingDays := 0 in
          let remainingDays :=
            if negb (IsLifetime license)
            then Z.max (Int.sub (MaxDays license) usedDays) 0
            else remainingDays in
          let info :=
            mkLicenseInfo (ProductName license) (IsLifetime license)
              (MaxDays license) usedDays remainingDays (RunCount license)
              (FirstRunDate license) (LastUsedDate license)
              (UsageHistory license) true in
          (Ok info, w)
      end.

(** The errors of [NewManager] and [NewManagerWithKey]. *)
Inductive ManagerError :=
  | InvalidConfiguration (e : ConfigError)  (* "invalid configuration" *)
  | CryptoManagerFailed (e : CryptoError)   (* "failed to initialize crypto
                                               manager" *)
  | UnsupportedPlatform                     (* "unsupported platform" *)
  | PCIDFailed (e : HardwareError).         (* "failed to generate PC ID" *)

Definition NewManager (pcidGen : Host) : M ManagerError Manager :=
  cfg ← LoadConfig;
  match Config_Validate cfg with
  | Err err => fail (InvalidConfiguration err)
  | Ok _ =>
      cryptoMgr ← wrap_err CryptoManagerFailed NewCryptoManager;
      if negb (IsSupported pcidGen) then fail UnsupportedPlatform
      else
        match Generate pcidGen with
        | Err err => fail (PCIDFailed err)
        | Ok PCID => mret (mkManager cfg cryptoMgr PCID)
        end
  end.

Definition NewManagerWithKey (pcidGen : Host) (masterKey : string)
  : M ManagerError Manager :=
  cfg ← LoadConfig;
  match Config_Validate cfg with
  | Err err => fail (InvalidConfiguration err)
  | Ok _ =>
      cryptoMgr ← wrap_err CryptoManagerFailed (lift (NewCryptoManagerWithKey masterKey));
      if negb (IsSupported pcidGen) then fail UnsupportedPlatform
      else
        match Generate pcidGen with
        | Err err => fail (PCIDFailed err)
        | Ok currentPC => mret (mkManager cfg cryptoMgr currentPC)
        end
  end.

(** ** The command [license-manager] *)

(** [sanitizeProductName], by which [handleCreate] prints the name of the
    file it made. *)
Definition sanitizeProductName (name : string) : string :=
  let result := replace_char " " name in
  let result := replace_char "/" result in
  let result := replace_char "\" result in
  let result := replace_char ":" result in
  let result := replace_char "*" result in
  let result := replace_char "?" result in
  let result := replace_char "034" result in
  let result := replace_char "<" result in
  let result := replace_char ">" result in
  let result := replace_char "|" result in
  result.

(** * Vocabulary of the specification *)

(** ** Serial tokens *)

(** The characters of an upper-case hexadecimal numeral. *)
Definition is_upper_hex (c : ascii) : bool :=
  let n := N_of_ascii c in
  ((48 <=? n) && (n <=? 57) || (65 <=? n) && (n <=? 70))%N.

Fixpoint all_upper_hex (s : string) : bool :=
  match s with
  | EmptyString => true
  | String c r => is_upper_hex c && all_upper_hex r
  end.

(** The token built from any 16-byte digest. *)
Definition serial_of_digest (hash : list byte) : string :=
  strings_ToUpper (substring 0 23 (group_by_five 0 (Bytes.hex_EncodeToString hash) EmptyString)).

(** ** Key material *)

(** The normalization as section 4.1 of the specification words it: a master
    secret of exactly 32 bytes is used as it is, any other is hashed. *)
Definition spec_normalize (secret : list byte) : list byte :=
  if decide (length secret = 32%nat) then secret else SHA256.Sum256 secret.

(** ** Stored records *)

(** The file [filename] holds the record [l]: it decrypts under the manager's
    key and parses to [l]. *)
Definition stored `{!AEAD, !JSON} (m : Manager) (w : World) (filename : string)
    (l : License) : Prop :=
  exists envelope data,
    files w !! filename = Some envelope
    /\ Decrypt (crypto m) envelope = Ok data
    /\ json_Unmarshal data = Some l.

(** The record passes the machine and serial checks. *)
Definition accepted (m : Manager) (currentPcId : string) (l : License) : Prop :=
  PCId l = currentPcId
  /\ Serial l = GenerateSerial (crypto m) currentPcId (ProductName l) (MaxDays l).

(** The envelope of [l] sealed with the next bytes of the random source. *)
Definition envelope_of `{!AEAD, !JSON} (m : Manager) (l : License) (w : World)
  : list byte :=
  rand_bytes w 12
    ++ gcm_Seal (DeriveEncryptionKey (crypto m)) (rand_bytes w 12)
         (json_MarshalIndent l).

(** The world after [saveLicense]. *)
Definition saved `{!AEAD, !JSON} (m : Manager) (l : License) (filename : string)
    (w : World) : World :=
  write_file filename (envelope_of m l w) (rand_consume w 12).

(** [productName]'s license file in the world [w] is [path]. *)
Definition license_path (m : Manager) (productName : string) (w : World)
    (path : string) : Prop :=
  GetLicenseFilePathForProduct (config m) productName w = (Ok path, w).

(** The record that [Create] synthesizes. *)
Definition fresh_license (m : Manager) (req : CreateLicenseRequest) (now : Time)
  : License :=
  let isLifetime :=
    req_IsLifetime req || IsLifetimeRequest (config m) (req_MaxDays req) in
  let maxDays := if isLifetime then LifetimeDays (config m) else req_MaxDays req in
  mkLicense (GenerateSerial (crypto m) (PCID m) (req_ProductName req) maxDays)
    (PCID m) (req_ProductName req) now maxDays isLifetime EmptyString
    EmptyString 0 false [] (Some ∅).

(** The world after a successful [Revoke]: the file holds the next 1024
    bytes of the random source. *)
Definition revoked (path : string) (w : World) : World :=
  write_file path (rand_bytes w 1024) (rand_consume w 1024).

(** What [readAndVerifyLicense] does on a file that holds a record. *)
Definition expired (l : License) : bool :=
  negb (IsLifetime l) && (MaxDays l <? Z.of_nat (length (UsageHistory l))).

(** ** Usage history and usage map *)

(** The map holds exactly the days of the history: each of them is mapped to
    [true] and the map has no other entry. *)
Definition holds_exactly (history : list string) (usageMap : gmap string bool)
  : Prop :=
  forall d, usageMap !! d = if decide (d ∈ history) then Some true else None.

(** The map, when the record has one, holds exactly the days of its history. *)
Definition synced (l : License) : Prop :=
  match UsageMap l with
  | Some usageMap => holds_exactly (UsageHistory l) usageMap
  | None => True
  end.

(** The invariant of the data model: the history holds distinct days and the
    map, when present, holds exactly these days. *)
Definition usage_invariant (l : License) : Prop :=
  NoDup (UsageHistory l) /\ synced l.

(** [len(usageHistory) == |usageMap|] whenever [usageMap] is present. *)
Definition usage_sizes_agree (l : License) : Prop :=
  forall usageMap, UsageMap l = Some usageMap ->
    size usageMap = length (UsageHistory l).

(** First activation. *)
Definition activate (l : License) (nowRFC3339 today : string) : License :=
  mkLicense (Serial l) (PCId l) (ProductName l) (CreatedAt l) (MaxDays l)
    (IsLifetime l) nowRFC3339 nowRFC3339 1 true [today] (Some {[ today := true ]}).

(** A later run on a day [today] and at a time after the last use. *)
Definition later_run (l : License) (nowRFC3339 today : string) : License :=
  mkLicense (Serial l) (PCId l) (ProductName l) (CreatedAt l) (MaxDays l)
    (IsLifetime l) nowRFC3339 (FirstRunDate l) (Int.add (RunCount l) 1) true
    (if decide (today ∈ UsageHistory l) then UsageHistory l
     else UsageHistory l ++ [today])
    (Some (rebuild_UsageMap
             (if decide (today ∈ UsageHistory l) then UsageHistory l
              else UsageHistory l ++ [today]))).

(** ** Sequences of validations *)

(** One validation per clock reading, in order, each on the world the
    previous one left. *)
Fixpoint validate_each `{!AEAD, !JSON} (m : Manager) (filename currentPcId : string)
    (nows : list Time) (w : World) : list (Result Error License) * World :=
  match nows with
  | [] => ([], w)
  | now :: rest =>
      let (r, w') := readAndVerifyLicense m filename currentPcId now w in
      let (rs, w'') := validate_each m filename currentPcId rest w' in
      (r :: rs, w'')
  end.

(** Each timestamp is strictly after [last] and after the one before it. *)
Fixpoint increasing (last : string) (nows : list Time) : Prop :=
  match nows with
  | [] => True
  | now :: rest =>
      String.ltb last (Format now RFC3339) = true
      /\ increasing (Format now RFC3339) rest
  end.

Definition chronological (nows : list Time) : Prop :=
  match nows with
  | [] => True
  | now :: rest => increasing (Format now RFC3339) rest
  end.

Definition days (nows : list Time) : list string :=
  map (fun now => Format now DateOnly) nows.

(** ** Runs, identifiers, names and settings *)

(** The days of a sequence of runs, each listed once and in the order of
    first use, after the days [seen]. *)
Fixpoint first_uses (seen days : list string) : list string :=
  match days with
  | [] => seen
  | d :: rest => first_uses (if decide (d ∈ seen) then seen else seen ++ [d]) rest
  end.

(** The characters of a lower-case hexadecimal numeral. *)
Definition is_lower_hex (c : ascii) : bool :=
  let n := N_of_ascii c in
  ((48 <=? n) && (n <=? 57) || (97 <=? n) && (n <=? 102))%N.

Fixpoint all_lower_hex (s : string) : bool :=
  match s with
  | EmptyString => true
  | String c r => is_lower_hex c && all_lower_hex r
  end.

(** The characters that [sanitizeFilename] replaces. *)
Definition unsafe_chars : list ascii :=
  [" "; "/"; "\"; ":"; "*"; "?"; "034"; "<"; ">"; "|"]%char.

(** The value that [LoadConfig] takes from the environment variable [name],
    and [fallback] when the variable gives none. *)
Definition days_setting (w : World) (name : string) (fallback : Z) : Z :=
  match environ w !! name with
  | Some value =>
      match strconv_Atoi value with
      | Ok days => if 0 <? days then days else fallback
      | Err _ => fallback
      end
  | None => fallback
  end.

(** An ASCII character that is not white space. *)
Definition plain (c : ascii) : bool :=
  negb (space1 c) && (N_of_ascii c <? 128)%N.

(** What [sanitizeFilename] makes of a character. *)
Definition sanitized (c : ascii) : ascii :=
  if bool_decide (c ∈ unsafe_chars) then "_"%char else c.

(** The identifiers that [Generate] hashes. *)
Definition components (p : Host) : list string :=
  if decide (GOOS p = "windows"%string) then components_windows p
  else if decide (GOOS p = "linux"%string) then components_linux p
  else if decide (GOOS p = "darwin"%string) then components_darwin p
  else [].

(** * Reference implementations and sample data

    A small AEAD and a small record codec, shown below to satisfy the two
    interfaces, and the data of a manager on machine [pc-1]. They serve where
    a statement is evaluated on a concrete world. *)

(** ** A reference AEAD and a reference codec *)

#[global] Instance byte_eq_decision : EqDecision byte := Byte.byte_eq_dec.

(** The reference AEAD keeps the plaintext and appends a 16-byte tag. *)
Definition ref_tag : list byte := repeat x2a 16.

Definition ref_Seal (key nonce plaintext : list byte) : list byte :=
  plaintext ++ ref_tag.

Definition ref_Open (key nonce sealed : list byte) : option (list byte) :=
  let n := (length sealed - 16)%nat in
  if bool_decide (skipn n sealed = ref_tag /\ (16 <= length sealed)%nat)
  then Some (firstn n sealed) else None.

(** The reference codec writes the binary numeral of the record's code, one
    digit per byte. *)
Fixpoint bytes_of_positive (p : positive) : list byte :=
  match p with
  | xH => []
  | xO q => x30 :: bytes_of_positive q
  | xI q => x31 :: bytes_of_positive q
  end.

Fixpoint positive_of_bytes (bs : list byte) : option positive :=
  match bs with
  | [] => Some xH
  | b :: r =>
      match positive_of_bytes r with
      | None => None
      | Some q =>
          if Byte.eqb b x30 then Some (xO q)
          else if Byte.eqb b x31 then Some (xI q) else None
      end
  end.

Definition License_fields : Type :=
  string * string * string * (string * string) * Z * bool * string * string
  * Z * bool * list string * option (gmap string bool).

Definition License_to_fields (l : License) : License_fields :=
  (Serial l, PCId l, ProductName l,
   (time_RFC3339 (CreatedAt l), time_DateOnly (CreatedAt l)),
   MaxDays l, IsLifetime l, LastUsedDate l, FirstRunDate l, RunCount l,
   IsActivated l, UsageHistory l, UsageMap l).

Definition License_of_fields (t : License_fields) : License :=
  let '(serial, pcId, productName, (rfc, day), maxDays, isLifetime,
        lastUsedDate, firstRunDate, runCount, isActivated, usageHistory,
        usageMap) := t in
  mkLicense serial pcId productName (mkTime rfc day) maxDays isLifetime
    lastUsedDate firstRunDate runCount isActivated usageHistory usageMap.

Definition ref_Marshal (l : License) : list byte :=
  bytes_of_positive (encode (License_to_fields (omitempty l))).

Definition ref_Unmarshal (bs : list byte) : option License :=
  match positive_of_bytes bs with
  | None => None
  | Some p => License_of_fields <$> decode p
  end.

(** ** Sample data *)

Definition ex_crypto : CryptoManager :=
  mkCryptoManager
    (SHA256.Sum256 (Bytes.of_string "TestMasterKeyForLicenseTests12345678901234")).

Definition ex_manager : Manager := mkManager DefaultConfig ex_crypto "pc-1".

Definition ex_path : string := "/licenses/Acme.license".

Definition ex_world : World :=
  mkWorld ∅ {[ "LICENSE_DIR"%string := "/licenses"%string ]} None (fun _ => x00) 0.

(** A world where [Acme]'s license file exists. *)
Definition ex_world_junk : World :=
  mkWorld {[ ex_path := [x01; x02; x03] ]}
    {[ "LICENSE_DIR"%string := "/licenses"%string ]} None (fun _ => x00) 0.



Definition ex_created : Time := mkTime "2025-01-01T09:00:00Z" "2025-01-01".
Definition ex_day1 : Time := mkTime "2025-01-01T10:00:00Z" "2025-01-01".
Definition ex_day1_later : Time := mkTime "2025-01-01T18:30:00Z" "2025-01-01".
Definition ex_day2 : Time := mkTime "2025-01-02T10:00:00Z" "2025-01-02".
Definition ex_day3 : Time := mkTime "2025-01-03T10:00:00Z" "2025-01-03".

Definition ex_request : CreateLicenseRequest := mkCreateLicenseRequest "Acme" 30 false.

(** A record of [Acme] for 30 days, used on the first of January. *)
Definition ex_active : License :=
  mkLicense (GenerateSerial ex_crypto "pc-1" "Acme" 30) "pc-1" "Acme" ex_created
    30 false (time_RFC3339 ex_day1) (time_RFC3339 ex_day1) 1 true
    ["2025-01-01"%string] None.

(** A fresh record of [Acme] for two days. *)
Definition ex_two_days : License :=
  mkLicense (GenerateSerial ex_crypto "pc-1" "Acme" 2) "pc-1" "Acme" ex_created
    2 false EmptyString EmptyString 0 false [] None.

(** A record of [Acme] bound to [pc-1] whose serial is not the one the
    binding gives. *)
Definition ex_forged : License :=
  mkLicense "FORGED" "pc-1" "Acme" ex_created 30 false EmptyString EmptyString
    0 false [] None.

Definition ex_secret_32 : string := "0123456789abcdef0123456789abcdef".


(** A fresh lifetime record of [Acme]. *)
Definition ex_lifetime : License :=
  mkLicense (GenerateSerial ex_crypto "pc-1" "Acme" 99999) "pc-1" "Acme" ex_created
    99999 true EmptyString EmptyString 0 false [] None.

(** A record of [Acme] for one day, used on the first of January. *)
Definition ex_used_up : License :=
  mkLicense (GenerateSerial ex_crypto "pc-1" "Acme" 1) "pc-1" "Acme" ex_created
    1 false (time_RFC3339 ex_day1) (time_RFC3339 ex_day1) 1 true
    ["2025-01-01"%string] None.

(** The license file of another product. *)
Definition ex_other_path : string := "/licenses/Beta.license".

(** A Linux machine where only the machine id can be read. *)
Definition ex_host : Host :=
  mkHost "linux"
    (fun name args =>
       if decide (name = "cat"%string /\ args = ["/etc/machine-id"%string])
       then Some (String.append "4c1f3a9e77b24d0c8a5e2f6b9d013e57" (String "010" EmptyString))
       else None).

(** The environment of a process configured for terms of 45 days. *)
Definition ex_world_configured : World :=
  mkWorld ∅
    {[ "LICENSE_DEFAULT_DAYS"%string := "45"%string;
       "LICENSE_MASTER_KEY"%string := "TestMasterKeyForLicenseTests12345678901234"%string ]}
    None (fun _ => x00) 0.

(** * Properties *)

(** ** Test vectors of the library models

    The digests are those of FIPS 180-4 and RFC 1321, of HMAC-SHA256 on a
    well-known sentence, and of PBKDF2-HMAC-SHA256 for the password
    [password] and the salt [salt]. *)

Example SHA256_abc :
  Bytes.hex_EncodeToString (SHA256.Sum256 (Bytes.of_string "abc"))
  = "ba7816bf8f01cfea414140de5dae2223b00361a396177a9cb410ff61f20015ad"%string.
Proof. vm_compute. reflexivity. Qed.

Example SHA256_empty :
  Bytes.hex_EncodeToString (SHA256.Sum256 [])
  = "e3b0c44298fc1c149afbf4c8996fb92427ae41e4649b934ca495991b7852b855"%string.
Proof. vm_compute. reflexivity. Qed.

Example SHA256_two_blocks :
  Bytes.hex_EncodeToString (SHA256.Sum256 (repeat "a"%byte 100))
  = "2816597888e4a0d3a36b82b83316ab32680eb8f00f8cd3b904d681246d285a0e"%string.
Proof. vm_compute. reflexivity. Qed.

Example MD5_abc :
  Bytes.hex_EncodeToString (MD5.Sum (Bytes.of_string "abc"))
  = "900150983cd24fb0d6963f7d28e17f72"%string.
Proof. vm_compute. reflexivity. Qed.

Example MD5_empty :
  Bytes.hex_EncodeToString (MD5.Sum []) = "d41d8cd98f00b204e9800998ecf8427e"%string.
Proof. vm_compute. reflexivity. Qed.

Example MD5_two_blocks :
  Bytes.hex_EncodeToString (MD5.Sum (repeat "a"%byte 100))
  = "36a92cc94a9e0fa21f625f8bfb007adf"%string.
Proof. vm_compute. reflexivity. Qed.

Example HMAC_fox :
  Bytes.hex_EncodeToString
    (HMAC.Sum (Bytes.of_string "key")
       (Bytes.of_string "The quick brown fox jumps over the lazy dog"))
  = "f7bc83f430538424b13298e6aa6fb143ef4d59a14946175997479dbc2d1a3cd8"%string.
Proof. vm_compute. reflexivity. Qed.

Example PBKDF2_one_round :
  Bytes.hex_EncodeToString
    (PBKDF2.Key (Bytes.of_string "password") (Bytes.of_string "salt") 1 32)
  = "120fb6cffcf8b32c43e7225256c4f837a86548c92ccc35480805987cb70be17b"%string.
Proof. vm_compute. reflexivity. Qed.

Example PBKDF2_two_rounds :
  Bytes.hex_EncodeToString
    (PBKDF2.Key (Bytes.of_string "password") (Bytes.of_string "salt") 2 32)
  = "ae4d0c95af6b46d32d0adff928f06dd02a303f8ef3c251dfd6e2d85a95474c43"%string.
Proof. vm_compute. reflexivity. Qed.

Example PBKDF2_two_blocks :
  Bytes.hex_EncodeToString
    (PBKDF2.Key (Bytes.of_string "password") (Bytes.of_string "salt") 3 40)
  = "ad35240ac683febfaf3cd49d845473fbbbaa2437f5f82d5a415ae00ac76c6bfccf9a9b8d6d2fe4a1"%string.
Proof. vm_compute. reflexivity. Qed.

Example group_by_five_digits :
  strings_ToUpper
    (substring 0 23 (group_by_five 0 "0123456789abcdef0123456789abcdef" EmptyString))
  = "01234-56789-ABCDE-F0123"%string.
Proof. vm_compute. reflexivity. Qed.

Example sanitizeFilename_quote :
  sanitizeFilename (String "034" "a") = "_a"%string.
Proof. vm_compute. reflexivity. Qed.

Example sanitizeFilename_all :
  sanitizeFilename "a b/c:d*e?f<g>h|i\j" = "a_b_c_d_e_f_g_h_i_j"%string.
Proof. vm_compute. reflexivity. Qed.

(** ** Test vectors of [strings], [strconv] and [hardware]

    White space of one, two and three bytes is trimmed, a zero width space
    (U+200B) and a byte that starts no character are kept; [Atoi] reads signs
    and leading zeros, and stops at the first overflow. The identifier of
    [ex_host] is the one that [sha256sum] gives for its machine id. *)

Example TrimSpace_ascii :
  strings_TrimSpace
    (String "009" (String " " (String "a" (String " " (String "b"
       (String "013" (String "010" EmptyString)))))))
  = "a b"%string.
Proof. vm_compute. reflexivity. Qed.

Example TrimSpace_unicode :
  strings_TrimSpace
    (String "194" (String "160" (String "x"
       (String "227" (String "128" (String "128" EmptyString))))))
  = "x"%string.
Proof. vm_compute. reflexivity. Qed.

Example TrimSpace_keeps :
  strings_TrimSpace
    (String "226" (String "128" (String "139" (String "x"
       (String "194" (String " " EmptyString))))))
  = String "226" (String "128" (String "139" (String "x" (String "194" EmptyString)))).
Proof. vm_compute. reflexivity. Qed.

Example Fields_vector :
  strings_Fields
    (String " " (String "a" (String " " (String "009" (String "b" (String "c"
       (String "010" EmptyString)))))))
  = ["a"; "bc"]%string
  /\ strings_Fields EmptyString = [].
Proof. vm_compute. split; reflexivity. Qed.

Example Split_vector :
  strings_Split "a,b,,c" "," = ["a"; "b"; ""; "c"]%string
  /\ strings_Split "" "," = [EmptyString]
  /\ strings_Split "abc" "," = ["abc"%string].
Proof. vm_compute. repeat split; reflexivity. Qed.

Example Contains_vector :
  strings_Contains "processor : 0" "0" = true
  /\ strings_Contains "" "" = true
  /\ strings_Contains "abc" "bd" = false.
Proof. vm_compute. repeat split; reflexivity. Qed.

Example Atoi_vector :
  strconv_Atoi "30" = Ok 30
  /\ strconv_Atoi "-1" = Ok (-1)
  /\ strconv_Atoi "+7" = Ok 7
  /\ strconv_Atoi "007" = Ok 7
  /\ strconv_Atoi "" = Err ErrSyntax
  /\ strconv_Atoi "+" = Err ErrSyntax
  /\ strconv_Atoi "12a" = Err ErrSyntax
  /\ strconv_Atoi "1_000" = Err ErrSyntax
  /\ strconv_Atoi "9223372036854775807" = Ok Int.max
  /\ strconv_Atoi "9223372036854775808" = Err ErrRange
  /\ strconv_Atoi "-9223372036854775808" = Ok Int.min
  /\ strconv_Atoi "-9223372036854775809" = Err ErrRange
  /\ strconv_Atoi "99999999999999999999x" = Err ErrRange
  /\ strconv_Atoi "000000000000000000000000000042" = Ok 42.
Proof. vm_compute. repeat split; reflexivity. Qed.

Example extractValue_vector :
  extractValue ex_host
    ("ProcessorId=BFEBFBFF000906EA" +:+ String "013" (String "010" EmptyString))
    "ProcessorId"
  = "BFEBFBFF000906EA"%string
  /\ extractValue ex_host "SerialNumber=To be filled by O.E.M." "SerialNumber"
     = EmptyString
  /\ extractValue ex_host "Name=Foo ProcessorId=X" "ProcessorId"
     = "Foo ProcessorId"%string.
Proof. vm_compute. repeat split; reflexivity. Qed.

Example Generate_vector :
  Generate ex_host = Ok "e1273b41619f35dc699c326bdfe0d54b"%string.
Proof. vm_compute. reflexivity. Qed.

(** ** Digest and key lengths *)

Lemma big_endian_length n v : length (Bytes.big_endian n v) = n.
Proof. induction n as [|n IH]; simpl; [reflexivity | now rewrite IH]. Qed.

Lemma little_endian_length n v : length (Bytes.little_endian n v) = n.
Proof.
  revert v; induction n as [|n IH]; intros v; simpl; [reflexivity | now rewrite IH].
Qed.

Lemma SHA256_digest_length h : length (SHA256.digest h) = 32%nat.
Proof.
  destruct h as [[[[[[[a b] c] d] e] f] g] hh]. unfold SHA256.digest.
  rewrite !length_app, !big_endian_length. reflexivity.
Qed.

Lemma Sum256_length msg : length (SHA256.Sum256 msg) = 32%nat.
Proof. apply SHA256_digest_length. Qed.

Lemma MD5_digest_length h : length (MD5.digest h) = 16%nat.
Proof.
  destruct h as [[[a b] c] d]. unfold MD5.digest.
  rewrite !length_app, !little_endian_length. reflexivity.
Qed.

Lemma MD5_Sum_length msg : length (MD5.Sum msg) = 16%nat.
Proof. apply MD5_digest_length. Qed.

Lemma HMAC_Sum_length key msg : length (HMAC.Sum key msg) = 32%nat.
Proof. apply Sum256_length. Qed.

Lemma PBKDF2_iterate_length password n : forall u t,
  length t = 32%nat -> length (PBKDF2.iterate password n u t) = 32%nat.
Proof.
  induction n as [|n IH]; intros u t Ht; simpl; [exact Ht|].
  apply IH. rewrite length_zip_with, Ht, HMAC_Sum_length. reflexivity.
Qed.

Lemma PBKDF2_block_length password salt iter i :
  length (PBKDF2.block password salt iter i) = 32%nat.
Proof. apply PBKDF2_iterate_length, HMAC_Sum_length. Qed.

Lemma PBKDF2_Key_32_length password salt iter :
  length (PBKDF2.Key password salt iter 32) = 32%nat.
Proof.
  unfold PBKDF2.Key.
  change (Z.to_nat ((32 + Z.of_nat SHA256.Size - 1) / Z.of_nat SHA256.Size)) with 1%nat.
  change (Z.to_nat 32) with 32%nat.
  change (seq 1 1) with [1%nat].
  cbv [map concat]. rewrite app_nil_r.
  rewrite length_take, PBKDF2_block_length. reflexivity.
Qed.

Lemma DeriveEncryptionKey_length cm : length (DeriveEncryptionKey cm) = 32%nat.
Proof. apply PBKDF2_Key_32_length. Qed.

Lemma DeriveSerialKey_length cm : length (DeriveSerialKey cm) = 32%nat.
Proof. apply PBKDF2_Key_32_length. Qed.

(** The derivation runs 10000 rounds of HMAC; from here on the derived keys
    are used through their length only. *)
#[global] Opaque PBKDF2.Key.

Lemma aes_NewCipher_derived cm :
  aes_NewCipher (DeriveEncryptionKey cm) = Ok (DeriveEncryptionKey cm).
Proof.
  unfold aes_NewCipher. rewrite bool_decide_eq_true_2; [reflexivity|].
  rewrite DeriveEncryptionKey_length. auto.
Qed.

Lemma rand_bytes_length w n : length (rand_bytes w n) = n.
Proof. unfold rand_bytes. now rewrite length_map, length_seq. Qed.

#[local] Arguments rand_bytes : simpl never.
#[local] Arguments rand_consume : simpl never.
#[local] Arguments write_file : simpl never.

(** ** Key derivation *)

Lemma Ok_pair_inv {E A S : Type} (a b : A) (s s' : S) :
  (Ok (E:=E) a, s) = (Ok b, s') -> a = b /\ s = s'.
Proof. intros H. split; congruence. Qed.

Lemma getMasterKey_spec w :
  getMasterKey w =
    match environ w !! "LICENSE_MASTER_KEY"%string with
    | Some envKey =>
        if decide (envKey = EmptyString) then (Err MissingMasterKey, w)
        else (Ok (SHA256.Sum256 (Bytes.of_string envKey)), w)
    | None => (Err MissingMasterKey, w)
    end.
Proof.
  unfold getMasterKey, mbind, M_bind, os_Getenv, fail, mret, M_ret.
  destruct (environ w !! "LICENSE_MASTER_KEY"%string) as [envKey|];
    unfold default; cbn [from_option id].
  - destruct (decide (envKey = EmptyString)); reflexivity.
  - reflexivity.
Qed.

Lemma NewCryptoManager_Ok w cm w' :
  NewCryptoManager w = (Ok cm, w') ->
  exists envKey,
    environ w !! "LICENSE_MASTER_KEY"%string = Some envKey
    /\ envKey <> EmptyString
    /\ masterKey cm = SHA256.Sum256 (Bytes.of_string envKey).
Proof.
  unfold NewCryptoManager, mbind, M_bind. rewrite getMasterKey_spec.
  destruct (environ w !! "LICENSE_MASTER_KEY"%string) as [envKey|]; [|discriminate].
  destruct (decide (envKey = EmptyString)) as [->|Hne]; [discriminate|].
  rewrite decide_False by (rewrite Sum256_length; auto).
  unfold mret, M_ret. intros [<- _]%Ok_pair_inv. exists envKey. auto.
Qed.

(** ** The envelope *)

Section Envelope.
Context `{!AEAD}.

(** Round trip of the envelope: what is sealed under the manager's key, with
    any nonce of the cipher's size, opens to the plaintext. *)
Lemma Decrypt_envelope cm nonce data :
  length nonce = 12%nat ->
  Decrypt cm (nonce ++ gcm_Seal (DeriveEncryptionKey cm) nonce data) = Ok data.
Proof.
  intros Hn. unfold Decrypt. rewrite aes_NewCipher_derived.
  unfold gcm_NonceSize.
  assert (Hlen : (length (nonce ++ gcm_Seal (DeriveEncryptionKey cm) nonce data) <? 12)%nat = false).
  { apply Nat.ltb_ge. rewrite length_app. lia. }
  rewrite Hlen.
  rewrite <- Hn at 1. rewrite take_app_length.
  rewrite <- Hn at 1. rewrite drop_app_length.
  rewrite gcm_Open_Seal; auto using DeriveEncryptionKey_length.
Qed.

Lemma Encrypt_spec cm data w :
  Encrypt cm data w =
    (Ok (rand_bytes w 12 ++ gcm_Seal (DeriveEncryptionKey cm) (rand_bytes w 12) data),
     rand_consume w 12).
Proof.
  unfold Encrypt, mbind, M_bind, lift. rewrite aes_NewCipher_derived.
  reflexivity.
Qed.

(** What [Encrypt] returns, [Decrypt] opens, whatever the random source. *)
Lemma Decrypt_Encrypt cm data w envelope w' :
  Encrypt cm data w = (Ok envelope, w') -> Decrypt cm envelope = Ok data.
Proof.
  rewrite Encrypt_spec. intros [<- _]%Ok_pair_inv.
  apply Decrypt_envelope, rand_bytes_length.
Qed.


End Envelope.

(** ** Serial binding *)

Lemma upper_hex_digit_hi (b : byte) :
  is_upper_hex (upper (Bytes.hex_digit (Z.shiftr (Bytes.to_Z b) 4))) = true.
Proof. destruct b; vm_compute; reflexivity. Qed.

Lemma upper_hex_digit_lo (b : byte) :
  is_upper_hex (upper (Bytes.hex_digit (Z.land (Bytes.to_Z b) 15))) = true.
Proof. destruct b; vm_compute; reflexivity. Qed.

Lemma group_by_five_length hash :
  length hash = 16%nat ->
  String.length (group_by_five 0 (Bytes.hex_EncodeToString hash) EmptyString) = 38%nat.
Proof.
  intros H.
  do 16 (destruct hash as [|? hash]; [discriminate H|]).
  destruct hash; [|discriminate H].
  reflexivity.
Qed.

Lemma serial_of_digest_format hash :
  length hash = 16%nat ->
  exists g1 g2 g3 g4 : string,
    serial_of_digest hash = g1 +:+ "-" +:+ g2 +:+ "-" +:+ g3 +:+ "-" +:+ g4
    /\ String.length g1 = 5%nat /\ String.length g2 = 5%nat
    /\ String.length g3 = 5%nat /\ String.length g4 = 5%nat
    /\ all_upper_hex g1 = true /\ all_upper_hex g2 = true
    /\ all_upper_hex g3 = true /\ all_upper_hex g4 = true.
Proof.
  intros H.
  do 16 (destruct hash as [|? hash]; [discriminate H|]).
  destruct hash; [|discriminate H].
  set (s := serial_of_digest _).
  exists (substring 0 5 s), (substring 6 5 s), (substring 12 5 s), (substring 18 5 s).
  subst s. unfold serial_of_digest.
  cbv [Bytes.hex_EncodeToString group_by_five Nat.ltb Nat.leb Nat.eqb Nat.modulo
       Nat.divmod andb String.append fst snd Nat.sub substring strings_ToUpper
       String.length all_upper_hex].
  change (upper "-") with "-"%char.
  rewrite !upper_hex_digit_hi, !upper_hex_digit_lo.
  repeat split; reflexivity.
Qed.

Lemma GenerateSerial_digest cm pcId productName maxDays :
  GenerateSerial cm pcId productName maxDays =
    serial_of_digest
      (MD5.Sum (Bytes.of_string
         (serial_data pcId productName maxDays
            (Bytes.hex_EncodeToString (DeriveSerialKey cm))))).
Proof. reflexivity. Qed.

(** The slice [serial[:23]] is in range: the string built by the loop has 38
    characters. *)
Lemma GenerateSerial_in_range cm pcId productName maxDays :
  String.length
    (group_by_five 0
       (Bytes.hex_EncodeToString
          (MD5.Sum (Bytes.of_string
             (serial_data pcId productName maxDays
                (Bytes.hex_EncodeToString (DeriveSerialKey cm))))))
       EmptyString) = 38%nat.
Proof. apply group_by_five_length, MD5_Sum_length. Qed.

Lemma serial_of_digest_length hash :
  length hash = 16%nat -> String.length (serial_of_digest hash) = 23%nat.
Proof.
  intros H.
  do 16 (destruct hash as [|? hash]; [discriminate H|]).
  destruct hash; [|discriminate H].
  reflexivity.
Qed.

Lemma GenerateSerial_length cm pcId productName maxDays :
  String.length (GenerateSerial cm pcId productName maxDays) = 23%nat.
Proof. rewrite GenerateSerial_digest. apply serial_of_digest_length, MD5_Sum_length. Qed.

(** A string of known length, character by character. *)
Ltac explode_string g H :=
  do 5 (destruct g as [|? g]; [discriminate H|]);
  destruct g; [|discriminate H].

(** ** The reference implementations satisfy the interfaces *)

Lemma ref_Open_Seal key nonce plaintext :
  length key = 32%nat -> length nonce = 12%nat ->
  ref_Open key nonce (ref_Seal key nonce plaintext) = Some plaintext.
Proof.
  intros _ _. unfold ref_Open, ref_Seal.
  assert (Hn : (length (plaintext ++ ref_tag) - 16)%nat = length plaintext).
  { rewrite length_app. unfold ref_tag. rewrite repeat_length. lia. }
  rewrite Hn, drop_app_length, take_app_length.
  rewrite bool_decide_eq_true_2; [reflexivity|].
  split; [reflexivity|]. rewrite length_app. unfold ref_tag. rewrite repeat_length. lia.
Qed.

Definition ref_AEAD : AEAD := Build_AEAD ref_Seal ref_Open ref_Open_Seal.

Lemma positive_of_bytes_of_positive p :
  positive_of_bytes (bytes_of_positive p) = Some p.
Proof. induction p as [p IH|p IH|]; simpl; rewrite ?IH; reflexivity. Qed.

Lemma License_of_to_fields l : License_of_fields (License_to_fields l) = l.
Proof. destruct l as [? ? ? [? ?] ? ? ? ? ? ? ? ?]. reflexivity. Qed.

Lemma ref_Unmarshal_Marshal l : ref_Unmarshal (ref_Marshal l) = Some (omitempty l).
Proof.
  unfold ref_Unmarshal, ref_Marshal.
  rewrite positive_of_bytes_of_positive, decode_encode.
  cbn [fmap option_fmap option_map]. now rewrite License_of_to_fields.
Qed.

Definition ref_JSON : JSON := Build_JSON ref_Marshal ref_Unmarshal ref_Unmarshal_Marshal.


(** ** The record store *)

Section Store.
Context `{!AEAD, !JSON}.

Lemma saveLicense_spec m l filename w :
  saveLicense m l filename w = (Ok tt, saved m l filename w).
Proof.
  unfold saveLicense, mbind, M_bind, wrap_err. rewrite Encrypt_spec. reflexivity.
Qed.

Lemma stored_envelope m l filename w nonce :
  length nonce = 12%nat ->
  files w !! filename
    = Some (nonce ++ gcm_Seal (DeriveEncryptionKey (crypto m)) nonce
                       (json_MarshalIndent l)) ->
  stored m w filename (omitempty l).
Proof.
  intros Hn Hf. eexists _, _. split; [exact Hf|]. split.
  - apply Decrypt_envelope, Hn.
  - apply json_Unmarshal_Marshal.
Qed.

Lemma stored_saved m l filename w :
  stored m (saved m l filename w) filename (omitempty l).
Proof.
  apply (stored_envelope _ _ _ _ (rand_bytes w 12)); [apply rand_bytes_length|].
  unfold saved, write_file. cbn [files]. apply lookup_insert_eq.
Qed.

(** What [readAndVerifyLicense] does on a file that holds a record. *)
Lemma readAndVerifyLicense_stored m filename currentPcId now w l :
  stored m w filename l ->
  readAndVerifyLicense m filename currentPcId now w =
    if decide (PCId l <> currentPcId) then (Err WrongMachine, w)
    else if decide (Serial l <> GenerateSerial (crypto m) currentPcId
                                 (ProductName l) (MaxDays l))
    then (Err InvalidSerial, w)
    else match update_usage l (Format now RFC3339) (Format now DateOnly) with
         | SameInstant l' => (Ok l', saved m l' filename w)
         | Rollback => (Err ClockRollbackDetected, w)
         | Updated l' =>
             if expired l'
             then (Err (LicenseExpired (Z.of_nat (length (UsageHistory l')))
                          (MaxDays l')), w)
             else (Ok l', saved m l' filename w)
         end.
Proof.
  intros (envelope & data & Hf & Hd & Hu).
  unfold readAndVerifyLicense, mbind, M_bind, os_Stat, os_ReadFile, wrap_err, lift, fail.
  rewrite bool_decide_eq_true_2 by (rewrite Hf; eauto). cbn [negb].
  rewrite Hf, Hd, Hu.
  destruct (decide (PCId l <> currentPcId)); [reflexivity|].
  destruct (decide (Serial l <> _)); [reflexivity|].
  destruct (update_usage l _ _) as [l'| |l']; try reflexivity.
  - rewrite saveLicense_spec. reflexivity.
  - unfold expired. destruct (negb (IsLifetime l') && _); [reflexivity|].
    rewrite saveLicense_spec. reflexivity.
Qed.

Lemma readAndVerifyLicense_missing m filename currentPcId now w :
  files w !! filename = None ->
  readAndVerifyLicense m filename currentPcId now w = (Err NoSuchLicense, w).
Proof.
  intros Hf. unfold readAndVerifyLicense, mbind, M_bind, os_Stat.
  rewrite Hf. rewrite bool_decide_eq_false_2; [reflexivity|].
  intros [? ?]; discriminate.
Qed.

End Store.

Lemma PCId_omitempty l : PCId (omitempty l) = PCId l.
Proof.
  unfold omitempty. destruct (UsageMap l) as [usageMap|]; [|reflexivity].
  destruct (decide (usageMap = ∅)); reflexivity.
Qed.

(** ** Timestamps *)

Lemma ltb_neq (s t : string) : String.ltb s t = true -> s <> t.
Proof.
  unfold String.ltb. intros H ->.
  pose proof (String.compare_antisym t t) as Hc.
  destruct (t ?= t)%string; discriminate.
Qed.

Lemma ltb_asym (s t : string) : String.ltb s t = true -> String.ltb t s = false.
Proof.
  unfold String.ltb. rewrite (String.compare_antisym t s).
  destruct (s ?= t)%string; simpl; congruence.
Qed.

Lemma ltb_nonempty (s t : string) : String.ltb s t = true -> t <> EmptyString.
Proof. intros H ->. destruct s; discriminate H. Qed.

(** ** The usage map *)

Lemma rebuild_UsageMap_snoc h d :
  rebuild_UsageMap (h ++ [d]) = <[d := true]> (rebuild_UsageMap h).
Proof. unfold rebuild_UsageMap. rewrite foldl_app. reflexivity. Qed.

Lemma lookup_rebuild_UsageMap h d :
  rebuild_UsageMap h !! d = if decide (d ∈ h) then Some true else None.
Proof.
  induction h as [|x h IH] using rev_ind.
  - rewrite decide_False by apply not_elem_of_nil. apply lookup_empty.
  - rewrite rebuild_UsageMap_snoc. destruct (decide (x = d)) as [->|Hne].
    + rewrite lookup_insert_eq, decide_True; [reflexivity|].
      apply elem_of_app. right. apply list_elem_of_singleton. reflexivity.
    + rewrite lookup_insert_ne by exact Hne. rewrite IH.
      destruct (decide (d ∈ h)) as [Hin|Hin].
      * rewrite decide_True; [reflexivity|]. apply elem_of_app. now left.
      * rewrite decide_False; [reflexivity|].
        rewrite elem_of_app, list_elem_of_singleton. intros [?|?]; congruence.
Qed.

Lemma size_rebuild_UsageMap h :
  NoDup h -> size (rebuild_UsageMap h) = length h.
Proof.
  induction h as [|x h IH] using rev_ind; intros Hnd.
  - apply map_size_empty.
  - apply NoDup_app in Hnd as (Hh & Hx & _).
    rewrite rebuild_UsageMap_snoc, map_size_insert_None.
    + rewrite IH by exact Hh. rewrite length_app. simpl. lia.
    + rewrite lookup_rebuild_UsageMap, decide_False; [reflexivity|].
      intros Hin. apply (Hx x Hin). apply list_elem_of_singleton. reflexivity.
Qed.

Lemma rebuild_UsageMap_singleton d :
  rebuild_UsageMap [d] = {[ d := true ]}.
Proof. unfold rebuild_UsageMap. simpl. apply insert_empty. Qed.

Lemma holds_exactly_rebuild h : holds_exactly h (rebuild_UsageMap h).
Proof. intros d. apply lookup_rebuild_UsageMap. Qed.

Lemma holds_exactly_eq h usageMap :
  holds_exactly h usageMap -> usageMap = rebuild_UsageMap h.
Proof. intros H. apply map_eq. intros d. now rewrite H, lookup_rebuild_UsageMap. Qed.

Lemma usage_invariant_sizes l : usage_invariant l -> usage_sizes_agree l.
Proof.
  intros [Hnd Hs] usageMap Hm. unfold synced in Hs. rewrite Hm in Hs.
  apply holds_exactly_eq in Hs. subst usageMap.
  apply size_rebuild_UsageMap, Hnd.
Qed.

Lemma usage_invariant_omitempty l : usage_invariant l -> usage_invariant (omitempty l).
Proof.
  intros [Hnd Hs]. unfold omitempty. destruct (UsageMap l) as [usageMap|] eqn:Hm.
  - destruct (decide (usageMap = ∅)); [|split; assumption].
    split; [exact Hnd|exact I].
  - split; assumption.
Qed.

Lemma NoDup_snoc (h : list string) (d : string) : NoDup h -> d ∉ h -> NoDup (h ++ [d]).
Proof.
  intros Hnd Hd. apply NoDup_app. split; [exact Hnd|]. split; [|apply NoDup_singleton].
  intros x Hx ->%list_elem_of_singleton. exact (Hd Hx).
Qed.

(** ** The usage update *)

(** Reduction of the record fields and their assignments, and nothing else. *)
Ltac fields :=
  cbn [Serial PCId ProductName CreatedAt MaxDays IsLifetime LastUsedDate
       FirstRunDate RunCount IsActivated UsageHistory UsageMap set_IsActivated
       set_FirstRunDate set_LastUsedDate set_RunCount set_UsageHistory
       set_UsageMap negb] in *.

Lemma update_usage_activate l nowRFC3339 today :
  IsActivated l = false ->
  update_usage l nowRFC3339 today = Updated (activate l nowRFC3339 today).
Proof. intros H. unfold update_usage. rewrite H. reflexivity. Qed.

Lemma record_usage_synced l nowRFC3339 today :
  synced l ->
  record_usage l nowRFC3339 today =
    mkLicense (Serial l) (PCId l) (ProductName l) (CreatedAt l) (MaxDays l)
      (IsLifetime l) nowRFC3339 (FirstRunDate l) (RunCount l) (IsActivated l)
      (if decide (today ∈ UsageHistory l) then UsageHistory l
       else UsageHistory l ++ [today])
      (Some (rebuild_UsageMap
               (if decide (today ∈ UsageHistory l) then UsageHistory l
                else UsageHistory l ++ [today]))).
Proof.
  intros Hs. unfold record_usage, synced in *.
  destruct l as [s p pn c md lt lu fr rc act h um]. fields.
  destruct um as [usageMap|]; fields.
  - apply holds_exactly_eq in Hs. subst usageMap. rewrite lookup_rebuild_UsageMap.
    destruct (decide (today ∈ h)); cbn [default from_option id negb]; fields;
      [reflexivity|].
    rewrite rebuild_UsageMap_snoc. reflexivity.
  - rewrite lookup_rebuild_UsageMap.
    destruct (decide (today ∈ h)); cbn [default from_option id negb]; fields;
      [reflexivity|].
    rewrite rebuild_UsageMap_snoc. reflexivity.
Qed.

Lemma update_usage_later l nowRFC3339 today :
  IsActivated l = true -> synced l ->
  String.ltb (LastUsedDate l) nowRFC3339 = true ->
  update_usage l nowRFC3339 today = Updated (later_run l nowRFC3339 today).
Proof.
  intros Hact Hs Hlt. unfold update_usage. rewrite Hact. cbn [negb].
  cbn [LastUsedDate set_RunCount].
  rewrite (bool_decide_eq_false_2 (LastUsedDate l = nowRFC3339))
    by (apply ltb_neq, Hlt).
  rewrite (ltb_asym _ _ Hlt).
  assert (Hrec : record_usage (set_RunCount (Int.add (RunCount l) 1) l)
                   nowRFC3339 today = later_run l nowRFC3339 today).
  { rewrite record_usage_synced by exact Hs. fields. rewrite Hact. reflexivity. }
  rewrite Hrec. destruct (bool_decide (LastUsedDate l <> EmptyString)); reflexivity.
Qed.

(** A run at the very instant of the last use. *)
Lemma update_usage_same_instant l nowRFC3339 today :
  IsActivated l = true -> LastUsedDate l = nowRFC3339 ->
  nowRFC3339 <> EmptyString ->
  update_usage l nowRFC3339 today
    = SameInstant (set_RunCount (Int.add (RunCount l) 1) l).
Proof.
  intros Hact Hl Hne. unfold update_usage. rewrite Hact. cbn [negb].
  cbn [LastUsedDate set_RunCount]. rewrite Hl.
  rewrite bool_decide_eq_true_2 by exact Hne.
  rewrite bool_decide_eq_true_2 by reflexivity. reflexivity.
Qed.

(** A run with the clock before the last use. *)
Lemma update_usage_rollback l nowRFC3339 today :
  IsActivated l = true ->
  String.ltb nowRFC3339 (LastUsedDate l) = true ->
  update_usage l nowRFC3339 today = Rollback.
Proof.
  intros Hact Hlt. unfold update_usage. rewrite Hact. cbn [negb].
  cbn [LastUsedDate set_RunCount].
  rewrite (bool_decide_eq_true_2 (LastUsedDate l <> EmptyString))
    by (eapply ltb_nonempty, Hlt).
  rewrite bool_decide_eq_false_2
    by (intros Heq; apply (ltb_neq _ _ Hlt); congruence).
  rewrite Hlt. reflexivity.
Qed.

Lemma usage_invariant_record l nowRFC3339 today :
  usage_invariant l -> usage_invariant (record_usage l nowRFC3339 today).
Proof.
  intros [Hnd Hs]. rewrite record_usage_synced by exact Hs.
  split; unfold synced; fields.
  - destruct (decide (today ∈ UsageHistory l)); [exact Hnd|].
    apply NoDup_snoc; assumption.
  - apply holds_exactly_rebuild.
Qed.

Lemma usage_invariant_update l nowRFC3339 today :
  usage_invariant l ->
  match update_usage l nowRFC3339 today with
  | SameInstant l' | Updated l' => usage_invariant l'
  | Rollback => True
  end.
Proof.
  intros Hinv. unfold update_usage.
  assert (Hrun : forall rc, usage_invariant (set_RunCount rc l))
    by (intros rc; exact Hinv).
  destruct (IsActivated l); cbn [negb].
  - destruct (bool_decide _).
    + destruct (bool_decide _); [apply Hrun|].
      destruct (String.ltb _ _); [exact I|]. apply usage_invariant_record, Hrun.
    + apply usage_invariant_record, Hrun.
  - split; unfold synced; fields; [apply NoDup_singleton|].
    rewrite <- rebuild_UsageMap_singleton. apply holds_exactly_rebuild.
Qed.

(** ** License file paths and the operations *)

Lemma GetLicenseFilePathForProduct_world c productName w :
  snd (GetLicenseFilePathForProduct c productName w) = w.
Proof.
  unfold GetLicenseFilePathForProduct, mbind, M_bind, os_Getenv, os_Getwd, mret, M_ret.
  destruct (decide (default EmptyString (environ w !! "LICENSE_DIR"%string) <> EmptyString));
    [reflexivity|].
  destruct (cwd w); reflexivity.
Qed.

Lemma GetLicenseFilePathForProduct_env c c' productName w w' :
  environ w' = environ w -> cwd w' = cwd w ->
  fst (GetLicenseFilePathForProduct c' productName w')
    = fst (GetLicenseFilePathForProduct c productName w).
Proof.
  intros He Hc.
  unfold GetLicenseFilePathForProduct, mbind, M_bind, os_Getenv, os_Getwd, mret, M_ret.
  rewrite He.
  destruct (decide (default EmptyString (environ w !! "LICENSE_DIR"%string) <> EmptyString));
    [reflexivity|].
  rewrite Hc. destruct (cwd w); reflexivity.
Qed.

Lemma license_path_env m m' productName w w' path :
  environ w' = environ w -> cwd w' = cwd w ->
  license_path m productName w path -> license_path m' productName w' path.
Proof.
  intros He Hc Hp. unfold license_path in *.
  pose proof (GetLicenseFilePathForProduct_world (config m') productName w') as Hw.
  pose proof (GetLicenseFilePathForProduct_env (config m) (config m') productName w w' He Hc) as Hr.
  rewrite Hp in Hr. cbn [fst] in Hr.
  destruct (GetLicenseFilePathForProduct (config m') productName w') as [r w''].
  cbn [fst snd] in *. congruence.
Qed.

Lemma license_path_revoked m productName w path file :
  license_path m productName w path ->
  license_path m productName (revoked file w) path.
Proof. apply license_path_env; reflexivity. Qed.

Section Operations.
Context `{!AEAD, !JSON}.

Lemma license_path_saved m m' l filename productName w path :
  license_path m productName w path ->
  license_path m' productName (saved m l filename w) path.
Proof. apply license_path_env; reflexivity. Qed.

Lemma Create_spec m req now w path :
  license_path m (req_ProductName req) w path ->
  Create m req now w =
    if bool_decide (is_Some (files w !! path)) then (Err AlreadyExists, w)
    else (Ok (fresh_license m req now), saved m (fresh_license m req now) path w).
Proof.
  intros Hp. unfold Create, mbind, M_bind. unfold license_path in Hp. rewrite Hp.
  unfold os_Stat. destruct (bool_decide (is_Some (files w !! path))); [reflexivity|].
  rewrite saveLicense_spec. reflexivity.
Qed.

Lemma Create_Ok m req now w l w' path :
  license_path m (req_ProductName req) w path ->
  Create m req now w = (Ok l, w') ->
  files w !! path = None
  /\ l = fresh_license m req now /\ w' = saved m l path w.
Proof.
  intros Hp. rewrite (Create_spec _ _ _ _ _ Hp).
  destruct (bool_decide (is_Some (files w !! path))) eqn:Hb; [discriminate|].
  intros [<- <-]%Ok_pair_inv. split; [|split; reflexivity].
  apply bool_decide_eq_false_1 in Hb. destruct (files w !! path); [|reflexivity].
  exfalso. apply Hb. eauto.
Qed.

Lemma Create_path_error m req now w e w0 :
  GetLicenseFilePathForProduct (config m) (req_ProductName req) w = (Err e, w0) ->
  Create m req now w = (Err e, w0).
Proof. intros Hg. unfold Create, mbind, M_bind. rewrite Hg. reflexivity. Qed.

Lemma Create_path m req now w l w' :
  Create m req now w = (Ok l, w') ->
  exists path, license_path m (req_ProductName req) w path.
Proof.
  intros Hc. unfold license_path.
  pose proof (GetLicenseFilePathForProduct_world (config m) (req_ProductName req) w) as Hw.
  destruct (GetLicenseFilePathForProduct (config m) (req_ProductName req) w)
    as [[path|e] w0] eqn:Hg.
  - cbn [snd] in Hw. subst w0. exists path. reflexivity.
  - rewrite (Create_path_error _ _ _ _ _ _ Hg) in Hc. discriminate Hc.
Qed.

Lemma Validate_spec m productName now w path :
  license_path m productName w path ->
  Validate m productName now w =
    match readAndVerifyLicense m path (PCID m) now w with
    | (Err e, w') => (mkValidationResult false None (Some e), w')
    | (Ok license, w') => (mkValidationResult true (Some license) None, w')
    end.
Proof. intros Hp. unfold Validate. unfold license_path in Hp. rewrite Hp. reflexivity. Qed.

Lemma View_spec m productName w path :
  license_path m productName w path ->
  View m productName w =
    match files w !! path with
    | None => (Err ReadFailed, w)
    | Some envelope =>
        match Decrypt (crypto m) envelope with
        | Err e => (Err (CorruptOrRevoked e), w)
        | Ok data =>
            match json_Unmarshal data with
            | None => (Err MalformedRecord, w)
            | Some license =>
                if decide (PCId license <> PCID m) then (Err WrongMachine, w)
                else (Ok license, w)
            end
        end
    end.
Proof.
  intros Hp. unfold View, mbind, M_bind. unfold license_path in Hp. rewrite Hp.
  unfold os_ReadFile, wrap_err, lift, fail. destruct (files w !! path); [|reflexivity].
  destruct (Decrypt (crypto m) l); [|reflexivity].
  destruct (json_Unmarshal a); [|reflexivity].
  destruct (decide (PCId l0 <> PCID m)); reflexivity.
Qed.

Lemma View_stored m productName w path l :
  license_path m productName w path ->
  stored m w path l ->
  View m productName w
    = (if decide (PCId l = PCID m) then Ok l else Err WrongMachine, w).
Proof.
  intros Hp (e & d & Hf & Hd & Hu). rewrite (View_spec _ _ _ _ Hp), Hf, Hd, Hu.
  destruct (decide (PCId l <> PCID m)) as [Hne|Heq].
  - rewrite decide_False by exact Hne. reflexivity.
  - rewrite decide_True; [reflexivity|]. destruct (decide (PCId l = PCID m)); tauto.
Qed.

End Operations.

Lemma usage_invariant_fresh m req now : usage_invariant (fresh_license m req now).
Proof.
  split; [apply NoDup_nil_2|].
  intros d. cbn [UsageHistory fresh_license].
  rewrite decide_False by apply not_elem_of_nil. apply lookup_empty.
Qed.

Lemma Revoke_spec m productName w path :
  license_path m productName w path ->
  Revoke m productName w =
    if bool_decide (is_Some (files w !! path)) then (Ok tt, revoked path w)
    else (Err NoSuchLicense, w).
Proof.
  intros Hp. unfold Revoke, mbind, M_bind. unfold license_path in Hp. rewrite Hp.
  unfold os_Stat. destruct (bool_decide (is_Some (files w !! path))); reflexivity.
Qed.

Lemma files_revoked path w : files (revoked path w) !! path = Some (rand_bytes w 1024).
Proof. unfold revoked, write_file. cbn [files]. apply lookup_insert_eq. Qed.


(** ** Later runs *)

Lemma Int_add_1 x : Int.min <= x < Int.max -> Int.add x 1 = x + 1.
Proof.
  unfold Int.add, Int.wrap, Int.min, Int.max. intros Hx.
  rewrite Z.mod_small by lia. lia.
Qed.

Lemma omitempty_later_run l nowRFC3339 today :
  omitempty (later_run l nowRFC3339 today) = later_run l nowRFC3339 today.
Proof.
  unfold omitempty, later_run. cbn [UsageMap].
  destruct (decide (today ∈ UsageHistory l)) as [Hin|Hin].
  - rewrite decide_False; [reflexivity|]. intros Hempty.
    pose proof (lookup_rebuild_UsageMap (UsageHistory l) today) as Hl.
    rewrite Hempty, lookup_empty, decide_True in Hl by exact Hin. discriminate.
  - rewrite rebuild_UsageMap_snoc, decide_False; [reflexivity|].
    apply insert_non_empty.
Qed.

Lemma omitempty_activate l nowRFC3339 today :
  omitempty (activate l nowRFC3339 today) = activate l nowRFC3339 today.
Proof.
  unfold omitempty, activate. cbn [UsageMap].
  rewrite decide_False; [reflexivity|].
  rewrite <- insert_empty. apply insert_non_empty.
Qed.

Lemma expired_later_run l nowRFC3339 today :
  IsLifetime l = false ->
  today ∉ UsageHistory l ->
  expired (later_run l nowRFC3339 today)
    = (MaxDays l <? Z.of_nat (length (UsageHistory l)) + 1).
Proof.
  intros Hlt Hnin. unfold expired, later_run. cbn [IsLifetime MaxDays UsageHistory].
  rewrite Hlt, decide_False by exact Hnin. rewrite length_app. cbn [negb andb length].
  f_equal. lia.
Qed.

Section LaterRuns.
Context `{!AEAD, !JSON}.

(** A run after the last use, on a record in step with its map. *)
Lemma readAndVerifyLicense_later m filename currentPcId now w l :
  stored m w filename l ->
  accepted m currentPcId l ->
  IsActivated l = true ->
  synced l ->
  String.ltb (LastUsedDate l) (Format now RFC3339) = true ->
  let l' := later_run l (Format now RFC3339) (Format now DateOnly) in
  readAndVerifyLicense m filename currentPcId now w =
    if expired l'
    then (Err (LicenseExpired (Z.of_nat (length (UsageHistory l'))) (MaxDays l')), w)
    else (Ok l', saved m l' filename w).
Proof.
  intros Hst [Hpc Hser] Hact Hs Hlt l'.
  rewrite (readAndVerifyLicense_stored _ _ _ _ _ _ Hst).
  rewrite decide_False by (intros Hne; apply Hne, Hpc).
  rewrite decide_False by (intros Hne; apply Hne, Hser).
  rewrite update_usage_later by assumption. reflexivity.
Qed.

Lemma readAndVerifyLicense_first m filename currentPcId now w l :
  stored m w filename l ->
  accepted m currentPcId l ->
  IsActivated l = false ->
  let l' := activate l (Format now RFC3339) (Format now DateOnly) in
  readAndVerifyLicense m filename currentPcId now w =
    if expired l'
    then (Err (LicenseExpired 1 (MaxDays l)), w)
    else (Ok l', saved m l' filename w).
Proof.
  intros Hst [Hpc Hser] Hact l'.
  rewrite (readAndVerifyLicense_stored _ _ _ _ _ _ Hst).
  rewrite decide_False by (intros Hne; apply Hne, Hpc).
  rewrite decide_False by (intros Hne; apply Hne, Hser).
  rewrite update_usage_activate by assumption. reflexivity.
Qed.

Lemma stored_saved_later m l nowRFC3339 today filename w :
  stored m (saved m (later_run l nowRFC3339 today) filename w) filename
    (later_run l nowRFC3339 today).
Proof. rewrite <- omitempty_later_run at 2. apply stored_saved. Qed.

Lemma stored_saved_activate m l nowRFC3339 today filename w :
  stored m (saved m (activate l nowRFC3339 today) filename w) filename
    (activate l nowRFC3339 today).
Proof. rewrite <- omitempty_activate at 2. apply stored_saved. Qed.

(** From an activated record with [k] of its [N] days used, the next
    [N - k] new days are accepted and the one after is refused. *)
Lemma validate_each_active m filename currentPcId :
  forall (rest : list Time) (w : World) (l : License),
    stored m w filename l ->
    accepted m currentPcId l ->
    IsActivated l = true ->
    IsLifetime l = false ->
    synced l ->
    Z.of_nat (length (UsageHistory l)) <= MaxDays l ->
    increasing (LastUsedDate l) rest ->
    NoDup (UsageHistory l ++ days rest) ->
    Z.of_nat (length (UsageHistory l)) + Z.of_nat (length rest) = MaxDays l + 1 ->
    exists ls : list License,
      fst (validate_each m filename currentPcId rest w)
        = map Ok ls ++ [Err (LicenseExpired (MaxDays l + 1) (MaxDays l))]
      /\ Z.of_nat (length (UsageHistory l)) + Z.of_nat (length ls) = MaxDays l
      /\ forall i l_i, ls !! i = Some l_i ->
           UsageHistory l_i = UsageHistory l ++ take (S i) (days rest).
Proof.
  induction rest as [|now rest IH]; intros w l Hst Hacc Hact Hlife Hs Hle Hinc Hnd Hlen.
  - cbn [length] in Hlen. lia.
  - destruct Hinc as [Hlt Hinc].
    assert (Hnin : Format now DateOnly ∉ UsageHistory l).
    { apply NoDup_app in Hnd as (_ & Hd & _). intros Hin. apply (Hd _ Hin).
      unfold days. cbn [map]. apply list_elem_of_here. }
    pose proof (readAndVerifyLicense_later _ _ _ _ _ _ Hst Hacc Hact Hs Hlt) as Hr.
    cbv zeta in Hr. rewrite expired_later_run in Hr by assumption.
    set (l' := later_run l (Format now RFC3339) (Format now DateOnly)) in *.
    assert (Hh' : UsageHistory l' = UsageHistory l ++ [Format now DateOnly]).
    { unfold l', later_run. cbn [UsageHistory]. now rewrite decide_False. }
    cbn [validate_each]. rewrite Hr.
    destruct (MaxDays l <? Z.of_nat (length (UsageHistory l)) + 1) eqn:Hfull.
    + (* the term is used up: this call is the refused one *)
      apply Z.ltb_lt in Hfull.
      assert (rest = []) as -> by (destruct rest; [reflexivity|cbn [length] in Hlen; lia]).
      exists []. cbn [validate_each fst map app length].
      rewrite Hh', length_app. cbn [length].
      replace (Z.of_nat (length (UsageHistory l) + 1)) with (MaxDays l + 1) by lia.
      cbn [MaxDays l' later_run].
      split; [reflexivity|]. split; [lia|]. intros i l_i Hi. discriminate Hi.
    + apply Z.ltb_ge in Hfull.
      destruct (IH (saved m l' filename w) l') as (ls & Hres & Hcount & Hhist).
      * apply stored_saved_later.
      * exact Hacc.
      * reflexivity.
      * exact Hlife.
      * unfold synced, l', later_run. cbn [UsageMap UsageHistory].
        apply holds_exactly_rebuild.
      * rewrite Hh', length_app. cbn [length MaxDays l' later_run]. lia.
      * exact Hinc.
      * rewrite Hh', <- app_assoc. exact Hnd.
      * rewrite Hh', length_app. cbn [length MaxDays l' later_run] in *. lia.
      * exists (l' :: ls).
        destruct (validate_each m filename currentPcId rest (saved m l' filename w))
          as [rs w''].
        cbn [fst] in *. rewrite Hres. split; [reflexivity|].
        split.
        { rewrite Hh', length_app in Hcount. cbn [length MaxDays l' later_run] in *. lia. }
        intros [|i] l_i Hi.
        { cbn in Hi. injection Hi as <-. rewrite Hh'. reflexivity. }
        cbn [lookup list_lookup] in Hi. rewrite (Hhist i l_i Hi), Hh', <- app_assoc.
        reflexivity.
Qed.

End LaterRuns.

(** ** The sample world

    The manager of machine [pc-1] with the master key of the test suite, a
    license directory, and records of the product [Acme] sealed with the
    reference implementations. *)

(** [ex_world] with the record [l] saved as the license of [Acme]. *)
Definition ex_world_with (l : License) : World :=
  @saved ref_AEAD ref_JSON ex_manager l ex_path ex_world.

Lemma ex_license_path : license_path ex_manager "Acme" ex_world ex_path.
Proof. vm_compute. reflexivity. Qed.

Lemma ex_license_path_with l : license_path ex_manager "Acme" (ex_world_with l) ex_path.
Proof. apply (@license_path_saved ref_AEAD ref_JSON), ex_license_path. Qed.

Lemma ex_license_path_junk : license_path ex_manager "Acme" ex_world_junk ex_path.
Proof. apply (license_path_env ex_manager _ _ ex_world); [reflexivity..|apply ex_license_path]. Qed.






Lemma ex_stored l :
  UsageMap l = None ->
  @stored ref_AEAD ref_JSON ex_manager (ex_world_with l) ex_path l.
Proof.
  intros Hm. pose proof (@stored_saved ref_AEAD ref_JSON ex_manager l ex_path ex_world) as H.
  unfold omitempty in H. rewrite Hm in H. exact H.
Qed.

Lemma ex_accepted_active : accepted ex_manager "pc-1" ex_active.
Proof. split; reflexivity. Qed.

Lemma ex_Create :
  @Create ref_AEAD ref_JSON ex_manager ex_request ex_created ex_world
  = (Ok (fresh_license ex_manager ex_request ex_created),
     ex_world_with (fresh_license ex_manager ex_request ex_created)).
Proof.
  rewrite (@Create_spec ref_AEAD ref_JSON ex_manager ex_request ex_created ex_world
             ex_path ex_license_path).
  rewrite bool_decide_eq_false_2; [reflexivity|].
  cbn [files ex_world]. rewrite lookup_empty. intros [? ?]; discriminate.
Qed.

(** The validation of [ex_active] on the second of January. *)
Lemma ex_validate_day2 :
  @readAndVerifyLicense ref_AEAD ref_JSON ex_manager ex_path "pc-1" ex_day2
    (ex_world_with ex_active)
  = (Ok (later_run ex_active (Format ex_day2 RFC3339) (Format ex_day2 DateOnly)),
     @saved ref_AEAD ref_JSON ex_manager
       (later_run ex_active (Format ex_day2 RFC3339) (Format ex_day2 DateOnly))
       ex_path (ex_world_with ex_active)).
Proof.
  rewrite (@readAndVerifyLicense_later ref_AEAD ref_JSON ex_manager ex_path "pc-1"
             ex_day2 (ex_world_with ex_active) ex_active).
  - reflexivity.
  - apply ex_stored. reflexivity.
  - exact ex_accepted_active.
  - reflexivity.
  - exact I.
  - reflexivity.
Qed.

(** * The claims of the specification *)

(** C1. Exactly-N-days law. The file holds a record that is not yet
    activated, is not a lifetime license, has [maxDays = N >= 0] and passes
    the machine and serial checks. Validations at [N + 1] clock readings with
    strictly increasing timestamps on pairwise distinct days give: success on
    each of the first [N] days, the record after the i-th holding exactly the
    first i days, and [LicenseExpired] (used [N + 1] of [N]) on day [N + 1]. *)
Theorem exactly_N_days `{!AEAD, !JSON} (m : Manager)
    (filename currentPcId : string) (nows : list Time) (w : World) (l : License) :
  stored m w filename l ->
  accepted m currentPcId l ->
  IsActivated l = false ->
  IsLifetime l = false ->
  0 <= MaxDays l ->
  Z.of_nat (length nows) = MaxDays l + 1 ->
  chronological nows ->
  NoDup (days nows) ->
  exists ls : list License,
    fst (validate_each m filename currentPcId nows w)
      = map Ok ls ++ [Err (LicenseExpired (MaxDays l + 1) (MaxDays l))]
    /\ Z.of_nat (length ls) = MaxDays l
    /\ forall i l_i, ls !! i = Some l_i ->
         UsageHistory l_i = take (S i) (days nows).
Proof.
  intros Hst Hacc Hact Hlife Hpos Hlen Hchr Hnd.
  destruct nows as [|now rest]; [cbn [length] in Hlen; lia|].
  pose proof (readAndVerifyLicense_first m filename currentPcId now w l Hst Hacc Hact)
    as Hr.
  cbv zeta in Hr.
  set (l' := activate l (Format now RFC3339) (Format now DateOnly)) in *.
  cbn [validate_each]. rewrite Hr.
  unfold expired. cbn [IsLifetime MaxDays UsageHistory l' activate length].
  rewrite Hlife. cbn [negb andb].
  destruct (MaxDays l <? Z.of_nat 1) eqn:Hfull.
  - apply Z.ltb_lt in Hfull.
    assert (rest = []) as -> by (destruct rest; [reflexivity|cbn [length] in Hlen; lia]).
    exists []. cbn [validate_each fst map app length].
    replace (MaxDays l + 1) with 1 by lia.
    split; [reflexivity|]. split; [lia|]. intros i l_i Hi. discriminate Hi.
  - apply Z.ltb_ge in Hfull.
    destruct (validate_each_active m filename currentPcId rest
                (saved m l' filename w) l') as (ls & Hres & Hcount & Hhist).
    + apply stored_saved_activate.
    + exact Hacc.
    + reflexivity.
    + exact Hlife.
    + unfold synced, l', activate. cbn [UsageMap UsageHistory].
      rewrite <- rebuild_UsageMap_singleton. apply holds_exactly_rebuild.
    + cbn [UsageHistory l' activate length MaxDays]. lia.
    + exact Hchr.
    + exact Hnd.
    + cbn [UsageHistory l' activate length MaxDays] in *. lia.
    + exists (l' :: ls).
      destruct (validate_each m filename currentPcId rest (saved m l' filename w))
        as [rs w''].
      cbn [fst] in *. rewrite Hres. split; [reflexivity|].
      split; [cbn [UsageHistory l' activate length MaxDays] in *; lia|].
      intros [|i] l_i Hi.
      * cbn in Hi. injection Hi as <-. reflexivity.
      * cbn [lookup list_lookup] in Hi. rewrite (Hhist i l_i Hi). reflexivity.
Qed.

Lemma exactly_N_days_witness :
  exists ls : list License,
    fst (@validate_each ref_AEAD ref_JSON ex_manager ex_path "pc-1"
           [ex_day1; ex_day2; ex_day3] (ex_world_with ex_two_days))
      = map Ok ls ++ [Err (LicenseExpired 3 2)]
    /\ Z.of_nat (length ls) = 2
    /\ forall i l_i, ls !! i = Some l_i ->
         UsageHistory l_i
         = take (S i) ["2025-01-01"; "2025-01-02"; "2025-01-03"]%string.
Proof.
  apply (@exactly_N_days ref_AEAD ref_JSON ex_manager ex_path "pc-1"
           [ex_day1; ex_day2; ex_day3] (ex_world_with ex_two_days) ex_two_days).
  - apply ex_stored. reflexivity.
  - split; reflexivity.
  - reflexivity.
  - reflexivity.
  - cbn [MaxDays ex_two_days]. lia.
  - reflexivity.
  - split; [reflexivity|]. split; [reflexivity|]. exact I.
  - apply (bool_decide_unpack _). vm_compute. reflexivity.
Defined.

(** C2. Rollback law: when the file holds an activated record that passes the
    machine and serial checks and whose [lastUsedDate] is set, a validation
    whose timestamp is strictly before [lastUsedDate] in the order of strings
    fails with [ClockRollbackDetected] and leaves the world, and so the
    stored [runCount] and [usageHistory], as they were. *)
Theorem rollback_detected `{!AEAD, !JSON} (m : Manager)
    (filename currentPcId : string) (now : Time) (w : World) (l : License) :
  stored m w filename l ->
  accepted m currentPcId l ->
  IsActivated l = true ->
  LastUsedDate l <> EmptyString ->
  String.ltb (Format now RFC3339) (LastUsedDate l) = true ->
  readAndVerifyLicense m filename currentPcId now w
    = (Err ClockRollbackDetected, w)
  /\ stored m w filename l.
Proof.
  intros Hst [Hpc Hser] Hact _ Hlt. split; [|exact Hst].
  rewrite (readAndVerifyLicense_stored _ _ _ _ _ _ Hst).
  rewrite decide_False by (intros Hne; apply Hne, Hpc).
  rewrite decide_False by (intros Hne; apply Hne, Hser).
  rewrite update_usage_rollback by assumption. reflexivity.
Qed.

Lemma rollback_detected_witness :
  @readAndVerifyLicense ref_AEAD ref_JSON ex_manager ex_path "pc-1" ex_created
    (ex_world_with ex_active)
  = (Err ClockRollbackDetected, ex_world_with ex_active)
  /\ @stored ref_AEAD ref_JSON ex_manager (ex_world_with ex_active) ex_path ex_active.
Proof.
  apply (@rollback_detected ref_AEAD ref_JSON ex_manager ex_path "pc-1" ex_created
           (ex_world_with ex_active) ex_active).
  - apply ex_stored. reflexivity.
  - exact ex_accepted_active.
  - reflexivity.
  - discriminate.
  - reflexivity.
Defined.

(** C3, as the specification states it, fails: [View] returns a record whose
    machine id is the current one although its serial is not the recomputed
    one. *)
Lemma View_accepts_wrong_serial :
  @View ref_AEAD ref_JSON ex_manager "Acme" (ex_world_with ex_forged)
    = (Ok ex_forged, ex_world_with ex_forged)
  /\ PCId ex_forged = PCID ex_manager
  /\ Serial ex_forged
     <> GenerateSerial (crypto ex_manager) (PCID ex_manager)
          (ProductName ex_forged) (MaxDays ex_forged).
Proof.
  split; [|split; [reflexivity|]].
  - rewrite (@View_stored ref_AEAD ref_JSON _ _ _ ex_path ex_forged).
    + reflexivity.
    + apply ex_license_path_with.
    + apply ex_stored. reflexivity.
  - intros Heq.
    pose proof (GenerateSerial_length (crypto ex_manager) (PCID ex_manager)
                  (ProductName ex_forged) (MaxDays ex_forged)) as Hlen.
    rewrite <- Heq in Hlen. discriminate Hlen.
Qed.

(** C3, amended. [View] checks the machine id and nothing else: when the file
    holds a record, the outcome is that record, whatever its serial, if its
    machine id is the current one, and [WrongMachine] otherwise; the record
    is returned as stored ([runCount], [usageHistory] and [isActivated]
    untouched) and the world, with the file, is unchanged. *)
Theorem View_checks_machine_only `{!AEAD, !JSON} (m : Manager)
    (productName : string) (w : World) (path : string) (l : License) :
  license_path m productName w path ->
  stored m w path l ->
  View m productName w
    = (if decide (PCId l = PCID m) then Ok l else Err WrongMachine, w)
  /\ stored m w path l.
Proof.
  intros Hp Hst. split; [|exact Hst].
  destruct Hst as (envelope & data & Hf & Hd & Hu).
  rewrite (View_spec _ _ _ _ Hp), Hf, Hd, Hu.
  destruct (decide (PCId l <> PCID m)) as [Hne|Heq].
  - rewrite decide_False by exact Hne. reflexivity.
  - rewrite decide_True; [reflexivity|].
    destruct (decide (PCId l = PCID m)) as [Hpc|Hpc]; [exact Hpc|]. now elim Heq.
Qed.

Lemma View_checks_machine_only_witness :
  @View ref_AEAD ref_JSON ex_manager "Acme" (ex_world_with ex_active)
    = (Ok ex_active, ex_world_with ex_active)
  /\ @stored ref_AEAD ref_JSON ex_manager (ex_world_with ex_active) ex_path ex_active.
Proof.
  apply (@View_checks_machine_only ref_AEAD ref_JSON ex_manager "Acme"
           (ex_world_with ex_active) ex_path ex_active).
  - apply ex_license_path_with.
  - apply ex_stored. reflexivity.
Defined.

(** C4, as the specification states it, fails: a master secret of exactly 32
    bytes is hashed all the same, so the key material of the manager is not
    the secret itself. *)
Lemma master_secret_of_32_bytes_is_hashed :
  length (Bytes.of_string ex_secret_32) = 32%nat
  /\ NewCryptoManagerWithKey ex_secret_32
     = Ok (mkCryptoManager (SHA256.Sum256 (Bytes.of_string ex_secret_32)))
  /\ SHA256.Sum256 (Bytes.of_string ex_secret_32)
     <> spec_normalize (Bytes.of_string ex_secret_32).
Proof.
  split; [reflexivity|]. split; [reflexivity|].
  intros H. vm_compute in H. discriminate H.
Qed.

(** C4, amended. The normalization is unconditional: every manager, whether
    built from a given master key or from the environment, holds the SHA-256
    digest of the master secret, whatever the length of the secret, 32 bytes
    included; the digest has 32 bytes, and both keys are derived from it: the
    salt is the SHA-256 digest of the constant, the purpose and the digest, and
    the key is PBKDF2 of the digest and the salt with 10000 rounds, 32 bytes
    long. *)
Theorem master_secret_always_hashed :
  (forall (secret : string) (cm : CryptoManager),
     NewCryptoManagerWithKey secret = Ok cm ->
     masterKey cm = SHA256.Sum256 (Bytes.of_string secret))
  /\ (forall (w w' : World) (cm : CryptoManager),
        NewCryptoManager w = (Ok cm, w') ->
        exists envKey,
          environ w !! "LICENSE_MASTER_KEY"%string = Some envKey
          /\ masterKey cm = SHA256.Sum256 (Bytes.of_string envKey))
  /\ (forall (digest : list byte),
        let cm := mkCryptoManager digest in
        let salt purpose :=
          SHA256.Sum256
            ((Bytes.of_string "LICENSE_MANAGER_2025_" ++ Bytes.of_string purpose)
               ++ digest) in
        DeriveSerialKey cm
          = PBKDF2.Key digest (salt "SERIAL_KEY_DERIVATION"%string) 10000 32
        /\ DeriveEncryptionKey cm
           = PBKDF2.Key digest (salt "ENCRYPTION_KEY_DERIVATION"%string) 10000 32
        /\ length (DeriveSerialKey cm) = 32%nat
        /\ length (DeriveEncryptionKey cm) = 32%nat)
  /\ (forall secret : list byte, length (SHA256.Sum256 secret) = 32%nat).
Proof.
  split; [|split; [|split]].
  - intros secret cm. unfold NewCryptoManagerWithKey.
    destruct (decide (secret = EmptyString)); [discriminate|].
    intros [= <-]. reflexivity.
  - intros w w' cm Hn. destruct (NewCryptoManager_Ok _ _ _ Hn) as (envKey & He & _ & Hk).
    exists envKey. auto.
  - intros digest cm salt. split; [reflexivity|]. split; [reflexivity|].
    split; [apply DeriveSerialKey_length | apply DeriveEncryptionKey_length].
  - apply Sum256_length.
Qed.

Lemma master_secret_always_hashed_witness :
  masterKey (mkCryptoManager (SHA256.Sum256 (Bytes.of_string ex_secret_32)))
  = SHA256.Sum256 (Bytes.of_string ex_secret_32).
Proof.
  apply (proj1 master_secret_always_hashed ex_secret_32).
  reflexivity.
Defined.

(** C5. Same-day revalidation. The file holds an activated record that passes
    the machine and serial checks, whose map, if any, is in step with its
    history, and which was last used strictly before [now]. If the day of
    [now] is already in the history and the term is not exceeded, the
    validation succeeds, adds one to [runCount] (in Go's [int]; exactly
    [runCount + 1] below the largest [int]), leaves [usageHistory] as it was
    and sets [lastUsedDate] to the new timestamp. If the day is new and a day
    of the term is left, the validation succeeds and appends the day at the
    end of [usageHistory]. Either way the returned record is the one saved. *)
Theorem same_day_revalidation `{!AEAD, !JSON} (m : Manager)
    (filename currentPcId : string) (now : Time) (w : World) (l : License) :
  stored m w filename l ->
  accepted m currentPcId l ->
  IsActivated l = true ->
  synced l ->
  String.ltb (LastUsedDate l) (Format now RFC3339) = true ->
  (Format now DateOnly ∈ UsageHistory l ->
   expired l = false ->
   exists l',
     readAndVerifyLicense m filename currentPcId now w
       = (Ok l', saved m l' filename w)
     /\ RunCount l' = Int.add (RunCount l) 1
     /\ (Int.min <= RunCount l < Int.max -> RunCount l' = RunCount l + 1)
     /\ UsageHistory l' = UsageHistory l
     /\ LastUsedDate l' = Format now RFC3339
     /\ stored m (saved m l' filename w) filename l')
  /\ (Format now DateOnly ∉ UsageHistory l ->
      IsLifetime l = true \/ Z.of_nat (length (UsageHistory l)) < MaxDays l ->
      exists l',
        readAndVerifyLicense m filename currentPcId now w
          = (Ok l', saved m l' filename w)
        /\ RunCount l' = Int.add (RunCount l) 1
        /\ (Int.min <= RunCount l < Int.max -> RunCount l' = RunCount l + 1)
        /\ UsageHistory l' = UsageHistory l ++ [Format now DateOnly]
        /\ LastUsedDate l' = Format now RFC3339
        /\ stored m (saved m l' filename w) filename l').
Proof.
  intros Hst Hacc Hact Hs Hlt.
  pose proof (readAndVerifyLicense_later _ _ _ _ _ _ Hst Hacc Hact Hs Hlt) as Hr.
  cbv zeta in Hr.
  split.
  - intros Hin Hexp.
    exists (later_run l (Format now RFC3339) (Format now DateOnly)).
    assert (Hh : UsageHistory (later_run l (Format now RFC3339) (Format now DateOnly))
                 = UsageHistory l).
    { unfold later_run. cbn [UsageHistory]. now rewrite decide_True. }
    assert (Hexp' : expired (later_run l (Format now RFC3339) (Format now DateOnly)) = false).
    { unfold expired in *. rewrite Hh. exact Hexp. }
    rewrite Hexp' in Hr.
    split; [exact Hr|]. split; [reflexivity|]. split; [apply Int_add_1|].
    split; [exact Hh|]. split; [reflexivity|]. apply stored_saved_later.
  - intros Hnin Hleft.
    exists (later_run l (Format now RFC3339) (Format now DateOnly)).
    assert (Hh : UsageHistory (later_run l (Format now RFC3339) (Format now DateOnly))
                 = UsageHistory l ++ [Format now DateOnly]).
    { unfold later_run. cbn [UsageHistory]. now rewrite decide_False. }
    assert (Hexp' : expired (later_run l (Format now RFC3339) (Format now DateOnly)) = false).
    { unfold expired. rewrite Hh, length_app. cbn [IsLifetime MaxDays later_run length].
      destruct Hleft as [-> | Hlt']; [reflexivity|].
      rewrite (proj2 (Z.ltb_ge _ _)) by lia. apply andb_false_r. }
    rewrite Hexp' in Hr.
    split; [exact Hr|]. split; [reflexivity|]. split; [apply Int_add_1|].
    split; [exact Hh|]. split; [reflexivity|]. apply stored_saved_later.
Qed.

Lemma same_day_revalidation_witness :
  (exists l',
     @readAndVerifyLicense ref_AEAD ref_JSON ex_manager ex_path "pc-1"
       ex_day1_later (ex_world_with ex_active)
     = (Ok l', @saved ref_AEAD ref_JSON ex_manager l' ex_path (ex_world_with ex_active))
     /\ RunCount l' = 2
     /\ UsageHistory l' = ["2025-01-01"%string]
     /\ LastUsedDate l' = "2025-01-01T18:30:00Z"%string)
  /\ (exists l',
        @readAndVerifyLicense ref_AEAD ref_JSON ex_manager ex_path "pc-1"
          ex_day2 (ex_world_with ex_active)
        = (Ok l', @saved ref_AEAD ref_JSON ex_manager l' ex_path (ex_world_with ex_active))
        /\ RunCount l' = 2
        /\ UsageHistory l' = ["2025-01-01"%string; "2025-01-02"%string]
        /\ LastUsedDate l' = "2025-01-02T10:00:00Z"%string).
Proof.
  assert (Hrange : Int.min <= RunCount ex_active < Int.max)
    by (unfold Int.min, Int.max; cbn [RunCount ex_active]; lia).
  split.
  - destruct (@same_day_revalidation ref_AEAD ref_JSON ex_manager ex_path "pc-1"
                ex_day1_later (ex_world_with ex_active) ex_active)
      as [Hsame _].
    + apply ex_stored. reflexivity.
    + exact ex_accepted_active.
    + reflexivity.
    + exact I.
    + reflexivity.
    + destruct Hsame as (l' & Hr & _ & Hrc & Hh & Hlast & _).
      * apply list_elem_of_here.
      * reflexivity.
      * exists l'. split; [exact Hr|]. split; [rewrite (Hrc Hrange); reflexivity|].
        split; [exact Hh | exact Hlast].
  - destruct (@same_day_revalidation ref_AEAD ref_JSON ex_manager ex_path "pc-1"
                ex_day2 (ex_world_with ex_active) ex_active)
      as [_ Hnew].
    + apply ex_stored. reflexivity.
    + exact ex_accepted_active.
    + reflexivity.
    + exact I.
    + reflexivity.
    + destruct Hnew as (l' & Hr & _ & Hrc & Hh & Hlast & _).
      * intros Hin. apply list_elem_of_singleton in Hin. discriminate Hin.
      * right. cbn [UsageHistory MaxDays ex_active length]. lia.
      * exists l'. split; [exact Hr|]. split; [rewrite (Hrc Hrange); reflexivity|].
        split; [exact Hh | exact Hlast].
Defined.




(** C8. Machine binding: a record created under machine id [PCID m] and then
    validated under a different machine id fails with [WrongMachine], and the
    world after the call is the world before it, so the license file is
    byte for byte the same. *)
Theorem wrong_machine_rejected `{!AEAD, !JSON} (m : Manager)
    (req : CreateLicenseRequest) (created now : Time) (w w1 : World)
    (path currentPcId : string) (l : License) :
  license_path m (req_ProductName req) w path ->
  Create m req created w = (Ok l, w1) ->
  currentPcId <> PCID m ->
  readAndVerifyLicense m path currentPcId now w1 = (Err WrongMachine, w1)
  /\ Validate (mkManager (config m) (crypto m) currentPcId) (req_ProductName req)
       now w1
     = (mkValidationResult false None (Some WrongMachine), w1).
Proof.
  intros Hp Hc Hne.
  destruct (Create_Ok _ _ _ _ _ _ _ Hp Hc) as (_ & Hl & ->).
  assert (Hst : stored m (saved m l path w) path (omitempty l)) by apply stored_saved.
  assert (Hrv : forall m', crypto m' = crypto m ->
            readAndVerifyLicense m' path currentPcId now (saved m l path w)
            = (Err WrongMachine, saved m l path w)).
  { intros m' Hm'. rewrite (readAndVerifyLicense_stored m' _ _ _ _ (omitempty l)).
    - rewrite decide_True; [reflexivity|].
      rewrite PCId_omitempty, Hl. cbn [PCId fresh_license]. congruence.
    - destruct Hst as (e & d & ? & ? & ?). exists e, d. rewrite Hm'. auto. }
  split; [apply Hrv; reflexivity|].
  rewrite (Validate_spec _ _ _ _ path) by (apply (license_path_saved m), Hp).
  cbn [PCID]. rewrite Hrv by reflexivity. reflexivity.
Qed.

Lemma wrong_machine_rejected_witness :
  @readAndVerifyLicense ref_AEAD ref_JSON ex_manager ex_path "pc-2" ex_day1
    (ex_world_with (fresh_license ex_manager ex_request ex_created))
  = (Err WrongMachine, ex_world_with (fresh_license ex_manager ex_request ex_created))
  /\ @Validate ref_AEAD ref_JSON
       (mkManager (config ex_manager) (crypto ex_manager) "pc-2") "Acme" ex_day1
       (ex_world_with (fresh_license ex_manager ex_request ex_created))
     = (mkValidationResult false None (Some WrongMachine),
        ex_world_with (fresh_license ex_manager ex_request ex_created)).
Proof.
  apply (@wrong_machine_rejected ref_AEAD ref_JSON ex_manager ex_request ex_created
           ex_day1 ex_world
           (ex_world_with (fresh_license ex_manager ex_request ex_created))
           ex_path "pc-2" (fresh_license ex_manager ex_request ex_created)
           ex_license_path ex_Create).
  discriminate.
Defined.

(** C9. The usage-map invariant. When the history of the stored record holds
    distinct days and its map, if it has one, holds exactly these days, every
    operation that saves a record keeps it so: the record that [Create] saves
    and the record that a successful validation saves (first activation,
    same-instant return, and later runs, with or without a stored map) have a
    history of distinct days and a map of exactly these days, hence
    [len(usageHistory)] equal to the size of [usageMap]; the same holds of the
    record as it is read back from the file. *)
Theorem usage_invariant_preserved `{!AEAD, !JSON} :
  (forall m req now w l w',
     Create m req now w = (Ok l, w') ->
     usage_invariant l /\ usage_sizes_agree l
     /\ exists path, license_path m (req_ProductName req) w path
          /\ stored m w' path (omitempty l)
          /\ usage_sizes_agree (omitempty l))
  /\ (forall m filename currentPcId now w l l' w',
        stored m w filename l ->
        usage_invariant l ->
        readAndVerifyLicense m filename currentPcId now w = (Ok l', w') ->
        usage_invariant l' /\ usage_sizes_agree l'
        /\ stored m w' filename (omitempty l')
        /\ usage_sizes_agree (omitempty l')).
Proof.
  split.
  - intros m req now w l w' Hc.
    destruct (Create_path _ _ _ _ _ _ Hc) as [path Hp].
    destruct (Create_Ok _ _ _ _ _ _ _ Hp Hc) as (_ & -> & ->).
    pose proof (usage_invariant_fresh m req now) as Hinv.
    split; [exact Hinv|]. split; [apply usage_invariant_sizes, Hinv|].
    exists path. split; [exact Hp|]. split; [apply stored_saved|].
    apply usage_invariant_sizes, usage_invariant_omitempty, Hinv.
  - intros m filename currentPcId now w l l' w' Hst Hinv Hr.
    rewrite (readAndVerifyLicense_stored _ _ _ _ _ _ Hst) in Hr.
    destruct (decide (PCId l <> currentPcId)); [discriminate Hr|].
    destruct (decide (Serial l <> _)); [discriminate Hr|].
    pose proof (usage_invariant_update l (Format now RFC3339) (Format now DateOnly) Hinv)
      as Hupd.
    assert (Hgoal : forall l0, usage_invariant l0 ->
              (Ok (E:=Error) l0, saved m l0 filename w) = (Ok l', w') ->
              usage_invariant l' /\ usage_sizes_agree l'
              /\ stored m w' filename (omitempty l')
              /\ usage_sizes_agree (omitempty l')).
    { intros l0 Hl0 [<- <-]%Ok_pair_inv.
      split; [exact Hl0|]. split; [apply usage_invariant_sizes, Hl0|].
      split; [apply stored_saved|].
      apply usage_invariant_sizes, usage_invariant_omitempty, Hl0. }
    destruct (update_usage l _ _) as [l0| |l0].
    + apply (Hgoal l0 Hupd Hr).
    + discriminate Hr.
    + destruct (expired l0); [discriminate Hr|]. apply (Hgoal l0 Hupd Hr).
Qed.

Lemma usage_invariant_preserved_witness :
  (usage_invariant (fresh_license ex_manager ex_request ex_created)
   /\ usage_sizes_agree (fresh_license ex_manager ex_request ex_created))
  /\ (usage_invariant
        (later_run ex_active (Format ex_day2 RFC3339) (Format ex_day2 DateOnly))
      /\ usage_sizes_agree
           (later_run ex_active (Format ex_day2 RFC3339) (Format ex_day2 DateOnly))).
Proof.
  destruct (@usage_invariant_preserved ref_AEAD ref_JSON) as [Hcreate Hvalidate].
  split.
  - destruct (Hcreate ex_manager ex_request ex_created ex_world _ _ ex_Create)
      as (Hinv & Hsize & _).
    split; assumption.
  - destruct (Hvalidate ex_manager ex_path "pc-1"%string ex_day2
                (ex_world_with ex_active) ex_active _ _
                (ex_stored ex_active eq_refl)
                (conj (NoDup_singleton "2025-01-01"%string) I) ex_validate_day2)
      as (Hinv & Hsize & _).
    split; assumption.
Defined.

(** C10. Serial token format: for every machine id, product name, term and
    master key, the token has exactly 23 characters, four groups of five
    upper-case hexadecimal digits with a dash at positions 5, 11 and 17
    (counted from 0); and the token is a function of its inputs: equal inputs
    give equal tokens. *)
Theorem GenerateSerial_format (cm : CryptoManager) (pcId productName : string)
    (maxDays : Z) :
  let serial := GenerateSerial cm pcId productName maxDays in
  String.length serial = 23%nat
  /\ (exists g1 g2 g3 g4 : string,
        serial = g1 +:+ "-" +:+ g2 +:+ "-" +:+ g3 +:+ "-" +:+ g4
        /\ String.length g1 = 5%nat /\ String.length g2 = 5%nat
        /\ String.length g3 = 5%nat /\ String.length g4 = 5%nat
        /\ all_upper_hex g1 = true /\ all_upper_hex g2 = true
        /\ all_upper_hex g3 = true /\ all_upper_hex g4 = true)
  /\ get 5 serial = Some "-"%char
  /\ get 11 serial = Some "-"%char
  /\ get 17 serial = Some "-"%char
  /\ (forall cm' pcId' productName' maxDays',
        cm' = cm -> pcId' = pcId -> productName' = productName ->
        maxDays' = maxDays ->
        GenerateSerial cm' pcId' productName' maxDays' = serial).
Proof.
  intros serial. subst serial. rewrite GenerateSerial_digest.
  destruct (serial_of_digest_format
              (MD5.Sum (Bytes.of_string
                 (serial_data pcId productName maxDays
                    (Bytes.hex_EncodeToString (DeriveSerialKey cm))))))
    as (g1 & g2 & g3 & g4 & Heq & H1 & H2 & H3 & H4 & U1 & U2 & U3 & U4);
    [apply MD5_Sum_length|].
  assert (Hpos : String.length (g1 +:+ "-" +:+ g2 +:+ "-" +:+ g3 +:+ "-" +:+ g4) = 23%nat
                 /\ get 5 (g1 +:+ "-" +:+ g2 +:+ "-" +:+ g3 +:+ "-" +:+ g4) = Some "-"%char
                 /\ get 11 (g1 +:+ "-" +:+ g2 +:+ "-" +:+ g3 +:+ "-" +:+ g4) = Some "-"%char
                 /\ get 17 (g1 +:+ "-" +:+ g2 +:+ "-" +:+ g3 +:+ "-" +:+ g4) = Some "-"%char).
  { clear Heq U1 U2 U3 U4. explode_string g1 H1. explode_string g2 H2.
    explode_string g3 H3. explode_string g4 H4. repeat split; reflexivity. }
  rewrite <- Heq in Hpos. destruct Hpos as (Hlen & P5 & P11 & P17).
  repeat split; try assumption.
  - exists g1, g2, g3, g4. repeat split; assumption.
  - intros cm' pcId' productName' maxDays' -> -> -> ->. reflexivity.
Qed.

(** * Further properties of the code

    Properties of the functions beside those of the claims: the configuration
    and the command line arguments, the keys and envelopes, the machine
    identifier and the construction of a manager, and the way the operations
    on licenses compose. *)

(** ** Decimal numerals *)

Lemma digit_pretty_N_char d :
  (d < 10)%N -> digit (pretty_N_char d) = Some (Z.of_N d).
Proof.
  intros Hd.
  assert (d = 0 \/ d = 1 \/ d = 2 \/ d = 3 \/ d = 4 \/ d = 5 \/ d = 6 \/ d = 7
          \/ d = 8 \/ d = 9)%N as Hcases by lia.
  repeat (destruct Hcases as [-> | Hcases]; [reflexivity|]). subst d. reflexivity.
Qed.

Lemma digit_not_sign c d :
  digit c = Some d -> Ascii.eqb c "-" = false /\ Ascii.eqb c "+" = false.
Proof.
  destruct c as [[] [] [] [] [] [] [] []]; intros Hd; cbv in Hd;
    try discriminate Hd; split; reflexivity.
Qed.

Lemma N_digits x : (0 < x)%N ->
  Z.of_N (x `div` 10) * 10 + Z.of_N (x `mod` 10) = Z.of_N x.
Proof.
  intros _. pose proof (N.div_mod x 10 ltac:(discriminate)) as Hx. lia.
Qed.

Lemma atoi_digits_pretty x : forall s,
  atoi_digits (pretty_N_go x s) 0 = atoi_digits s (Z.of_N x).
Proof.
  induction (N.lt_wf_0 x) as [x _ IH]. intros s.
  destruct (decide (x = 0%N)) as [-> | Hx]; [reflexivity|].
  rewrite pretty_N_go_step by lia.
  rewrite IH by (apply N.div_lt; lia).
  cbn [atoi_digits]. rewrite digit_pretty_N_char by (apply N.mod_lt; discriminate).
  rewrite N_digits by lia. reflexivity.
Qed.

Lemma parse_digits_pretty x : forall s,
  Z.of_N x < 2 ^ 64 ->
  parse_digits (pretty_N_go x s) 0 = parse_digits s (Z.of_N x).
Proof.
  induction (N.lt_wf_0 x) as [x _ IH]. intros s Hx.
  destruct (decide (x = 0%N)) as [-> | Hne]; [reflexivity|].
  pose proof (N_digits x ltac:(lia)) as Hd.
  assert (Hmod : 0 <= Z.of_N (x `mod` 10) < 10).
  { rewrite N2Z.inj_mod. apply Z.mod_pos_bound. lia. }
  assert (Hlt : (x `div` 10 < x)%N) by (apply N.div_lt; lia).
  rewrite pretty_N_go_step by lia.
  rewrite IH by lia.
  cbn [parse_digits]. rewrite digit_pretty_N_char by (apply N.mod_lt; discriminate).
  cbv zeta. rewrite Hd.
  change ((2 ^ 64 - 1) `div` 10 + 1) with 1844674407370955162.
  rewrite (proj2 (Z.leb_gt _ _)) by lia.
  rewrite (proj2 (Z.ltb_ge _ _)) by lia. reflexivity.
Qed.

Lemma pretty_N_go_head x : forall s,
  (0 < x)%N ->
  exists c r d, pretty_N_go x s = String c r /\ digit c = Some d.
Proof.
  induction (N.lt_wf_0 x) as [x _ IH]. intros s Hx.
  rewrite pretty_N_go_step by exact Hx.
  destruct (decide (x `div` 10 = 0)%N) as [-> | Hne].
  - rewrite pretty_N_go_0. eexists _, _, _. split; [reflexivity|].
    apply digit_pretty_N_char, N.mod_lt. discriminate.
  - apply IH; [apply N.div_lt; lia | apply N.neq_0_lt_0, Hne].
Qed.

Lemma pretty_positive_unfold p :
  pretty (Z.pos p) = pretty_N_go (N.pos p) EmptyString.
Proof. reflexivity. Qed.

Lemma pretty_negative_unfold p :
  pretty (Z.neg p) = String "-" (pretty_N_go (N.pos p) EmptyString).
Proof. reflexivity. Qed.

(** What [Itoa] writes, [Atoi] reads: the decimal numeral of an [int] parses
    to that [int]. *)
Lemma Atoi_pretty (n : Z) :
  Int.min <= n <= Int.max -> strconv_Atoi (pretty n) = Ok n.
Proof.
  unfold Int.min, Int.max. intros Hn. destruct n as [|p|p].
  - reflexivity.
  - rewrite pretty_positive_unfold.
    destruct (pretty_N_go_head (N.pos p) EmptyString ltac:(lia)) as (c & r & d & Hs & Hd).
    destruct (digit_not_sign c d Hd) as [Hminus Hplus].
    pose proof (atoi_digits_pretty (N.pos p) EmptyString) as Hfast.
    pose proof (parse_digits_pretty (N.pos p) EmptyString ltac:(lia)) as Hslow.
    rewrite Hs in *. unfold strconv_Atoi.
    destruct ((0 <? String.length (String c r))%nat
              && (String.length (String c r) <? 19)%nat).
    + rewrite Hminus, Hplus. cbn [orb andb]. rewrite Hfast. reflexivity.
    + unfold strconv_ParseInt, strconv_ParseUint. rewrite Hminus, Hplus.
      cbn [orb andb negb]. rewrite decide_False by discriminate.
      rewrite Hslow. cbn [parse_digits].
      rewrite (proj2 (Z.leb_gt _ _)) by lia. reflexivity.
  - rewrite pretty_negative_unfold.
    destruct (pretty_N_go_head (N.pos p) EmptyString ltac:(lia)) as (c & r & d & Hs & Hd).
    pose proof (atoi_digits_pretty (N.pos p) EmptyString) as Hfast.
    pose proof (parse_digits_pretty (N.pos p) EmptyString ltac:(lia)) as Hslow.
    rewrite Hs in *. unfold strconv_Atoi.
    destruct ((0 <? String.length (String "-" (String c r)))%nat
              && (String.length (String "-" (String c r)) <? 19)%nat).
    + change (Ascii.eqb "-" "-") with true. cbn [orb andb String.length Nat.ltb Nat.leb].
      rewrite Hfast. reflexivity.
    + unfold strconv_ParseInt, strconv_ParseUint.
      change (Ascii.eqb "-" "-") with true. change (Ascii.eqb "-" "+") with false.
      cbn [orb andb negb]. rewrite decide_False by discriminate.
      rewrite Hslow. cbn [parse_digits].
      rewrite (proj2 (Z.ltb_ge _ _)) by lia. reflexivity.
Qed.

Lemma atoi_digits_bound s : forall acc n,
  0 <= acc -> atoi_digits s acc = Ok n ->
  0 <= n < (acc + 1) * 10 ^ Z.of_nat (String.length s).
Proof.
  induction s as [|c s IH]; intros acc n Hacc Hn.
  - cbn in Hn. injection Hn as <-. cbn [String.length]. change (10 ^ Z.of_nat 0) with 1. lia.
  - cbn [atoi_digits] in Hn. destruct (digit c) as [d|] eqn:Hd; [|discriminate Hn].
    assert (Hdr : 0 <= d <= 9).
    { unfold digit in Hd.
      destruct ((48 <=? Z.of_N (N_of_ascii c)) && (Z.of_N (N_of_ascii c) <=? 57)) eqn:Hr;
        [|discriminate Hd].
      apply andb_true_iff in Hr as [H1%Z.leb_le H2%Z.leb_le]. injection Hd as <-. lia. }
    apply IH in Hn; [|lia].
    cbn [String.length]. rewrite Nat2Z.inj_succ, Z.pow_succ_r by lia.
    pose proof (Z.pow_pos_nonneg 10 (Z.of_nat (String.length s)) ltac:(lia) ltac:(lia)).
    nia.
Qed.

Lemma parse_digits_nonneg s : forall acc n,
  0 <= acc -> parse_digits s acc = Ok n -> 0 <= n.
Proof.
  induction s as [|c s IH]; intros acc n Hacc Hn.
  - cbn in Hn. injection Hn as <-. exact Hacc.
  - cbn [parse_digits] in Hn. destruct (digit c) as [d|] eqn:Hd; [|discriminate Hn].
    assert (Hdr : 0 <= d).
    { unfold digit in Hd.
      destruct ((48 <=? Z.of_N (N_of_ascii c)) && (Z.of_N (N_of_ascii c) <=? 57)) eqn:Hr;
        [|discriminate Hd].
      apply andb_true_iff in Hr as [H1%Z.leb_le H2%Z.leb_le]. injection Hd as <-. lia. }
    cbv zeta in Hn. destruct (_ <=? acc); [discriminate Hn|].
    destruct (_ <? acc * 10 + d); [discriminate Hn|].
    apply IH in Hn; lia.
Qed.

(** The result of [Atoi] is an [int]. *)
Lemma Atoi_range s n : strconv_Atoi s = Ok n -> Int.min <= n <= Int.max.
Proof.
  unfold strconv_Atoi, Int.min, Int.max.
  destruct ((0 <? String.length s)%nat && (String.length s <? 19)%nat) eqn:Hlen.
  - apply andb_true_iff in Hlen as [_ Hlen%Nat.ltb_lt].
    destruct s as [|c r]; [discriminate|].
    assert (Hdigits : forall s' k, (String.length s' <= 18)%nat ->
              atoi_digits s' 0 = Ok k -> 0 <= k < 10 ^ 18).
    { intros s' k Hs' Hk. apply atoi_digits_bound in Hk; [|lia].
      assert (10 ^ Z.of_nat (String.length s') <= 10 ^ 18)
        by (apply Z.pow_le_mono_r; lia).
      lia. }
    destruct (Ascii.eqb c "-" || Ascii.eqb c "+") eqn:Hsign; cbn [andb].
    + destruct (String.length r <? 1)%nat; [discriminate|].
      destruct (atoi_digits r 0) as [k|] eqn:Hk; [|discriminate].
      intros [= <-]. apply Hdigits in Hk; [|cbn [String.length] in Hlen; lia].
      destruct (Ascii.eqb c "-"); lia.
    + destruct (atoi_digits (String c r) 0) as [k|] eqn:Hk; [|discriminate].
      intros [= <-]. apply Hdigits in Hk; [|lia].
      destruct (Ascii.eqb c "-"); lia.
  - clear Hlen. unfold strconv_ParseInt, strconv_ParseUint.
    destruct s as [|c r]; [discriminate|].
    destruct (decide (_ = EmptyString)); [discriminate|].
    destruct (parse_digits _ 0) as [un|] eqn:Hun; [|discriminate].
    apply parse_digits_nonneg in Hun; [|lia].
    destruct (Ascii.eqb c "-"); cbn [negb andb].
    + destruct (2 ^ 63 <? un) eqn:Hc; [discriminate|]. apply Z.ltb_ge in Hc.
      intros [= <-]. lia.
    + destruct (2 ^ 63 <=? un) eqn:Hc; [discriminate|]. apply Z.leb_gt in Hc.
      intros [= <-]. lia.
Qed.

Lemma Atoi_leading_space s : strconv_Atoi (String " " s) = Err ErrSyntax.
Proof.
  unfold strconv_Atoi.
  destruct ((0 <? String.length (String " " s))%nat
            && (String.length (String " " s) <? 19)%nat); reflexivity.
Qed.

Lemma Atoi_empty : strconv_Atoi EmptyString = Err ErrSyntax.
Proof. reflexivity. Qed.

(** ** White space *)

Lemma append_cons a s r : String a s +:+ r = String a (s +:+ r).
Proof. reflexivity. Qed.

Lemma append_nil_r s : s +:+ EmptyString = s.
Proof. induction s as [|a s IH]; [reflexivity|]. now rewrite append_cons, IH. Qed.

Lemma scan_space a r :
  space1 a = true -> scan (String a r) = (true, String a EmptyString) :: scan r.
Proof. intros Ha. cbn [scan]. rewrite Ha. reflexivity. Qed.

Lemma plain_not_lead a :
  plain a = true ->
  space1 a = false /\ (forall b, space2 a b = false)
  /\ (forall b c, space3 a b c = false).
Proof.
  unfold plain. intros [Hs%negb_true_iff Hlt%N.ltb_lt]%andb_true_iff.
  split; [exact Hs|]. split.
  - intros b. unfold space2. rewrite (proj2 (N.eqb_neq _ _)) by lia. reflexivity.
  - intros b c. unfold space3.
    rewrite (proj2 (N.eqb_neq (N_of_ascii a) 225)) by lia.
    rewrite (proj2 (N.eqb_neq (N_of_ascii a) 226)) by lia.
    rewrite (proj2 (N.eqb_neq (N_of_ascii a) 227)) by lia.
    reflexivity.
Qed.

Lemma scan_plain a r :
  plain a = true -> scan (String a r) = (false, String a EmptyString) :: scan r.
Proof.
  intros (Hs & H2 & H3)%plain_not_lead. cbn [scan]. rewrite Hs.
  destruct r as [|b r']; [reflexivity|]. rewrite H2.
  destruct r' as [|c r'']; [reflexivity|]. rewrite H3. reflexivity.
Qed.

Lemma scan_spaces pre r :
  forallb space1 (list_ascii_of_string pre) = true ->
  scan (pre +:+ r)
  = map (fun c => (true, String c EmptyString)) (list_ascii_of_string pre) ++ scan r.
Proof.
  induction pre as [|a pre IH]; intros Hpre; [reflexivity|].
  cbn [list_ascii_of_string forallb] in Hpre.
  apply andb_true_iff in Hpre as [Ha Hpre].
  rewrite append_cons. cbn [list_ascii_of_string map app].
  rewrite scan_space by exact Ha. rewrite IH by exact Hpre. reflexivity.
Qed.

Lemma scan_word t r :
  forallb plain (list_ascii_of_string t) = true ->
  scan (t +:+ r)
  = map (fun c => (false, String c EmptyString)) (list_ascii_of_string t) ++ scan r.
Proof.
  induction t as [|a t IH]; intros Ht; [reflexivity|].
  cbn [list_ascii_of_string forallb] in Ht.
  apply andb_true_iff in Ht as [Ha Ht].
  rewrite append_cons. cbn [list_ascii_of_string map app].
  rewrite scan_plain by exact Ha. rewrite IH by exact Ht. reflexivity.
Qed.

Lemma drop_spaces_spaces (l : list ascii) rest :
  drop_spaces (map (fun c => (true, String c EmptyString)) l ++ rest)
  = drop_spaces rest.
Proof. induction l as [|a l IH]; [reflexivity|exact IH]. Qed.

Lemma drop_spaces_snoc l x :
  drop_spaces (l ++ [(false, x)]) = drop_spaces l ++ [(false, x)].
Proof.
  induction l as [|[[] y] l IH]; [reflexivity | exact IH | reflexivity].
Qed.

Lemma concat_chars (l : list ascii) :
  String.concat EmptyString (map snd (map (fun c => (false, String c EmptyString)) l))
  = string_of_list_ascii l.
Proof.
  induction l as [|a l IH]; [reflexivity|].
  cbn [map snd String.concat] in *. rewrite IH.
  destruct l; reflexivity.
Qed.

Lemma concat_cons s (l : list string) :
  String.concat EmptyString (s :: l) = s +:+ String.concat EmptyString l.
Proof.
  destruct l as [|x l]; cbn [String.concat]; [|reflexivity].
  induction s as [|a s IH]; [reflexivity|]. rewrite append_cons. now rewrite <- IH.
Qed.

(** White space before a string goes. *)
Lemma TrimSpace_leading_space a r :
  space1 a = true -> strings_TrimSpace (String a r) = strings_TrimSpace r.
Proof. intros Ha. unfold strings_TrimSpace. rewrite scan_space by exact Ha. reflexivity. Qed.

(** A string that starts with a plain character keeps it. *)
Lemma TrimSpace_head a r :
  plain a = true -> exists t, strings_TrimSpace (String a r) = String a t.
Proof.
  intros Ha. unfold strings_TrimSpace. rewrite scan_plain by exact Ha.
  cbn [drop_spaces rev]. rewrite drop_spaces_snoc, rev_app_distr. cbn [rev app map snd].
  rewrite concat_cons. eexists. reflexivity.
Qed.

(** A word of plain characters between white space is what remains. *)
Lemma TrimSpace_padded pre t post :
  forallb space1 (list_ascii_of_string pre) = true ->
  forallb space1 (list_ascii_of_string post) = true ->
  forallb plain (list_ascii_of_string t) = true ->
  t <> EmptyString ->
  strings_TrimSpace (pre +:+ t +:+ post) = t.
Proof.
  intros Hpre Hpost Ht Hne. unfold strings_TrimSpace.
  rewrite scan_spaces by exact Hpre. rewrite scan_word by exact Ht.
  rewrite <- (append_nil_r post) at 1.
  rewrite scan_spaces by exact Hpost. cbn [scan]. rewrite app_nil_r.
  rewrite drop_spaces_spaces.
  destruct t as [|a t]; [contradiction|].
  cbn [list_ascii_of_string map app drop_spaces].
  set (word := map (fun c => (false, String c EmptyString)) (list_ascii_of_string t)).
  set (tail := map (fun c => (true, String c EmptyString)) (list_ascii_of_string post)).
  change ((false, String a EmptyString) :: word ++ tail)
    with (((false, String a EmptyString) :: word) ++ tail).
  rewrite rev_app_distr. unfold tail. rewrite <- map_rev, drop_spaces_spaces.
  cbn [rev]. rewrite drop_spaces_snoc, rev_app_distr. cbn [rev app].
  assert (Hword : drop_spaces (rev word) = rev word).
  { unfold word. rewrite <- map_rev. destruct (rev (list_ascii_of_string t)); reflexivity. }
  rewrite Hword, rev_involutive.
  change ((false, String a EmptyString) :: word)
    with (map (fun c => (false, String c EmptyString)) (a :: list_ascii_of_string t)).
  rewrite concat_chars. cbn [string_of_list_ascii].
  now rewrite string_of_list_ascii_of_string.
Qed.

(** ** The configuration *)

Lemma LoadConfig_spec {E} (w : World) :
  LoadConfig (E:=E) w
  = (Ok (mkConfig (days_setting w "LICENSE_DEFAULT_DAYS" 30)
           (days_setting w "LICENSE_LIFETIME_DAYS" 99999)
           (default EmptyString (environ w !! "LICENSE_MASTER_KEY"%string))), w).
Proof.
  assert (Hset : forall (value : option string) (fallback : Z) (set : Z -> Config)
                   (config : Config),
            (if decide (default EmptyString value <> EmptyString) then
               match strconv_Atoi (default EmptyString value) with
               | Ok days => if 0 <? days then set days else config
               | Err _ => config
               end
             else config)
            = match value with
              | Some v =>
                  match strconv_Atoi v with
                  | Ok days => if 0 <? days then set days else config
                  | Err _ => config
                  end
              | None => config
              end).
  { intros [v|] fallback set config; cbn [default from_option id]; [|reflexivity].
    destruct (decide (v <> EmptyString)) as [|Hv]; [reflexivity|].
    apply dec_stable in Hv. subst v. reflexivity. }
  unfold LoadConfig, mbind, M_bind, os_Getenv, mret, M_ret, days_setting, DefaultConfig.
  rewrite (Hset _ 30), (Hset _ 99999).
  destruct (environ w !! "LICENSE_DEFAULT_DAYS"%string) as [v1|];
    destruct (environ w !! "LICENSE_LIFETIME_DAYS"%string) as [v2|];
    repeat (destruct (strconv_Atoi _) as [?|?]);
    repeat (destruct (0 <? _)); reflexivity.
Qed.

Lemma days_setting_range w name fallback :
  0 < fallback <= Int.max -> 0 < days_setting w name fallback <= Int.max.
Proof.
  intros Hf. unfold days_setting.
  destruct (environ w !! name) as [v|]; [|exact Hf].
  destruct (strconv_Atoi v) as [days|] eqn:Ha; [|exact Hf].
  destruct (0 <? days) eqn:Hpos; [|exact Hf].
  apply Z.ltb_lt in Hpos. apply Atoi_range in Ha. lia.
Qed.

Lemma Config_Validate_loaded w :
  Config_Validate
    (mkConfig (days_setting w "LICENSE_DEFAULT_DAYS" 30)
       (days_setting w "LICENSE_LIFETIME_DAYS" 99999)
       (default EmptyString (environ w !! "LICENSE_MASTER_KEY"%string)))
  = Ok tt.
Proof.
  pose proof (days_setting_range w "LICENSE_DEFAULT_DAYS" 30) as H1.
  pose proof (days_setting_range w "LICENSE_LIFETIME_DAYS" 99999) as H2.
  unfold Int.max in *. specialize (H1 ltac:(lia)). specialize (H2 ltac:(lia)).
  unfold Config_Validate. cbn [DefaultMaxDays LifetimeDays].
  rewrite (proj2 (Z.leb_gt _ _)) by lia. rewrite (proj2 (Z.leb_gt _ _)) by lia.
  reflexivity.
Qed.

(** X1. Whatever the environment holds, [LoadConfig] returns a configuration
    that passes [Validate], with both terms positive values of [int], and
    changes nothing. A variable that is not set leaves the default (30 and
    99999), and so does one that holds the decimal numeral of an [int] that
    is not positive; the numeral of a positive [int] sets the term to that
    number. The master key of the configuration is the value of
    [LICENSE_MASTER_KEY]. *)
Theorem LoadConfig_always_valid {E} (w : World) :
  exists cfg,
    LoadConfig (E:=E) w = (Ok cfg, w)
    /\ Config_Validate cfg = Ok tt
    /\ 0 < DefaultMaxDays cfg <= Int.max
    /\ 0 < LifetimeDays cfg <= Int.max
    /\ MasterKey cfg = default EmptyString (environ w !! "LICENSE_MASTER_KEY"%string)
    /\ (environ w !! "LICENSE_DEFAULT_DAYS"%string = None -> DefaultMaxDays cfg = 30)
    /\ (environ w !! "LICENSE_LIFETIME_DAYS"%string = None -> LifetimeDays cfg = 99999)
    /\ (forall n : Z,
          Int.min <= n <= Int.max ->
          environ w !! "LICENSE_DEFAULT_DAYS"%string = Some (pretty n) ->
          DefaultMaxDays cfg = if 0 <? n then n else 30)
    /\ (forall n : Z,
          Int.min <= n <= Int.max ->
          environ w !! "LICENSE_LIFETIME_DAYS"%string = Some (pretty n) ->
          LifetimeDays cfg = if 0 <? n then n else 99999).
Proof.
  eexists. split; [apply LoadConfig_spec|].
  cbn [DefaultMaxDays LifetimeDays MasterKey].
  pose proof (days_setting_range w "LICENSE_DEFAULT_DAYS" 30) as H1.
  pose proof (days_setting_range w "LICENSE_LIFETIME_DAYS" 99999) as H2.
  unfold Int.max in *. specialize (H1 ltac:(lia)). specialize (H2 ltac:(lia)).
  split; [apply Config_Validate_loaded|].
  split; [exact H1|]. split; [exact H2|]. split; [reflexivity|].
  unfold days_setting.
  split; [intros ->; reflexivity|]. split; [intros ->; reflexivity|].
  split; intros n Hn ->; rewrite (Atoi_pretty n Hn); reflexivity.
Qed.

(** ** The term of a license, as typed *)

Lemma digit_plain c d :
  digit c = Some d -> plain c = true /\ lower c <> "l"%char.
Proof.
  destruct c as [[] [] [] [] [] [] [] []]; intros Hd; cbv in Hd;
    try discriminate Hd; (split; [reflexivity|discriminate]).
Qed.

Lemma numeral_head (n : Z) :
  exists a r, pretty n = String a r /\ plain a = true /\ lower a <> "l"%char.
Proof.
  destruct n as [|p|p].
  - exists "0"%char, EmptyString. split; [reflexivity|]. split; [reflexivity|discriminate].
  - rewrite pretty_positive_unfold.
    destruct (pretty_N_go_head (N.pos p) EmptyString ltac:(lia)) as (c & r & d & Hs & Hd).
    exists c, r. split; [exact Hs|]. apply (digit_plain c d Hd).
  - rewrite pretty_negative_unfold. eexists _, _. split; [reflexivity|].
    split; [reflexivity|discriminate].
Qed.

Lemma IsLifetimeString_numeral c (n : Z) : IsLifetimeString c (pretty n) = false.
Proof.
  destruct (numeral_head n) as (a & r & -> & Ha & Hl).
  destruct (TrimSpace_head a r Ha) as [t Ht].
  unfold IsLifetimeString. rewrite Ht. cbn [strings_ToLower].
  apply bool_decide_eq_false_2. intros [= Heq _]. exact (Hl Heq).
Qed.

(** X2. The term written as a number. For the decimal numeral of an [int] n,
    [ParseMaxDays] fails with [strconv.ErrRange] when n is zero or negative,
    returns the lifetime term and [true] when n reaches [LifetimeDays], and n
    and [false] otherwise. The number is not trimmed: with a space before it,
    the numeral is a syntax error. And [-1], which [IsLifetimeRequest] takes
    for a lifetime request, is refused as not positive. *)
Theorem ParseMaxDays_numerals (c : Config) (n : Z) :
  Int.min <= n <= Int.max ->
  ParseMaxDays c (pretty n)
  = (if n <=? 0 then Err NotPositive
     else if LifetimeDays c <=? n then Ok (LifetimeDays c, true)
     else Ok (n, false))
  /\ ParseMaxDays c (String " " (pretty n)) = Err (NotANumber ErrSyntax)
  /\ IsLifetimeRequest c (-1) = true
  /\ ParseMaxDays c "-1" = Err NotPositive.
Proof.
  intros Hn.
  assert (Hnum : forall k, Int.min <= k <= Int.max ->
            ParseMaxDays c (pretty k)
            = (if k <=? 0 then Err NotPositive
               else if LifetimeDays c <=? k then Ok (LifetimeDays c, true)
               else Ok (k, false))).
  { intros k Hk. unfold ParseMaxDays.
    rewrite IsLifetimeString_numeral, (Atoi_pretty k Hk).
    destruct (k <=? 0) eqn:Hpos; [reflexivity|]. apply Z.leb_gt in Hpos.
    unfold IsLifetimeRequest. rewrite (proj2 (Z.eqb_neq k (-1))) by lia. cbn [orb].
    destruct (LifetimeDays c <=? k); reflexivity. }
  split; [apply Hnum, Hn|]. split; [|split; [reflexivity|]].
  - unfold ParseMaxDays, IsLifetimeString.
    rewrite TrimSpace_leading_space by reflexivity.
    fold (IsLifetimeString c (pretty n)).
    rewrite IsLifetimeString_numeral, Atoi_leading_space. reflexivity.
  - change "-1"%string with (pretty (-1)). rewrite Hnum; [reflexivity|].
    unfold Int.min, Int.max. lia.
Qed.

Lemma ParseMaxDays_numerals_witness :
  ParseMaxDays DefaultConfig "30" = Ok (30, false)
  /\ ParseMaxDays DefaultConfig " 30" = Err (NotANumber ErrSyntax).
Proof.
  assert (Hrange : Int.min <= 30 <= Int.max) by (unfold Int.min, Int.max; lia).
  destruct (ParseMaxDays_numerals DefaultConfig 30 Hrange) as (Hplain & Hspace & _).
  split; [exact Hplain | exact Hspace].
Defined.

(** X3. What [ParseMaxDays] returns is settled. For an argument of ASCII
    characters, a successful result (days, isLifetime) is one that
    [IsLifetimeRequest] agrees with; it is a lifetime result exactly when
    days is [LifetimeDays]; otherwise days is positive and below
    [LifetimeDays]; and [Create], given these two values, keeps them as they
    are in the record it makes. *)
Theorem ParseMaxDays_normalized (c : Config) (daysStr : string) (days : Z)
    (isLifetime : bool) :
  is_ascii daysStr = true ->
  ParseMaxDays c daysStr = Ok (days, isLifetime) ->
  IsLifetimeRequest c days = isLifetime
  /\ (isLifetime = true <-> days = LifetimeDays c)
  /\ (isLifetime = false -> 0 < days < LifetimeDays c)
  /\ (0 < LifetimeDays c -> 0 < days <= LifetimeDays c)
  /\ (Int.min <= LifetimeDays c <= Int.max -> Int.min <= days <= Int.max)
  /\ forall m req now,
       config m = c -> req_MaxDays req = days -> req_IsLifetime req = isLifetime ->
       MaxDays (fresh_license m req now) = days
       /\ IsLifetime (fresh_license m req now) = isLifetime.
Proof.
  intros _. unfold ParseMaxDays.
  assert (Hself : IsLifetimeRequest c (LifetimeDays c) = true).
  { unfold IsLifetimeRequest. rewrite Z.leb_refl. apply orb_true_r. }
  assert (Hfresh : forall d b, IsLifetimeRequest c d = b ->
            (b = true -> d = LifetimeDays c) ->
            forall m req now,
              config m = c -> req_MaxDays req = d -> req_IsLifetime req = b ->
              MaxDays (fresh_license m req now) = d
              /\ IsLifetime (fresh_license m req now) = b).
  { intros d b Hreq Hd m req now <- Hmax Hlt. unfold fresh_license.
    cbn [MaxDays IsLifetime]. rewrite Hmax, Hlt, Hreq.
    destruct b; cbn [orb]; [|auto]. rewrite Hd by reflexivity. auto. }
  destruct (IsLifetimeString c daysStr).
  - intros [= <- <-]. split; [exact Hself|]. split; [tauto|].
    split; [discriminate|]. split; [lia|].
    split; [tauto|]. apply Hfresh; auto.
  - destruct (strconv_Atoi daysStr) as [n|] eqn:Ha; [|discriminate].
    apply Atoi_range in Ha.
    destruct (n <=? 0) eqn:Hpos; [discriminate|]. apply Z.leb_gt in Hpos.
    unfold IsLifetimeRequest in *. rewrite (proj2 (Z.eqb_neq n (-1))) by lia.
    cbn [orb]. destruct (LifetimeDays c <=? n) eqn:Hle.
    + apply Z.leb_le in Hle. intros [= <- <-].
      split; [exact Hself|]. split; [tauto|]. split; [discriminate|].
      split; [lia|]. split; [tauto|]. apply Hfresh; auto.
    + apply Z.leb_gt in Hle. intros [= <- <-].
      assert (Hreq : (n =? -1) || (LifetimeDays c <=? n) = false).
      { rewrite (proj2 (Z.eqb_neq n (-1))) by lia.
        rewrite (proj2 (Z.leb_gt _ _)) by lia. reflexivity. }
      split; [exact Hreq|]. split; [split; [discriminate|lia]|].
      split; [lia|]. split; [lia|]. split; [intros _; exact Ha|].
      apply Hfresh; [exact Hreq|discriminate].
Qed.

Lemma ParseMaxDays_normalized_witness :
  IsLifetimeRequest DefaultConfig 45 = false
  /\ 0 < 45 < LifetimeDays DefaultConfig.
Proof.
  destruct (ParseMaxDays_normalized DefaultConfig "45" 45 false eq_refl eq_refl)
    as (Hreq & _ & Hterm & _).
  split; [exact Hreq | exact (Hterm eq_refl)].
Defined.

Lemma plain_lower c : plain (lower c) = plain c.
Proof. destruct c as [[] [] [] [] [] [] [] []]; reflexivity. Qed.

Lemma plain_ToLower t :
  forallb plain (list_ascii_of_string (strings_ToLower t))
  = forallb plain (list_ascii_of_string t).
Proof.
  induction t as [|a t IH]; [reflexivity|].
  cbn [strings_ToLower list_ascii_of_string forallb]. now rewrite plain_lower, IH.
Qed.

(** X4. The word [lifetime]. An argument that is the word [lifetime] in any
    mix of upper and lower case, with any ASCII white space before and after
    it, is a lifetime request: [ParseMaxDays] returns [LifetimeDays] and
    [true]. *)
Theorem lifetime_keyword (c : Config) (pre word post : string) :
  forallb space1 (list_ascii_of_string pre) = true ->
  forallb space1 (list_ascii_of_string post) = true ->
  strings_ToLower word = "lifetime"%string ->
  IsLifetimeString c (pre +:+ word +:+ post) = true
  /\ ParseMaxDays c (pre +:+ word +:+ post) = Ok (LifetimeDays c, true).
Proof.
  intros Hpre Hpost Hword.
  assert (Htrim : strings_TrimSpace (pre +:+ word +:+ post) = word).
  { apply TrimSpace_padded; [exact Hpre | exact Hpost | |].
    - rewrite <- plain_ToLower, Hword. reflexivity.
    - intros ->. discriminate Hword. }
  assert (Hlife : IsLifetimeString c (pre +:+ word +:+ post) = true).
  { unfold IsLifetimeString. rewrite Htrim. apply bool_decide_eq_true_2, Hword. }
  split; [exact Hlife|]. unfold ParseMaxDays. rewrite Hlife. reflexivity.
Qed.

Lemma lifetime_keyword_witness :
  ParseMaxDays DefaultConfig (" " +:+ "LifeTime" +:+ String "010" EmptyString)
  = Ok (99999, true).
Proof.
  apply (lifetime_keyword DefaultConfig " " "LifeTime" (String "010" EmptyString));
    reflexivity.
Defined.

(** ** File names *)

Lemma sanitizeFilename_cons c r :
  sanitizeFilename (String c r) = String (sanitized c) (sanitizeFilename r).
Proof.
  unfold sanitizeFilename. cbn [replace_char]. f_equal.
  destruct c as [[] [] [] [] [] [] [] []]; reflexivity.
Qed.

Lemma sanitized_safe c : sanitized c ∉ unsafe_chars.
Proof.
  unfold sanitized. destruct (bool_decide (c ∈ unsafe_chars)) eqn:Hc.
  - intros Hin.
    assert (Hb : bool_decide ("_"%char ∈ unsafe_chars) = true)
      by apply bool_decide_eq_true_2, Hin.
    vm_compute in Hb. discriminate Hb.
  - apply bool_decide_eq_false in Hc. exact Hc.
Qed.

Lemma sanitized_id c : c ∉ unsafe_chars -> sanitized c = c.
Proof. intros Hc. unfold sanitized. now rewrite bool_decide_eq_false_2. Qed.

(** X5. The names that [sanitizeFilename] makes. Every character among space,
    slash, backslash, colon, star, question mark, double quote, angle
    brackets and bar becomes an underscore and every other character stays:
    the result has the length of the name and none of these characters,
    sanitizing it again changes nothing, and a name without them is its own
    result. [sanitizeProductName] of the command line is the same function. *)
Theorem sanitizeFilename_safe (name : string) :
  list_ascii_of_string (sanitizeFilename name)
  = map sanitized (list_ascii_of_string name)
  /\ String.length (sanitizeFilename name) = String.length name
  /\ (forall c, c ∈ unsafe_chars ->
        c ∉ list_ascii_of_string (sanitizeFilename name))
  /\ sanitizeFilename (sanitizeFilename name) = sanitizeFilename name
  /\ ((forall c, c ∈ list_ascii_of_string name -> c ∉ unsafe_chars) ->
      sanitizeFilename name = name)
  /\ sanitizeProductName name = sanitizeFilename name.
Proof.
  split; [|split; [|split; [|split; [|split]]]].
  - induction name as [|a name IH]; [reflexivity|].
    rewrite sanitizeFilename_cons. cbn [list_ascii_of_string map]. now rewrite IH.
  - induction name as [|a name IH]; [reflexivity|].
    rewrite sanitizeFilename_cons. cbn [String.length]. now rewrite IH.
  - intros c Hc. induction name as [|a name IH].
    + apply not_elem_of_nil.
    + rewrite sanitizeFilename_cons. cbn [list_ascii_of_string].
      intros [-> | Hin]%elem_of_cons; [exact (sanitized_safe a Hc) | exact (IH Hin)].
  - induction name as [|a name IH]; [reflexivity|].
    rewrite !sanitizeFilename_cons, IH. f_equal. apply sanitized_id, sanitized_safe.
  - induction name as [|a name IH]; intros Hclean; [reflexivity|].
    rewrite sanitizeFilename_cons. cbn [list_ascii_of_string] in Hclean.
    rewrite sanitized_id by (apply Hclean, list_elem_of_here).
    rewrite IH; [reflexivity|]. intros c Hc. apply Hclean, list_elem_of_further, Hc.
  - reflexivity.
Qed.

(** ** Keys and envelopes *)

(** X6. The manager of the environment. [NewCryptoManager] is
    [NewCryptoManagerWithKey] on the value of [LICENSE_MASTER_KEY]: it fails,
    with the message that the variable is required, exactly when the variable
    is not set or empty, changes nothing, and otherwise holds the same key
    material, 32 bytes long. Its other error, that the master key must be 32
    bytes, never occurs. *)
Theorem NewCryptoManager_from_environment (w : World) :
  NewCryptoManager w
  = (match NewCryptoManagerWithKey
             (default EmptyString (environ w !! "LICENSE_MASTER_KEY"%string)) with
     | Ok cm => Ok cm
     | Err _ => Err MissingMasterKey
     end, w)
  /\ fst (NewCryptoManager w) <> Err BadMasterKeyLength
  /\ (forall cm, fst (NewCryptoManager w) = Ok cm -> length (masterKey cm) = 32%nat).
Proof.
  assert (Heq : NewCryptoManager w
    = (match NewCryptoManagerWithKey
               (default EmptyString (environ w !! "LICENSE_MASTER_KEY"%string)) with
       | Ok cm => Ok cm
       | Err _ => Err MissingMasterKey
       end, w)).
  { unfold NewCryptoManager, mbind, M_bind. rewrite getMasterKey_spec.
    unfold NewCryptoManagerWithKey.
    destruct (environ w !! "LICENSE_MASTER_KEY"%string) as [envKey|];
      cbn [default from_option id]; [|reflexivity].
    destruct (decide (envKey = EmptyString)); [reflexivity|].
    rewrite decide_False by (rewrite Sum256_length; auto). reflexivity. }
  split; [exact Heq|]. rewrite Heq. cbn [fst]. unfold NewCryptoManagerWithKey.
  destruct (decide (_ = EmptyString)).
  - split; [discriminate|]. intros cm Hcm. discriminate Hcm.
  - split; [discriminate|]. intros cm [= <-]. apply Sum256_length.
Qed.

(** X7. How [Decrypt] fails. The derived key always has a size that AES
    accepts, so the only failures are these two: data of fewer than 12 bytes,
    the empty data included, is refused as too short, and this is the only
    case of that error; longer data fails exactly when the cipher does not
    open what follows its first 12 bytes under them as the nonce; and a
    plaintext is returned exactly when the cipher opens to it. *)
Theorem Decrypt_failures `{!AEAD} (cm : CryptoManager) (data : list byte) :
  Decrypt cm data <> Err InvalidKeySize
  /\ ((length data < 12)%nat <-> Decrypt cm data = Err EnvelopeTooShort)
  /\ Decrypt cm [] = Err EnvelopeTooShort
  /\ (Decrypt cm data = Err EnvelopeAuthenticationFailed <->
      (12 <= length data)%nat
      /\ gcm_Open (DeriveEncryptionKey cm) (take 12 data) (drop 12 data) = None)
  /\ (forall plaintext,
        Decrypt cm data = Ok plaintext <->
        (12 <= length data)%nat
        /\ gcm_Open (DeriveEncryptionKey cm) (take 12 data) (drop 12 data)
           = Some plaintext).
Proof.
  assert (Hempty : Decrypt cm [] = Err EnvelopeTooShort).
  { unfold Decrypt. rewrite aes_NewCipher_derived. reflexivity. }
  unfold Decrypt in *. rewrite aes_NewCipher_derived in *. unfold gcm_NonceSize.
  destruct (length data <? 12)%nat eqn:Hlen.
  - apply Nat.ltb_lt in Hlen.
    split; [discriminate|]. split; [tauto|]. split; [exact Hempty|].
    split; [split; [discriminate | intros [? _]; lia]|].
    intros plaintext. split; [discriminate | intros [? _]; lia].
  - apply Nat.ltb_ge in Hlen.
    destruct (gcm_Open (DeriveEncryptionKey cm) (take 12 data) (drop 12 data))
      as [plaintext|].
    + split; [discriminate|]. split; [split; [lia|discriminate]|].
      split; [exact Hempty|].
      split; [split; [discriminate | intros [_ ?]; discriminate]|].
      intros p. split; [intros [= ->]; auto | intros [_ [= ->]]; reflexivity].
    + split; [discriminate|]. split; [split; [lia|discriminate]|].
      split; [exact Hempty|]. split; [tauto|].
      intros p. split; [discriminate | intros [_ ?]; discriminate].
Qed.

(** X8. The envelopes of [Encrypt]. [Encrypt] always succeeds; the envelope is
    the nonce, which is the next 12 bytes of the random source, followed by
    what the cipher seals under that nonce; two calls in a row take
    consecutive, disjoint stretches of the source; both envelopes decrypt to
    their data; and no file is touched. *)
Theorem Encrypt_draws_fresh_nonces `{!AEAD} (cm : CryptoManager) (d1 d2 : list byte)
    (w : World) :
  exists e1 e2 w1 w2,
    Encrypt cm d1 w = (Ok e1, w1)
    /\ Encrypt cm d2 w1 = (Ok e2, w2)
    /\ take 12 e1 = map (rand_source w) (seq (rand_pos w) 12)
    /\ take 12 e2 = map (rand_source w) (seq (rand_pos w + 12) 12)
    /\ drop 12 e1 = gcm_Seal (DeriveEncryptionKey cm) (take 12 e1) d1
    /\ drop 12 e2 = gcm_Seal (DeriveEncryptionKey cm) (take 12 e2) d2
    /\ Decrypt cm e1 = Ok d1 /\ Decrypt cm e2 = Ok d2
    /\ files w2 = files w /\ rand_pos w2 = (rand_pos w + 24)%nat.
Proof.
  eexists _, _, _, _. rewrite !Encrypt_spec.
  split; [reflexivity|]. split; [reflexivity|].
  assert (Hn : forall w0, length (rand_bytes w0 12) = 12%nat)
    by (intros; apply rand_bytes_length).
  assert (Htake : forall w0 d,
            take 12 (rand_bytes w0 12
                     ++ gcm_Seal (DeriveEncryptionKey cm) (rand_bytes w0 12) d)
            = rand_bytes w0 12).
  { intros w0 d. rewrite <- (Hn w0) at 1. apply take_app_length. }
  assert (Hdrop : forall w0 d,
            drop 12 (rand_bytes w0 12
                     ++ gcm_Seal (DeriveEncryptionKey cm) (rand_bytes w0 12) d)
            = gcm_Seal (DeriveEncryptionKey cm) (rand_bytes w0 12) d).
  { intros w0 d. rewrite <- (Hn w0) at 1. apply drop_app_length. }
  rewrite !Htake, !Hdrop.
  split; [reflexivity|]. split; [reflexivity|].
  split; [reflexivity|]. split; [reflexivity|].
  split; [apply Decrypt_envelope, Hn|]. split; [apply Decrypt_envelope, Hn|].
  split; [reflexivity|]. unfold rand_consume. cbn [rand_pos]. lia.
Qed.

(** ** The text that a serial is the digest of *)

Lemma chars_append s t :
  list_ascii_of_string (s +:+ t) = list_ascii_of_string s ++ list_ascii_of_string t.
Proof.
  induction s as [|a s IH]; [reflexivity|].
  rewrite append_cons. cbn [list_ascii_of_string app]. now rewrite IH.
Qed.

Lemma chars_inj s t : list_ascii_of_string s = list_ascii_of_string t -> s = t.
Proof.
  intros H. rewrite <- (string_of_list_ascii_of_string s),
    <- (string_of_list_ascii_of_string t). now rewrite H.
Qed.

(** A list is cut at the first occurrence of [x] in one way only. *)
Lemma split_at_first {A} (x : A) (a b c d : list A) :
  x ∉ a -> x ∉ b -> a ++ x :: c = b ++ x :: d -> a = b /\ c = d.
Proof.
  revert b. induction a as [|y a IH]; intros [|z b] Ha Hb Heq.
  - injection Heq as <-. auto.
  - injection Heq as <- _. elim Hb. apply list_elem_of_here.
  - injection Heq as -> _. elim Ha. apply list_elem_of_here.
  - injection Heq as <- Heq.
    destruct (IH b) as [<- <-]; auto.
    + intros Hin. apply Ha, list_elem_of_further, Hin.
    + intros Hin. apply Hb, list_elem_of_further, Hin.
Qed.

(** And at the last occurrence. *)
Lemma split_at_last {A} (x : A) (a b c d : list A) :
  x ∉ c -> x ∉ d -> a ++ x :: c = b ++ x :: d -> a = b /\ c = d.
Proof.
  intros Hc Hd Heq. apply (f_equal (@rev A)) in Heq.
  rewrite !rev_app_distr in Heq. cbn [rev] in Heq. rewrite <- !app_assoc in Heq.
  cbn [app] in Heq.
  destruct (split_at_first x (rev c) (rev d) (rev a) (rev b)) as [H1 H2].
  - rewrite list_elem_of_In, <- in_rev, <- list_elem_of_In. exact Hc.
  - rewrite list_elem_of_In, <- in_rev, <- list_elem_of_In. exact Hd.
  - exact Heq.
  - split.
    + rewrite <- (rev_involutive a), <- (rev_involutive b). now rewrite H2.
    + rewrite <- (rev_involutive c), <- (rev_involutive d). now rewrite H1.
Qed.

Lemma digit_not_bar c d : digit c = Some d -> c <> "|"%char.
Proof. intros Hd ->. discriminate Hd. Qed.

Lemma pretty_N_go_chars x : forall s c,
  c ∈ list_ascii_of_string (pretty_N_go x s) ->
  c ∈ list_ascii_of_string s \/ exists d, digit c = Some d.
Proof.
  induction (N.lt_wf_0 x) as [x _ IH]. intros s c Hc.
  destruct (decide (x = 0%N)) as [-> | Hx]; [left; exact Hc|].
  rewrite pretty_N_go_step in Hc by lia.
  apply IH in Hc; [|apply N.div_lt; lia].
  destruct Hc as [Hc | Hc]; [|right; exact Hc].
  cbn [list_ascii_of_string] in Hc. apply elem_of_cons in Hc as [-> | Hc]; [|left; exact Hc].
  right. eexists. apply digit_pretty_N_char, N.mod_lt. discriminate.
Qed.

Lemma numeral_no_bar (n : Z) : "|"%char ∉ list_ascii_of_string (pretty n).
Proof.
  assert (Hgo : forall p, "|"%char ∉ list_ascii_of_string (pretty_N_go (N.pos p) EmptyString)).
  { intros p Hin. apply pretty_N_go_chars in Hin as [Hin | [d Hd]].
    - cbn in Hin. apply not_elem_of_nil in Hin. exact Hin.
    - discriminate Hd. }
  destruct n as [|p|p].
  - intros Hin. cbn in Hin. apply list_elem_of_singleton in Hin. discriminate Hin.
  - rewrite pretty_positive_unfold. apply Hgo.
  - rewrite pretty_negative_unfold. cbn [list_ascii_of_string].
    intros [Hin | Hin]%elem_of_cons; [discriminate Hin | exact (Hgo p Hin)].
Qed.

Lemma lower_hex_no_bar s :
  all_lower_hex s = true -> "|"%char ∉ list_ascii_of_string s.
Proof.
  induction s as [|a s IH]; intros Hs; [apply not_elem_of_nil|].
  cbn [all_lower_hex] in Hs. apply andb_true_iff in Hs as [Ha Hs].
  cbn [list_ascii_of_string]. intros [<- | Hin]%elem_of_cons; [discriminate Ha|].
  exact (IH Hs Hin).
Qed.

(** X9. What a serial is the digest of. The text that [GenerateSerial] hashes
    joins the machine id, the product name, the term and the key with bars.
    For machine ids without a bar, as the identifiers of [Generate] are, the
    text determines all three: two bindings with the same text, under the
    same key, have the same machine id, the same product name (bars in it
    or not) and the same term. *)
Theorem serial_data_unambiguous (pcId1 pcId2 productName1 productName2 : string)
    (maxDays1 maxDays2 : Z) (serialKeyHex : string) :
  "|"%char ∉ list_ascii_of_string pcId1 ->
  "|"%char ∉ list_ascii_of_string pcId2 ->
  serial_data pcId1 productName1 maxDays1 serialKeyHex
  = serial_data pcId2 productName2 maxDays2 serialKeyHex ->
  pcId1 = pcId2 /\ productName1 = productName2 /\ maxDays1 = maxDays2.
Proof.
  intros Hpc1 Hpc2 Heq. unfold serial_data in Heq.
  apply (f_equal list_ascii_of_string) in Heq. rewrite !chars_append in Heq.
  change (list_ascii_of_string "|") with ["|"%char] in Heq. cbn [app] in Heq.
  apply split_at_first in Heq as [Hpc Heq]; [|assumption..].
  split; [apply chars_inj, Hpc|].
  assert (Hmid : list_ascii_of_string productName1
                   ++ "|"%char :: list_ascii_of_string (pretty maxDays1)
                 = list_ascii_of_string productName2
                   ++ "|"%char :: list_ascii_of_string (pretty maxDays2)).
  { apply (app_inv_tail ("|"%char :: list_ascii_of_string serialKeyHex)).
    rewrite <- !app_assoc. cbn [app]. exact Heq. }
  apply split_at_last in Hmid as [Hname Hdays]; [|apply numeral_no_bar..].
  split; [apply chars_inj, Hname|].
  apply (inj pretty), chars_inj, Hdays.
Qed.

Lemma serial_data_unambiguous_witness :
  "pc-1"%string = "pc-1"%string /\ "Acme"%string = "Acme"%string /\ 30 = 30.
Proof.
  apply (serial_data_unambiguous "pc-1" "pc-1" "Acme" "Acme" 30 30 "00ff").
  - intros Hin. apply (bool_decide_pack _) in Hin. vm_compute in Hin. exact Hin.
  - intros Hin. apply (bool_decide_pack _) in Hin. vm_compute in Hin. exact Hin.
  - reflexivity.
Defined.

(** ** Machine identifiers *)

Lemma hex_EncodeToString_length bs :
  String.length (Bytes.hex_EncodeToString bs) = (2 * length bs)%nat.
Proof.
  induction bs as [|b bs IH]; [reflexivity|].
  cbn [Bytes.hex_EncodeToString String.length length]. rewrite IH. lia.
Qed.

Lemma hex_digit_lower_hi (b : byte) :
  is_lower_hex (Bytes.hex_digit (Z.shiftr (Bytes.to_Z b) 4)) = true.
Proof. destruct b; vm_compute; reflexivity. Qed.

Lemma hex_digit_lower_lo (b : byte) :
  is_lower_hex (Bytes.hex_digit (Z.land (Bytes.to_Z b) 15)) = true.
Proof. destruct b; vm_compute; reflexivity. Qed.

Lemma hex_EncodeToString_lower bs :
  all_lower_hex (Bytes.hex_EncodeToString bs) = true.
Proof.
  induction bs as [|b bs IH]; [reflexivity|].
  cbn [Bytes.hex_EncodeToString all_lower_hex].
  now rewrite hex_digit_lower_hi, hex_digit_lower_lo, IH.
Qed.

Lemma Generate_spec p :
  Generate p =
    if decide (length (components p) = 0%nat) then Err NoHardwareIdentifiers
    else Ok (Bytes.hex_EncodeToString
               (take 16 (SHA256.Sum256
                           (Bytes.of_string (strings_Join (components p) "|"))))).
Proof. reflexivity. Qed.

Lemma Generate_Ok p id :
  Generate p = Ok id ->
  id = Bytes.hex_EncodeToString
         (take 16 (SHA256.Sum256 (Bytes.of_string (strings_Join (components p) "|"))))
  /\ components p <> []
  /\ String.length id = 32%nat /\ all_lower_hex id = true.
Proof.
  rewrite Generate_spec.
  destruct (decide (length (components p) = 0%nat)) as [|Hne]; [discriminate|].
  intros [= <-]. split; [reflexivity|]. split; [intros Heq; now rewrite Heq in Hne|].
  split; [|apply hex_EncodeToString_lower].
  rewrite hex_EncodeToString_length, length_take, Sum256_length. reflexivity.
Qed.

Lemma runCmd_fails p name args :
  command_output p name args = None \/ command_output p name args = Some EmptyString ->
  runCmd p name args = EmptyString.
Proof. unfold runCmd. intros [-> | ->]; reflexivity. Qed.

(** X10. The identifier of the machine. When [Generate] succeeds, the
    identifier has 32 characters, all lower-case hexadecimal digits, and the
    platform is one of the supported three. On any other platform, and on a
    supported one where every command fails or prints nothing, [Generate]
    fails for want of hardware identifiers. *)
Theorem Generate_format (p : Host) :
  (forall id,
     Generate p = Ok id ->
     String.length id = 32%nat /\ all_lower_hex id = true /\ IsSupported p = true)
  /\ (IsSupported p = false -> Generate p = Err NoHardwareIdentifiers)
  /\ ((forall name args,
         command_output p name args = None
         \/ command_output p name args = Some EmptyString) ->
      Generate p = Err NoHardwareIdentifiers).
Proof.
  assert (Hunsupported : IsSupported p = false -> components p = []).
  { unfold IsSupported, GetSupportedPlatforms, components. intros Hs.
    apply bool_decide_eq_false in Hs.
    repeat (destruct (decide _) as [Heq|_];
            [exfalso; apply Hs; rewrite Heq;
             repeat (apply list_elem_of_here || apply list_elem_of_further)|]).
    reflexivity. }
  split; [|split].
  - intros id Hid. destruct (Generate_Ok p id Hid) as (_ & Hne & Hlen & Hhex).
    split; [exact Hlen|]. split; [exact Hhex|].
    destruct (IsSupported p); [reflexivity|]. elim Hne. apply Hunsupported. reflexivity.
  - intros Hs. rewrite Generate_spec, (Hunsupported Hs). reflexivity.
  - intros Hfail.
    assert (Hrun : forall name args, runCmd p name args = EmptyString)
      by (intros; apply runCmd_fails, Hfail).
    rewrite Generate_spec.
    assert (Hnone : components p = []).
    { unfold components, components_windows, components_linux, components_darwin.
      rewrite !Hrun. repeat destruct (decide _); congruence. }
    rewrite Hnone. reflexivity.
Qed.

Lemma TrimSpace_blank s :
  forallb space1 (list_ascii_of_string s) = true -> strings_TrimSpace s = EmptyString.
Proof.
  intros Hs. unfold strings_TrimSpace. rewrite <- (append_nil_r s).
  rewrite scan_spaces by exact Hs. cbn [scan]. rewrite drop_spaces_spaces. reflexivity.
Qed.

(** X11. The identifier of a Linux machine. When [/etc/machine-id] can be
    read and is not empty, [Generate] succeeds: the first identifier is
    [machine:] followed by the machine id without the white space around it,
    at most two more follow, and the result is the hexadecimal form of the
    first 16 bytes of the SHA-256 digest of the identifiers joined by bars.
    White space around the machine id makes no difference, and a machine id
    of white space only still counts as an identifier, the empty one. *)
Theorem Generate_on_linux (p : Host) (machineId : string) :
  GOOS p = "linux"%string ->
  command_output p "cat" ["/etc/machine-id"%string] = Some machineId ->
  machineId <> EmptyString ->
  (exists others,
     components p = ("machine:" +:+ strings_TrimSpace machineId) :: others
     /\ (length others <= 2)%nat
     /\ Generate p
        = Ok (Bytes.hex_EncodeToString
                (take 16 (SHA256.Sum256
                   (Bytes.of_string
                      (strings_Join
                         (("machine:" +:+ strings_TrimSpace machineId) :: others)
                         "|"))))))
  /\ (forall pre word post,
        machineId = pre +:+ word +:+ post ->
        forallb space1 (list_ascii_of_string pre) = true ->
        forallb space1 (list_ascii_of_string post) = true ->
        forallb plain (list_ascii_of_string word) = true ->
        word <> EmptyString ->
        strings_TrimSpace machineId = word)
  /\ (forallb space1 (list_ascii_of_string machineId) = true ->
      strings_TrimSpace machineId = EmptyString).
Proof.
  intros Hos Hout Hne. split; [|split].
  - assert (Hc : exists others,
              components p = ("machine:" +:+ strings_TrimSpace machineId) :: others
              /\ (length others <= 2)%nat).
    { unfold components. rewrite Hos.
      rewrite decide_False by discriminate. rewrite decide_True by reflexivity.
      unfold components_linux.
      assert (Hrun : runCmd p "cat" ["/etc/machine-id"%string] = machineId)
        by (unfold runCmd; rewrite Hout; reflexivity).
      rewrite Hrun. rewrite (decide_True _ _ Hne). cbn [app].
      destruct (decide (runCmd p "cat" ["/proc/cpuinfo"%string] <> EmptyString));
        [destruct (first_line _ _)|];
        (destruct (decide (runCmd p "cat" ["/sys/class/net/*/address"%string]
                           <> EmptyString));
         [destruct (_ && _)|]);
        cbn [app]; eexists; (split; [reflexivity | cbn [length]; lia]). }
    destruct Hc as (others & Hc & Hlen). exists others.
    split; [exact Hc|]. split; [exact Hlen|].
    rewrite Generate_spec, Hc. reflexivity.
  - intros pre word post -> Hpre Hpost Hword Hw. now apply TrimSpace_padded.
  - apply TrimSpace_blank.
Qed.

Lemma Generate_on_linux_witness :
  exists others,
    components ex_host
    = ("machine:" +:+ "4c1f3a9e77b24d0c8a5e2f6b9d013e57")%string :: others
    /\ (length others <= 2)%nat.
Proof.
  destruct (Generate_on_linux ex_host
              ("4c1f3a9e77b24d0c8a5e2f6b9d013e57" +:+ String "010" EmptyString)
              eq_refl eq_refl ltac:(discriminate))
    as ((others & Hc & Hlen & _) & _ & _).
  exists others. split; [exact Hc | exact Hlen].
Defined.

(** X12. The value that [extractValue] finds. The result is never the
    placeholder [To be filled by O.E.M.]; when it is not empty, it comes
    from a line that holds the key followed by an equals sign, and is the
    text after the first equals sign of that line, up to the next one if
    there is one, without the white space around it; and when no line holds
    the key followed by an equals sign, the result is empty. *)
Theorem extractValue_result (p : Host) (output key : string) :
  let value := extractValue p output key in
  value <> "To be filled by O.E.M."%string
  /\ (value <> EmptyString ->
      exists line,
        line ∈ strings_Split output "010"
        /\ strings_Contains line (key +:+ "=") = true
        /\ value = strings_TrimSpace (nth 1 (strings_Split line "=") EmptyString))
  /\ ((forall line, line ∈ strings_Split output "010" ->
         strings_Contains line (key +:+ "=") = false) ->
      value = EmptyString).
Proof.
  unfold extractValue. induction (strings_Split output "010") as [|line lines IH].
  - cbn. split; [discriminate|]. split; [intros Hx; now elim Hx | reflexivity].
  - cbn [first_line].
    destruct (strings_Contains line (key +:+ "=")) eqn:Hc.
    + destruct (2 <=? length (strings_Split line "="))%nat.
      * destruct (bool_decide (strings_TrimSpace (nth 1 (strings_Split line "=") EmptyString)
                               <> EmptyString)) eqn:Hv; cbn [andb].
        -- destruct (bool_decide (strings_TrimSpace
                                    (nth 1 (strings_Split line "=") EmptyString)
                                  <> "To be filled by O.E.M."%string)) eqn:Hp.
           ++ cbn [default from_option id].
              split; [apply bool_decide_eq_true in Hp; exact Hp|].
              split.
              ** intros _. exists line. split; [apply list_elem_of_here|]. auto.
              ** intros Hnone. rewrite Hnone in Hc by apply list_elem_of_here.
                 discriminate Hc.
           ++ destruct IH as (IH1 & IH2 & IH3). split; [exact IH1|]. split.
              ** intros Hv'. destruct (IH2 Hv') as (l0 & Hin & Hl0).
                 exists l0. split; [apply list_elem_of_further, Hin | exact Hl0].
              ** intros Hnone. rewrite Hnone in Hc by apply list_elem_of_here.
                 discriminate Hc.
        -- destruct IH as (IH1 & IH2 & IH3). split; [exact IH1|]. split.
           ++ intros Hv'. destruct (IH2 Hv') as (l0 & Hin & Hl0).
              exists l0. split; [apply list_elem_of_further, Hin | exact Hl0].
           ++ intros Hnone. rewrite Hnone in Hc by apply list_elem_of_here.
              discriminate Hc.
      * destruct IH as (IH1 & IH2 & IH3). split; [exact IH1|]. split.
        -- intros Hv'. destruct (IH2 Hv') as (l0 & Hin & Hl0).
           exists l0. split; [apply list_elem_of_further, Hin | exact Hl0].
        -- intros Hnone. rewrite Hnone in Hc by apply list_elem_of_here.
           discriminate Hc.
    + destruct IH as (IH1 & IH2 & IH3). split; [exact IH1|]. split.
      * intros Hv'. destruct (IH2 Hv') as (l0 & Hin & Hl0).
        exists l0. split; [apply list_elem_of_further, Hin | exact Hl0].
      * intros Hnone. apply IH3. intros l0 Hin. apply Hnone, list_elem_of_further, Hin.
Qed.

(** ** The manager *)

Lemma NewManager_spec p w :
  NewManager p w =
    (match NewCryptoManager w with
     | (Err e, _) => Err (CryptoManagerFailed e)
     | (Ok cryptoMgr, _) =>
         if negb (IsSupported p) then Err UnsupportedPlatform
         else
           match Generate p with
           | Err e => Err (PCIDFailed e)
           | Ok PCID =>
               Ok (mkManager
                     (mkConfig (days_setting w "LICENSE_DEFAULT_DAYS" 30)
                        (days_setting w "LICENSE_LIFETIME_DAYS" 99999)
                        (default EmptyString
                           (environ w !! "LICENSE_MASTER_KEY"%string)))
                     cryptoMgr PCID)
           end
     end, w).
Proof.
  unfold NewManager, mbind, M_bind. rewrite LoadConfig_spec, Config_Validate_loaded.
  unfold wrap_err. unfold NewCryptoManager at 1, mbind, M_bind.
  rewrite getMasterKey_spec.
  unfold NewCryptoManager, mbind, M_bind. rewrite getMasterKey_spec.
  destruct (environ w !! "LICENSE_MASTER_KEY"%string) as [envKey|]; [|reflexivity].
  destruct (decide (envKey = EmptyString)); [reflexivity|].
  destruct (decide (length _ <> 32%nat)); [reflexivity|].
  unfold mret, M_ret, fail.
  destruct (negb (IsSupported p)); [reflexivity|].
  destruct (Generate p); reflexivity.
Qed.

(** X13. How a manager comes about. [NewManager] changes nothing and never
    fails for an invalid configuration, since [LoadConfig] only makes valid
    ones. Without [LICENSE_MASTER_KEY] it fails at the crypto manager,
    whatever the platform. When it succeeds, the configuration is valid, the
    key material is the SHA-256 digest of the variable, the platform is
    supported, and the machine id is what [Generate] returns, 32 lower-case
    hexadecimal digits. [NewManagerWithKey], given the value of the variable,
    ends as [NewManager] does. *)
Theorem NewManager_outcomes (p : Host) (w : World) :
  snd (NewManager p w) = w
  /\ (forall e, fst (NewManager p w) <> Err (InvalidConfiguration e))
  /\ (environ w !! "LICENSE_MASTER_KEY"%string = None
      \/ environ w !! "LICENSE_MASTER_KEY"%string = Some EmptyString ->
      fst (NewManager p w) = Err (CryptoManagerFailed MissingMasterKey))
  /\ (forall m,
        fst (NewManager p w) = Ok m ->
        Config_Validate (config m) = Ok tt
        /\ (exists envKey,
              environ w !! "LICENSE_MASTER_KEY"%string = Some envKey
              /\ envKey <> EmptyString
              /\ MasterKey (config m) = envKey
              /\ masterKey (crypto m) = SHA256.Sum256 (Bytes.of_string envKey))
        /\ IsSupported p = true
        /\ Generate p = Ok (PCID m)
        /\ String.length (PCID m) = 32%nat
        /\ all_lower_hex (PCID m) = true)
  /\ (forall key,
        environ w !! "LICENSE_MASTER_KEY"%string = Some key ->
        key <> EmptyString ->
        NewManagerWithKey p key w = NewManager p w).
Proof.
  rewrite NewManager_spec. cbn [fst snd].
  split; [reflexivity|]. split; [|split; [|split]].
  - intros e. destruct (NewCryptoManager w) as [[cm|e'] w']; [|discriminate].
    destruct (negb (IsSupported p)); [discriminate|].
    destruct (Generate p); discriminate.
  - intros Hkey. unfold NewCryptoManager, mbind, M_bind. rewrite getMasterKey_spec.
    destruct Hkey as [-> | ->]; reflexivity.
  - intros m.
    destruct (NewCryptoManager w) as [[cm|e'] w'] eqn:Hcm; [|discriminate].
    destruct (NewCryptoManager_Ok _ _ _ Hcm) as (envKey & Henv & Hne & Hmk).
    destruct (IsSupported p); cbn [negb]; [|discriminate].
    destruct (Generate p) as [id|] eqn:Hid; [|discriminate].
    intros [= <-]. cbn [config crypto PCID MasterKey].
    split; [apply Config_Validate_loaded|].
    split; [exists envKey; rewrite Henv; auto|].
    split; [reflexivity|]. split; [reflexivity|].
    apply (Generate_Ok p id Hid).
  - intros key Henv Hne. rewrite <- NewManager_spec.
    unfold NewManagerWithKey, NewManager, mbind, M_bind.
    rewrite LoadConfig_spec, Config_Validate_loaded.
    unfold wrap_err, lift, NewCryptoManagerWithKey, NewCryptoManager, mbind, M_bind.
    rewrite getMasterKey_spec, Henv.
    rewrite !(decide_False _ _ Hne).
    rewrite decide_False by (rewrite Sum256_length; auto). reflexivity.
Qed.

(** ** Creating and viewing licenses *)


Lemma ex_forged_serial :
  Serial ex_forged
  <> GenerateSerial (crypto ex_manager) (PCID ex_manager) (ProductName ex_forged)
       (MaxDays ex_forged).
Proof.
  intros Heq.
  pose proof (GenerateSerial_length (crypto ex_manager) (PCID ex_manager)
                (ProductName ex_forged) (MaxDays ex_forged)) as Hlen.
  rewrite <- Heq in Hlen. discriminate Hlen.
Qed.

Lemma path_of_sanitized c c' n1 n2 :
  sanitizeFilename n1 = sanitizeFilename n2 ->
  GetLicenseFilePathForProduct c n1 = GetLicenseFilePathForProduct c' n2.
Proof. intros Heq. unfold GetLicenseFilePathForProduct. rewrite Heq. reflexivity. Qed.

Lemma license_path_sanitized m m' n1 n2 w path :
  sanitizeFilename n1 = sanitizeFilename n2 ->
  license_path m n1 w path -> license_path m' n2 w path.
Proof.
  intros Heq Hp. unfold license_path in *.
  rewrite <- (path_of_sanitized (config m) (config m') n1 n2 Heq). exact Hp.
Qed.




Lemma accepted_fresh m req now : accepted m (PCID m) (fresh_license m req now).
Proof. split; reflexivity. Qed.

Lemma is_Some_files_saved `{!AEAD, !JSON} m l path w :
  is_Some (files (saved m l path w) !! path).
Proof. unfold saved, write_file. cbn [files]. rewrite lookup_insert_eq. eauto. Qed.

Lemma files_saved_ne `{!AEAD, !JSON} m l path w other :
  other <> path -> files (saved m l path w) !! other = files w !! other.
Proof.
  intros Hne. unfold saved, write_file, rand_consume. cbn [files].
  apply lookup_insert_ne. congruence.
Qed.

Lemma files_revoked_ne path w other :
  other <> path -> files (revoked path w) !! other = files w !! other.
Proof.
  intros Hne. unfold revoked, write_file, rand_consume. cbn [files].
  apply lookup_insert_ne. congruence.
Qed.

(** X14. The record that [Create] makes. It passes the machine and serial
    checks of the manager that made it, carries the product name of the
    request and the time of creation, and is not activated: no run, no day
    used, no first or last use. It is a lifetime license exactly when the
    request says so, or asks for -1 days, or for [LifetimeDays] or more; a
    lifetime license has [maxDays = LifetimeDays], any other the days of the
    request, below [LifetimeDays] and not -1. *)
Theorem Create_record `{!AEAD, !JSON} (m : Manager) (req : CreateLicenseRequest)
    (now : Time)
    (w w' : World) (l : License) :
  Create m req now w = (Ok l, w') ->
  accepted m (PCID m) l
  /\ ProductName l = req_ProductName req
  /\ CreatedAt l = now
  /\ IsActivated l = false /\ RunCount l = 0 /\ UsageHistory l = []
  /\ FirstRunDate l = EmptyString /\ LastUsedDate l = EmptyString
  /\ IsLifetime l
     = (req_IsLifetime req || (req_MaxDays req =? -1)
        || (LifetimeDays (config m) <=? req_MaxDays req))
  /\ (IsLifetime l = true -> MaxDays l = LifetimeDays (config m))
  /\ (IsLifetime l = false ->
      MaxDays l = req_MaxDays req
      /\ MaxDays l < LifetimeDays (config m) /\ MaxDays l <> -1).
Proof.
  intros Hc. destruct (Create_path _ _ _ _ _ _ Hc) as [path Hp].
  destruct (Create_Ok _ _ _ _ _ _ _ Hp Hc) as (_ & -> & _).
  unfold fresh_license, IsLifetimeRequest.
  cbn [ProductName CreatedAt IsActivated RunCount UsageHistory FirstRunDate
       LastUsedDate IsLifetime MaxDays].
  split; [apply accepted_fresh|].
  repeat (split; [reflexivity|]).
  split; [apply orb_assoc|].
  destruct (req_IsLifetime req); cbn [orb].
  - split; [reflexivity|discriminate].
  - destruct (req_MaxDays req =? -1) eqn:Hminus; cbn [orb].
    + split; [reflexivity|discriminate].
    + destruct (LifetimeDays (config m) <=? req_MaxDays req) eqn:Hle.
      * split; [reflexivity|discriminate].
      * split; [discriminate|]. intros _.
        apply Z.eqb_neq in Hminus. apply Z.leb_gt in Hle. auto.
Qed.

Lemma Create_record_witness :
  accepted ex_manager "pc-1" (fresh_license ex_manager ex_request ex_created)
  /\ IsLifetime (fresh_license ex_manager ex_request ex_created) = false
  /\ MaxDays (fresh_license ex_manager ex_request ex_created) = 30.
Proof.
  destruct (@Create_record ref_AEAD ref_JSON ex_manager ex_request ex_created
              ex_world _ _ ex_Create)
    as (Hacc & _ & _ & _ & _ & _ & _ & _ & Hlife & _ & Hterm).
  split; [exact Hacc|]. split; [exact Hlife|]. apply Hterm. exact Hlife.
Defined.

(** X15. [Create] never overwrites. When the license file of the product
    exists, whatever it holds, [Create] fails with [AlreadyExists] and
    changes nothing. So it fails after a successful [Create], for every
    product name with the same sanitized name (under any manager), and it
    fails after [Revoke]: a revoked license is not replaced while its file
    is there. *)
Theorem Create_never_overwrites `{!AEAD, !JSON} (m m2 : Manager)
    (req req2 : CreateLicenseRequest) (now now2 : Time) (w : World) (path : string) :
  license_path m (req_ProductName req) w path ->
  (is_Some (files w !! path) ->
   Create m req now w = (Err AlreadyExists, w)
   /\ Revoke m (req_ProductName req) w = (Ok tt, revoked path w)
   /\ Create m req now (revoked path w) = (Err AlreadyExists, revoked path w))
  /\ (forall l w1,
        Create m req now w = (Ok l, w1) ->
        sanitizeFilename (req_ProductName req2) = sanitizeFilename (req_ProductName req) ->
        Create m2 req2 now2 w1 = (Err AlreadyExists, w1)).
Proof.
  intros Hp. split.
  - intros Hsome.
    pose proof (license_path_revoked _ _ _ _ path Hp) as Hp'.
    split; [|split].
    + rewrite (Create_spec _ _ _ _ _ Hp).
      rewrite bool_decide_eq_true_2 by exact Hsome. reflexivity.
    + rewrite (Revoke_spec _ _ _ _ Hp), bool_decide_eq_true_2 by exact Hsome.
      reflexivity.
    + rewrite (Create_spec _ _ _ _ _ Hp').
      rewrite bool_decide_eq_true_2 by (rewrite files_revoked; eauto). reflexivity.
  - intros l w1 Hc Hsan.
    destruct (Create_Ok _ _ _ _ _ _ _ Hp Hc) as (_ & _ & ->).
    assert (Hp2 : license_path m2 (req_ProductName req2) (saved m l path w) path).
    { apply (license_path_sanitized m _ (req_ProductName req)); [congruence|].
      apply (license_path_saved m), Hp. }
    rewrite (Create_spec _ _ _ _ _ Hp2).
    rewrite bool_decide_eq_true_2 by apply is_Some_files_saved. reflexivity.
Qed.

Lemma Create_never_overwrites_witness :
  @Create ref_AEAD ref_JSON ex_manager ex_request ex_created ex_world_junk
  = (Err AlreadyExists, ex_world_junk)
  /\ @Create ref_AEAD ref_JSON ex_manager ex_request ex_day1
       (ex_world_with (fresh_license ex_manager ex_request ex_created))
     = (Err AlreadyExists,
        ex_world_with (fresh_license ex_manager ex_request ex_created)).
Proof.
  split.
  - destruct (@Create_never_overwrites ref_AEAD ref_JSON ex_manager ex_manager
                ex_request ex_request ex_created ex_created ex_world_junk ex_path
                ex_license_path_junk) as [Hexists _].
    apply Hexists. cbn [files ex_world_junk]. rewrite lookup_singleton_eq. eauto.
  - destruct (@Create_never_overwrites ref_AEAD ref_JSON ex_manager ex_manager
                ex_request ex_request ex_created ex_day1 ex_world ex_path
                ex_license_path) as [_ Hagain].
    apply (Hagain _ _ ex_Create). reflexivity.
Defined.








(** X19. A file too short to be an envelope. When the license file holds
    fewer than 12 bytes, an empty file included, [Validate] reports the
    license invalid and [View] fails, both with the error of data too short,
    and nothing is changed. *)
Theorem truncated_file_rejected `{!AEAD, !JSON} (m : Manager) (productName : string)
    (now : Time)
    (w : World) (path : string) (data : list byte) :
  license_path m productName w path ->
  files w !! path = Some data ->
  (length data < 12)%nat ->
  Validate m productName now w
  = (mkValidationResult false None (Some (CorruptOrRevoked EnvelopeTooShort)), w)
  /\ View m productName w = (Err (CorruptOrRevoked EnvelopeTooShort), w).
Proof.
  intros Hp Hf Hlen.
  assert (Hd : Decrypt (crypto m) data = Err EnvelopeTooShort).
  { unfold Decrypt. rewrite aes_NewCipher_derived. unfold gcm_NonceSize.
    rewrite (proj2 (Nat.ltb_lt _ _) Hlen). reflexivity. }
  split.
  - rewrite (Validate_spec _ _ _ _ _ Hp).
    unfold readAndVerifyLicense, mbind, M_bind, os_Stat, os_ReadFile, wrap_err, lift.
    rewrite bool_decide_eq_true_2 by (rewrite Hf; eauto).
    cbn [negb]. rewrite Hf, Hd. reflexivity.
  - rewrite (View_spec _ _ _ _ Hp), Hf, Hd. reflexivity.
Qed.

Lemma truncated_file_rejected_witness :
  @Validate ref_AEAD ref_JSON ex_manager "Acme" ex_day1 ex_world_junk
  = (mkValidationResult false None (Some (CorruptOrRevoked EnvelopeTooShort)),
     ex_world_junk)
  /\ @View ref_AEAD ref_JSON ex_manager "Acme" ex_world_junk
     = (Err (CorruptOrRevoked EnvelopeTooShort), ex_world_junk).
Proof.
  apply (@truncated_file_rejected ref_AEAD ref_JSON ex_manager "Acme" ex_day1
           ex_world_junk ex_path [x01; x02; x03] ex_license_path_junk).
  - cbn [files ex_world_junk]. apply lookup_singleton_eq.
  - cbn [length]. lia.
Defined.

(** ** Validations *)

(** X20. Same instant. A validation whose timestamp is exactly the stored
    [lastUsedDate] succeeds, whatever the term and the days used: it adds
    one to [runCount], leaves every other field as it was, the used days and
    the last use included, and saves the record. *)
Theorem same_instant_validation `{!AEAD, !JSON} (m : Manager)
    (filename currentPcId : string)
    (now : Time) (w : World) (l : License) :
  stored m w filename l ->
  accepted m currentPcId l ->
  IsActivated l = true ->
  LastUsedDate l = Format now RFC3339 ->
  Format now RFC3339 <> EmptyString ->
  let l' := set_RunCount (Int.add (RunCount l) 1) l in
  readAndVerifyLicense m filename currentPcId now w = (Ok l', saved m l' filename w)
  /\ stored m (saved m l' filename w) filename (omitempty l')
  /\ UsageHistory l' = UsageHistory l
  /\ LastUsedDate l' = LastUsedDate l.
Proof.
  intros Hst [Hpc Hser] Hact Hlast Hne l'.
  split; [|split; [apply stored_saved|split; reflexivity]].
  rewrite (readAndVerifyLicense_stored _ _ _ _ _ _ Hst).
  rewrite decide_False by (intros Hx; apply Hx, Hpc).
  rewrite decide_False by (intros Hx; apply Hx, Hser).
  rewrite update_usage_same_instant by assumption. reflexivity.
Qed.

Lemma same_instant_validation_witness :
  @readAndVerifyLicense ref_AEAD ref_JSON ex_manager ex_path "pc-1" ex_day1
    (ex_world_with ex_active)
  = (Ok (set_RunCount 2 ex_active),
     @saved ref_AEAD ref_JSON ex_manager (set_RunCount 2 ex_active) ex_path
       (ex_world_with ex_active)).
Proof.
  apply (@same_instant_validation ref_AEAD ref_JSON ex_manager ex_path "pc-1"
           ex_day1 (ex_world_with ex_active) ex_active).
  - apply ex_stored. reflexivity.
  - exact ex_accepted_active.
  - reflexivity.
  - reflexivity.
  - discriminate.
Defined.

(** X21. A wrong serial. When the file holds a record of this machine whose
    serial is not the one recomputed from machine id, product name and term,
    the validation fails with [InvalidSerial], at any time, and changes
    nothing. *)
Theorem wrong_serial_rejected `{!AEAD, !JSON} (m : Manager) (productName : string)
    (now : Time)
    (w : World) (path : string) (l : License) :
  license_path m productName w path ->
  stored m w path l ->
  PCId l = PCID m ->
  Serial l <> GenerateSerial (crypto m) (PCID m) (ProductName l) (MaxDays l) ->
  readAndVerifyLicense m path (PCID m) now w = (Err InvalidSerial, w)
  /\ Validate m productName now w
     = (mkValidationResult false None (Some InvalidSerial), w).
Proof.
  intros Hp Hst Hpc Hser.
  assert (Hr : readAndVerifyLicense m path (PCID m) now w = (Err InvalidSerial, w)).
  { rewrite (readAndVerifyLicense_stored _ _ _ _ _ _ Hst).
    rewrite decide_False by (intros Hx; apply Hx, Hpc).
    rewrite decide_True by exact Hser. reflexivity. }
  split; [exact Hr|]. rewrite (Validate_spec _ _ _ _ _ Hp), Hr. reflexivity.
Qed.

Lemma wrong_serial_rejected_witness :
  @readAndVerifyLicense ref_AEAD ref_JSON ex_manager ex_path "pc-1" ex_day1
    (ex_world_with ex_forged)
  = (Err InvalidSerial, ex_world_with ex_forged)
  /\ @Validate ref_AEAD ref_JSON ex_manager "Acme" ex_day1 (ex_world_with ex_forged)
     = (mkValidationResult false None (Some InvalidSerial), ex_world_with ex_forged).
Proof.
  apply (@wrong_serial_rejected ref_AEAD ref_JSON ex_manager "Acme" ex_day1
           (ex_world_with ex_forged) ex_path ex_forged).
  - apply ex_license_path_with.
  - apply ex_stored. reflexivity.
  - reflexivity.
  - exact ex_forged_serial.
Defined.

(** X22. What a validation keeps. A successful validation of a stored record
    returns a record with the same serial, machine id, product name, time of
    creation and term, so it passes the machine and serial checks as the
    stored one did; the record is activated and its last use is the time of
    the validation. A first run gives the activated record; a later run keeps
    the first use, adds one to [runCount] (in Go's [int]) and leaves the used
    days as they were or appends the day of the validation: no day is ever
    removed or moved. *)
Theorem validation_keeps_identity `{!AEAD, !JSON} (m : Manager)
    (filename currentPcId : string)
    (now : Time) (w w' : World) (l l' : License) :
  stored m w filename l ->
  readAndVerifyLicense m filename currentPcId now w = (Ok l', w') ->
  accepted m currentPcId l /\ accepted m currentPcId l'
  /\ Serial l' = Serial l /\ PCId l' = PCId l /\ ProductName l' = ProductName l
  /\ CreatedAt l' = CreatedAt l /\ MaxDays l' = MaxDays l
  /\ IsLifetime l' = IsLifetime l
  /\ IsActivated l' = true
  /\ LastUsedDate l' = Format now RFC3339
  /\ (IsActivated l = false ->
      l' = activate l (Format now RFC3339) (Format now DateOnly))
  /\ (IsActivated l = true ->
      FirstRunDate l' = FirstRunDate l
      /\ RunCount l' = Int.add (RunCount l) 1
      /\ (UsageHistory l' = UsageHistory l
          \/ UsageHistory l' = UsageHistory l ++ [Format now DateOnly])).
Proof.
  intros Hst Hr. rewrite (readAndVerifyLicense_stored _ _ _ _ _ _ Hst) in Hr.
  destruct (decide (PCId l <> currentPcId)) as [|Hpc]; [discriminate Hr|].
  destruct (decide (Serial l <> _)) as [|Hser]; [discriminate Hr|].
  apply dec_stable in Hpc. apply dec_stable in Hser.
  assert (Hacc : accepted m currentPcId l) by (split; assumption).
  assert (Hl' : match update_usage l (Format now RFC3339) (Format now DateOnly) with
                | SameInstant l0 | Updated l0 => l0 = l'
                | Rollback => False
                end).
  { destruct (update_usage l _ _) as [l0| |l0].
    - apply Ok_pair_inv in Hr. tauto.
    - discriminate Hr.
    - destruct (expired l0); [discriminate Hr|]. apply Ok_pair_inv in Hr. tauto. }
  clear Hr. unfold update_usage in Hl'.
  destruct l as [s p pn c md lt lu fr rc act h um]. fields.
  destruct act; cbn [negb] in Hl'.
  - (* a later run *)
    assert (Hrec : forall l0, record_usage (mkLicense s p pn c md lt lu fr
                                 (Int.add rc 1) true h um)
                     (Format now RFC3339) (Format now DateOnly) = l0 ->
              l0 = l' ->
              accepted m currentPcId l'
              /\ Serial l' = s /\ PCId l' = p /\ ProductName l' = pn
              /\ CreatedAt l' = c /\ MaxDays l' = md /\ IsLifetime l' = lt
              /\ IsActivated l' = true /\ LastUsedDate l' = Format now RFC3339
              /\ FirstRunDate l' = fr /\ RunCount l' = Int.add rc 1
              /\ (UsageHistory l' = h
                  \/ UsageHistory l' = h ++ [Format now DateOnly])).
    { intros l0 <- <-. unfold record_usage. fields.
      destruct um as [usageMap|]; fields.
      - destruct (default false (usageMap !! Format now DateOnly));
          cbn [negb]; fields; repeat split; auto; apply Hacc.
      - destruct (default false (rebuild_UsageMap h !! Format now DateOnly));
          cbn [negb]; fields; repeat split; auto; apply Hacc. }
    destruct (bool_decide (lu <> EmptyString)).
    + destruct (bool_decide (lu = Format now RFC3339)) eqn:Hsame.
      * subst l'. apply bool_decide_eq_true_1 in Hsame. fields.
        split; [exact Hacc|]. split; [exact Hacc|].
        repeat split; auto. intros Hx; discriminate Hx.
      * destruct (String.ltb _ _); [contradiction|].
        destruct (Hrec _ eq_refl Hl') as (Ha & ? & ? & ? & ? & ? & ? & ? & ? & ? & ? & ?).
        split; [exact Hacc|]. split; [exact Ha|].
        repeat split; auto. intros Hx; discriminate Hx.
    + destruct (Hrec _ eq_refl Hl') as (Ha & ? & ? & ? & ? & ? & ? & ? & ? & ? & ? & ?).
      split; [exact Hacc|]. split; [exact Ha|].
      repeat split; auto. intros Hx; discriminate Hx.
  - (* the first run *)
    subst l'. fields. split; [exact Hacc|]. split; [exact Hacc|].
    do 8 (split; [reflexivity|]).
    split; [reflexivity | intros Hx; discriminate Hx].
Qed.

Lemma validation_keeps_identity_witness :
  accepted ex_manager "pc-1"
    (later_run ex_active (Format ex_day2 RFC3339) (Format ex_day2 DateOnly))
  /\ Serial (later_run ex_active (Format ex_day2 RFC3339) (Format ex_day2 DateOnly))
     = Serial ex_active.
Proof.
  destruct (@validation_keeps_identity ref_AEAD ref_JSON ex_manager ex_path "pc-1"
              ex_day2 (ex_world_with ex_active) _ ex_active _
              (ex_stored ex_active eq_refl) ex_validate_day2)
    as (_ & Hacc & Hserial & _).
  split; [exact Hacc | exact Hserial].
Defined.

Lemma Int_wrap_add a b : Int.wrap (Int.wrap a + b) = Int.wrap (a + b).
Proof.
  unfold Int.wrap.
  replace ((a + 2 ^ 63) mod 2 ^ 64 - 2 ^ 63 + b + 2 ^ 63)
    with ((a + 2 ^ 63) mod 2 ^ 64 + b) by lia.
  rewrite Zplus_mod_idemp_l. f_equal. f_equal. lia.
Qed.

Lemma Int_wrap_small x : Int.min <= x <= Int.max -> Int.wrap x = x.
Proof.
  unfold Int.wrap, Int.min, Int.max. intros Hx. rewrite Z.mod_small by lia. lia.
Qed.

Lemma stored_files `{!AEAD, !JSON} m w w' filename l :
  files w' !! filename = files w !! filename ->
  stored m w filename l -> stored m w' filename l.
Proof. intros Hf (e & d & He & Hd & Hu). exists e, d. rewrite Hf. auto. Qed.

Lemma validate_each_lifetime `{!AEAD, !JSON} m filename currentPcId :
  forall (rest : list Time) (w : World) (l : License),
    stored m w filename l ->
    accepted m currentPcId l ->
    IsActivated l = true ->
    IsLifetime l = true ->
    synced l ->
    increasing (LastUsedDate l) rest ->
    exists ls : list License,
      fst (validate_each m filename currentPcId rest w) = map Ok ls
      /\ length ls = length rest
      /\ forall i l_i, ls !! i = Some l_i ->
           RunCount l_i = Int.wrap (RunCount l + Z.of_nat (S i))
           /\ UsageHistory l_i
              = first_uses (UsageHistory l) (take (S i) (days rest)).
Proof.
  induction rest as [|now rest IH]; intros w l Hst Hacc Hact Hlife Hs Hinc.
  - exists []. split; [reflexivity|]. split; [reflexivity|].
    intros i l_i Hi. discriminate Hi.
  - destruct Hinc as [Hlt Hinc].
    pose proof (readAndVerifyLicense_later _ _ _ _ _ _ Hst Hacc Hact Hs Hlt) as Hr.
    cbv zeta in Hr.
    set (l' := later_run l (Format now RFC3339) (Format now DateOnly)) in *.
    assert (Hexp : expired l' = false) by (unfold expired, l', later_run;
      cbn [IsLifetime]; rewrite Hlife; reflexivity).
    rewrite Hexp in Hr. cbn [validate_each]. rewrite Hr.
    destruct (IH (saved m l' filename w) l') as (ls & Hres & Hlen & Hall).
    + apply stored_saved_later.
    + exact Hacc.
    + reflexivity.
    + exact Hlife.
    + unfold synced, l', later_run. cbn [UsageMap UsageHistory].
      apply holds_exactly_rebuild.
    + exact Hinc.
    + exists (l' :: ls).
      destruct (validate_each m filename currentPcId rest (saved m l' filename w))
        as [rs w''].
      cbn [fst] in *. rewrite Hres. split; [reflexivity|].
      split; [cbn [length]; congruence|].
      intros [|i] l_i Hi.
      * cbn in Hi. injection Hi as <-. split; [reflexivity|].
        unfold days. cbn [map take first_uses]. reflexivity.
      * cbn [lookup list_lookup] in Hi. destruct (Hall i l_i Hi) as [Hrc Hh].
        split.
        -- rewrite Hrc. unfold l', later_run. cbn [RunCount]. unfold Int.add.
           rewrite Int_wrap_add. f_equal. lia.
        -- rewrite Hh. reflexivity.
Qed.

(** X23. A lifetime license never expires. From a stored lifetime record that
    is not yet activated and passes the machine and serial checks,
    validations at strictly increasing timestamps all succeed, however many
    and whatever the term and the days: the i-th returns a record with i
    runs (in Go's [int]) whose used days are the days of the first i
    validations, each once, in the order of first use. *)
Theorem lifetime_license_never_expires `{!AEAD, !JSON} (m : Manager)
    (filename currentPcId : string)
    (nows : list Time) (w : World) (l : License) :
  stored m w filename l ->
  accepted m currentPcId l ->
  IsActivated l = false ->
  IsLifetime l = true ->
  chronological nows ->
  exists ls : list License,
    fst (validate_each m filename currentPcId nows w) = map Ok ls
    /\ length ls = length nows
    /\ forall i l_i, ls !! i = Some l_i ->
         RunCount l_i = Int.wrap (Z.of_nat (S i))
         /\ (Z.of_nat (S i) <= Int.max -> RunCount l_i = Z.of_nat (S i))
         /\ UsageHistory l_i = first_uses [] (take (S i) (days nows)).
Proof.
  intros Hst Hacc Hact Hlife Hchr.
  destruct nows as [|now rest].
  { exists []. split; [reflexivity|]. split; [reflexivity|].
    intros i l_i Hi. discriminate Hi. }
  pose proof (readAndVerifyLicense_first m filename currentPcId now w l Hst Hacc Hact)
    as Hr.
  cbv zeta in Hr.
  set (l' := activate l (Format now RFC3339) (Format now DateOnly)) in *.
  assert (Hexp : expired l' = false) by (unfold expired, l', activate;
    cbn [IsLifetime]; rewrite Hlife; reflexivity).
  rewrite Hexp in Hr. cbn [validate_each]. rewrite Hr.
  destruct (validate_each_lifetime m filename currentPcId rest
              (saved m l' filename w) l') as (ls & Hres & Hlen & Hall).
  - apply stored_saved_activate.
  - exact Hacc.
  - reflexivity.
  - exact Hlife.
  - unfold synced, l', activate. cbn [UsageMap UsageHistory].
    rewrite <- rebuild_UsageMap_singleton. apply holds_exactly_rebuild.
  - exact Hchr.
  - exists (l' :: ls).
    destruct (validate_each m filename currentPcId rest (saved m l' filename w))
      as [rs w''].
    cbn [fst] in *. rewrite Hres. split; [reflexivity|].
    split; [cbn [length]; congruence|].
    assert (Hsmall : forall i l_i, RunCount l_i = Int.wrap (Z.of_nat (S i)) ->
              Z.of_nat (S i) <= Int.max -> RunCount l_i = Z.of_nat (S i)).
    { intros i l_i -> Hle. apply Int_wrap_small. unfold Int.min. lia. }
    intros [|i] l_i Hi.
    + cbn in Hi. injection Hi as <-.
      split; [reflexivity|]. split; [intros _; reflexivity|reflexivity].
    + cbn [lookup list_lookup] in Hi. destruct (Hall i l_i Hi) as [Hrc Hh].
      assert (Hrc' : RunCount l_i = Int.wrap (Z.of_nat (S (S i)))).
      { rewrite Hrc. unfold l', activate. cbn [RunCount]. f_equal. lia. }
      split; [exact Hrc'|]. split; [apply Hsmall, Hrc'|].
      rewrite Hh. reflexivity.
Qed.

Lemma lifetime_license_never_expires_witness :
  exists ls : list License,
    fst (@validate_each ref_AEAD ref_JSON ex_manager ex_path "pc-1"
           [ex_day1; ex_day1_later; ex_day2] (ex_world_with ex_lifetime))
    = map Ok ls
    /\ length ls = 3%nat.
Proof.
  destruct (@lifetime_license_never_expires ref_AEAD ref_JSON ex_manager ex_path
              "pc-1" [ex_day1; ex_day1_later; ex_day2] (ex_world_with ex_lifetime)
              ex_lifetime)
    as (ls & Hres & Hlen & _).
  - apply ex_stored. reflexivity.
  - split; reflexivity.
  - reflexivity.
  - reflexivity.
  - split; [reflexivity|]. split; [reflexivity|]. exact I.
  - exists ls. split; [exact Hres | exact Hlen].
Defined.

(** X24. An expired license stays expired. When the stored record is
    activated, not a lifetime one, and has used all the days of its term,
    every validation after the last use and on a day it has not used fails
    with [LicenseExpired], one day more than it has used, and changes
    nothing: the file holds the same record, whatever the number of
    attempts. *)
Theorem expired_license_stays_expired `{!AEAD, !JSON} (m : Manager)
    (filename currentPcId : string)
    (nows : list Time) (w : World) (l : License) :
  stored m w filename l ->
  accepted m currentPcId l ->
  IsActivated l = true ->
  IsLifetime l = false ->
  synced l ->
  MaxDays l <= Z.of_nat (length (UsageHistory l)) ->
  Forall (fun now =>
            String.ltb (LastUsedDate l) (Format now RFC3339) = true
            /\ Format now DateOnly ∉ UsageHistory l) nows ->
  validate_each m filename currentPcId nows w
  = (map (fun _ => Err (LicenseExpired (Z.of_nat (S (length (UsageHistory l))))
                          (MaxDays l))) nows, w)
  /\ stored m w filename l.
Proof.
  intros Hst Hacc Hact Hlife Hs Hfull Hall. split; [|exact Hst].
  induction Hall as [|now rest [Hlt Hnin] _ IH]; [reflexivity|].
  pose proof (readAndVerifyLicense_later _ _ _ _ _ _ Hst Hacc Hact Hs Hlt) as Hr.
  cbv zeta in Hr. rewrite expired_later_run in Hr by assumption.
  rewrite (proj2 (Z.ltb_lt _ _)) in Hr by lia.
  cbn [validate_each]. rewrite Hr, IH. cbn [map]. f_equal. f_equal. f_equal.
  unfold later_run. cbn [UsageHistory MaxDays]. rewrite decide_False by exact Hnin.
  rewrite length_app. cbn [length]. f_equal. f_equal. lia.
Qed.

Lemma expired_license_stays_expired_witness :
  @validate_each ref_AEAD ref_JSON ex_manager ex_path "pc-1" [ex_day2; ex_day3]
    (ex_world_with ex_used_up)
  = ([Err (LicenseExpired 2 1); Err (LicenseExpired 2 1)], ex_world_with ex_used_up)
  /\ @stored ref_AEAD ref_JSON ex_manager (ex_world_with ex_used_up) ex_path ex_used_up.
Proof.
  apply (@expired_license_stays_expired ref_AEAD ref_JSON ex_manager ex_path "pc-1"
           [ex_day2; ex_day3] (ex_world_with ex_used_up) ex_used_up).
  - apply ex_stored. reflexivity.
  - split; reflexivity.
  - reflexivity.
  - reflexivity.
  - exact I.
  - cbn [MaxDays UsageHistory ex_used_up length]. lia.
  - repeat constructor; intros Hin; apply list_elem_of_singleton in Hin;
      discriminate Hin.
Defined.

(** ** The world after an operation *)

(** The world after [readAndVerifyLicense]. *)
Lemma readAndVerifyLicense_world `{!AEAD, !JSON} m filename currentPcId now w :
  match readAndVerifyLicense m filename currentPcId now w with
  | (Err _, w') => w' = w
  | (Ok l, w') => w' = saved m l filename w
  end.
Proof.
  unfold readAndVerifyLicense, mbind, M_bind, os_Stat, os_ReadFile, wrap_err, lift, fail.
  destruct (bool_decide (is_Some (files w !! filename))); cbn [negb]; [|reflexivity].
  destruct (files w !! filename) as [envelope|]; [|reflexivity].
  destruct (Decrypt (crypto m) envelope) as [data|e]; [|reflexivity].
  destruct (json_Unmarshal data) as [l|]; [|reflexivity].
  destruct (decide (PCId l <> currentPcId)); [reflexivity|].
  destruct (decide (Serial l <> _)); [reflexivity|].
  destruct (update_usage l _ _) as [l'| |l']; [| reflexivity |].
  - rewrite saveLicense_spec. reflexivity.
  - destruct (negb (IsLifetime l') && _); [reflexivity|].
    rewrite saveLicense_spec. reflexivity.
Qed.



(** [GetInfo] on the outcome of the validation it runs. *)
Lemma GetInfo_spec `{!AEAD, !JSON} m productName now w :
  GetInfo m productName now w =
    match Validate m productName now w with
    | (result, w') =>
        if negb (IsValid result) then (Err (ValidationFailed (ErrorMessage result)), w')
        else
          match result_License result with
          | None => (Err NilLicense, w')
          | Some license =>
              (Ok (mkLicenseInfo (ProductName license) (IsLifetime license)
                     (MaxDays license) (Z.of_nat (length (UsageHistory license)))
                     (if negb (IsLifetime license)
                      then Z.max (Int.sub (MaxDays license)
                                    (Z.of_nat (length (UsageHistory license)))) 0
                      else 0)
                     (RunCount license) (FirstRunDate license) (LastUsedDate license)
                     (UsageHistory license) true), w')
          end
    end.
Proof. reflexivity. Qed.


(** X26. Every operation keeps to the file of its product. Whatever [Create],
    [Validate], [GetInfo] and [Revoke] do for one product, every other file
    is afterwards as it was before, and a record stored in another file,
    under any manager, is still stored there: revoking or validating one
    product does nothing to the license of another. *)
Theorem other_files_untouched `{!AEAD, !JSON} (m m' : Manager)
    (req : CreateLicenseRequest)
    (now : Time) (w : World) (path other : string) (l : License) :
  license_path m (req_ProductName req) w path ->
  other <> path ->
  stored m' w other l ->
  (files (snd (Create m req now w)) !! other = files w !! other
   /\ stored m' (snd (Create m req now w)) other l)
  /\ (files (snd (Validate m (req_ProductName req) now w)) !! other = files w !! other
      /\ stored m' (snd (Validate m (req_ProductName req) now w)) other l)
  /\ (files (snd (GetInfo m (req_ProductName req) now w)) !! other = files w !! other
      /\ stored m' (snd (GetInfo m (req_ProductName req) now w)) other l)
  /\ (files (snd (Revoke m (req_ProductName req) w)) !! other = files w !! other
      /\ stored m' (snd (Revoke m (req_ProductName req) w)) other l).
Proof.
  intros Hp Hne Hst.
  assert (Hkeep : forall w', files w' !! other = files w !! other ->
            files w' !! other = files w !! other /\ stored m' w' other l).
  { intros w' Hf. split; [exact Hf|]. apply (stored_files m' w); assumption. }
  assert (Hvalidate : files (snd (Validate m (req_ProductName req) now w)) !! other
                      = files w !! other).
  { rewrite (Validate_spec _ _ _ _ _ Hp).
    pose proof (readAndVerifyLicense_world m path (PCID m) now w) as Hw.
    destruct (readAndVerifyLicense m path (PCID m) now w) as [[l0|e] w'];
      cbn [snd]; subst w'; [apply files_saved_ne, Hne | reflexivity]. }
  split; [|split; [|split]]; apply Hkeep.
  - rewrite (Create_spec _ _ _ _ _ Hp).
    destruct (bool_decide (is_Some (files w !! path))); cbn [snd];
      [reflexivity | apply files_saved_ne, Hne].
  - exact Hvalidate.
  - rewrite GetInfo_spec.
    destruct (Validate m (req_ProductName req) now w) as [result w'].
    cbn [snd] in *. destruct (negb (IsValid result)); [exact Hvalidate|].
    destruct (result_License result); exact Hvalidate.
  - rewrite (Revoke_spec _ _ _ _ Hp).
    destruct (bool_decide (is_Some (files w !! path))); cbn [snd];
      [apply files_revoked_ne, Hne | reflexivity].
Qed.

Lemma other_files_untouched_witness :
  @stored ref_AEAD ref_JSON ex_manager
    (snd (Revoke ex_manager "Acme"
            (@saved ref_AEAD ref_JSON ex_manager ex_active ex_other_path ex_world_junk)))
    ex_other_path ex_active.
Proof.
  destruct (@other_files_untouched ref_AEAD ref_JSON ex_manager ex_manager ex_request
              ex_day1
              (@saved ref_AEAD ref_JSON ex_manager ex_active ex_other_path ex_world_junk)
              ex_path ex_other_path ex_active)
    as (_ & _ & _ & _ & Hrevoke).
  - apply (@license_path_saved ref_AEAD ref_JSON ex_manager), ex_license_path_junk.
  - discriminate.
  - apply (@stored_saved ref_AEAD ref_JSON ex_manager ex_active).
  - exact Hrevoke.
Defined.



(** ** Information *)

Lemma record_usage_term l nowRFC3339 today :
  MaxDays (record_usage l nowRFC3339 today) = MaxDays l
  /\ IsLifetime (record_usage l nowRFC3339 today) = IsLifetime l.
Proof.
  unfold record_usage. destruct l as [s p pn c md lt lu fr rc act h um]. fields.
  destruct um as [usageMap|]; fields.
  - destruct (default false (usageMap !! today)); cbn [negb]; fields; auto.
  - destruct (default false (rebuild_UsageMap h !! today)); cbn [negb]; fields; auto.
Qed.

Lemma update_usage_term l nowRFC3339 today :
  match update_usage l nowRFC3339 today with
  | SameInstant l0 =>
      MaxDays l0 = MaxDays l /\ IsLifetime l0 = IsLifetime l
      /\ UsageHistory l0 = UsageHistory l /\ IsActivated l = true
  | Updated l0 => MaxDays l0 = MaxDays l /\ IsLifetime l0 = IsLifetime l
  | Rollback => True
  end.
Proof.
  unfold update_usage. destruct (IsActivated l); cbn [negb]; [|auto].
  pose proof (record_usage_term (set_RunCount (Int.add (RunCount l) 1) l)
                nowRFC3339 today) as Hrec.
  destruct (bool_decide _); [|exact Hrec].
  destruct (bool_decide _); [auto|]. destruct (String.ltb _ _); [exact I|exact Hrec].
Qed.



(** X29. Asking for information is a run. [GetInfo] validates: on an
    activated record that passes the checks, at a time after its last use
    and within its term, it returns the info of the updated record, one run
    more and the new last use, and the file then holds the updated record.
    The information is not read without being counted. *)
Theorem GetInfo_records_a_run `{!AEAD, !JSON} (m : Manager) (productName : string)
    (now : Time)
    (w : World) (path : string) (l : License) :
  license_path m productName w path ->
  stored m w path l ->
  accepted m (PCID m) l ->
  IsActivated l = true ->
  synced l ->
  String.ltb (LastUsedDate l) (Format now RFC3339) = true ->
  let l' := later_run l (Format now RFC3339) (Format now DateOnly) in
  expired l' = false ->
  exists info,
    GetInfo m productName now w = (Ok info, saved m l' path w)
    /\ stored m (saved m l' path w) path l'
    /\ RunCount l' = Int.add (RunCount l) 1
    /\ LastUsedDate l' = Format now RFC3339
    /\ info_RunCount info = Int.add (RunCount l) 1
    /\ info_LastUsedDate info = Format now RFC3339
    /\ info_UsageHistory info = UsageHistory l'
    /\ info_UsedDays info = Z.of_nat (length (UsageHistory l')).
Proof.
  intros Hp Hst Hacc Hact Hs Hlt l' Hexp.
  pose proof (readAndVerifyLicense_later _ _ _ _ _ _ Hst Hacc Hact Hs Hlt) as Hr.
  cbv zeta in Hr. fold l' in Hr. rewrite Hexp in Hr.
  rewrite GetInfo_spec, (Validate_spec _ _ _ _ _ Hp), Hr.
  cbn [IsValid negb result_License]. eexists. split; [reflexivity|].
  split; [apply stored_saved_later|]. repeat split; reflexivity.
Qed.

Lemma GetInfo_records_a_run_witness :
  exists info,
    @GetInfo ref_AEAD ref_JSON ex_manager "Acme" ex_day2 (ex_world_with ex_active)
    = (Ok info,
       @saved ref_AEAD ref_JSON ex_manager
         (later_run ex_active (Format ex_day2 RFC3339) (Format ex_day2 DateOnly))
         ex_path (ex_world_with ex_active))
    /\ info_RunCount info = 2
    /\ info_UsedDays info = 2.
Proof.
  destruct (@GetInfo_records_a_run ref_AEAD ref_JSON ex_manager "Acme" ex_day2
              (ex_world_with ex_active) ex_path ex_active)
    as (info & Hinfo & _ & _ & _ & Hrc & _ & _ & Hused).
  - apply ex_license_path_with.
  - apply ex_stored. reflexivity.
  - exact ex_accepted_active.
  - reflexivity.
  - exact I.
  - reflexivity.
  - reflexivity.
  - exists info. split; [exact Hinfo|]. split; [exact Hrc | exact Hused].
Defined.

(** X30. The days that remain. For a stored record that is not a lifetime
    license, has a term within Go's [int] and, if it is activated, has not
    used more days than its term, a successful [GetInfo] reports used days
    between 0 and the term and remaining days equal to the term minus the
    used days: the cut at zero never acts and the subtraction does not
    overflow. *)
Theorem GetInfo_remaining_days `{!AEAD, !JSON} (m : Manager) (productName : string)
    (now : Time)
    (w w' : World) (path : string) (l : License) (info : LicenseInfo) :
  license_path m productName w path ->
  stored m w path l ->
  (IsActivated l = true -> expired l = false) ->
  IsLifetime l = false ->
  MaxDays l <= Int.max ->
  GetInfo m productName now w = (Ok info, w') ->
  info_MaxDays info = MaxDays l
  /\ 0 <= info_UsedDays info <= info_MaxDays info
  /\ info_RemainingDays info = info_MaxDays info - info_UsedDays info.
Proof.
  intros Hp Hst Hterm Hlife Hmax.
  rewrite GetInfo_spec, (Validate_spec _ _ _ _ _ Hp).
  rewrite (readAndVerifyLicense_stored _ _ _ _ _ _ Hst).
  assert (Hinfo : forall l0,
            MaxDays l0 = MaxDays l -> IsLifetime l0 = false -> expired l0 = false ->
            (Ok (E:=InfoError)
               (mkLicenseInfo (ProductName l0) (IsLifetime l0) (MaxDays l0)
                  (Z.of_nat (length (UsageHistory l0)))
                  (if negb (IsLifetime l0)
                   then Z.max (Int.sub (MaxDays l0)
                                 (Z.of_nat (length (UsageHistory l0)))) 0
                   else 0)
                  (RunCount l0) (FirstRunDate l0) (LastUsedDate l0)
                  (UsageHistory l0) true), saved m l0 path w) = (Ok info, w') ->
            info_MaxDays info = MaxDays l
            /\ 0 <= info_UsedDays info <= info_MaxDays info
            /\ info_RemainingDays info = info_MaxDays info - info_UsedDays info).
  { intros l0 Hmd Hlt Hexp [<- _]%Ok_pair_inv.
    cbn [info_MaxDays info_UsedDays info_RemainingDays].
    unfold expired in Hexp. rewrite Hlt in *. cbn [negb andb] in *.
    apply Z.ltb_ge in Hexp. split; [exact Hmd|]. split; [lia|].
    unfold Int.sub. rewrite Int_wrap_small; [lia|]. unfold Int.min. lia. }
  destruct (decide (PCId l <> PCID m)); [discriminate|].
  destruct (decide (Serial l <> _)); [discriminate|].
  pose proof (update_usage_term l (Format now RFC3339) (Format now DateOnly)) as Hupd.
  destruct (update_usage l _ _) as [l0| |l0]; cbn [IsValid negb result_License].
  - destruct Hupd as (Hmd & Hlt & Hh & Hact). apply Hinfo; [exact Hmd|congruence|].
    unfold expired in *. rewrite Hmd, Hlt, Hh. apply Hterm, Hact.
  - discriminate.
  - destruct Hupd as (Hmd & Hlt). destruct (expired l0) eqn:Hexp; [discriminate|].
    cbn [IsValid negb result_License]. apply Hinfo; [exact Hmd|congruence|exact Hexp].
Qed.

Lemma GetInfo_remaining_days_witness :
  exists info,
    fst (@GetInfo ref_AEAD ref_JSON ex_manager "Acme" ex_day2 (ex_world_with ex_active))
    = Ok info
    /\ info_MaxDays info = 30
    /\ info_RemainingDays info = info_MaxDays info - info_UsedDays info.
Proof.
  assert (Hinfo : exists info w',
            @GetInfo ref_AEAD ref_JSON ex_manager "Acme" ex_day2
              (ex_world_with ex_active) = (Ok info, w')).
  { rewrite (@GetInfo_spec ref_AEAD ref_JSON).
    rewrite (@Validate_spec ref_AEAD ref_JSON ex_manager "Acme" ex_day2
               (ex_world_with ex_active) ex_path (ex_license_path_with ex_active)).
    change (PCID ex_manager) with "pc-1"%string. rewrite ex_validate_day2.
    eexists _, _. reflexivity. }
  destruct Hinfo as (info & w' & Hinfo).
  destruct (@GetInfo_remaining_days ref_AEAD ref_JSON ex_manager "Acme" ex_day2
              (ex_world_with ex_active) w' ex_path ex_active info)
    as (Hmax & _ & Hremaining).
  - apply ex_license_path_with.
  - apply ex_stored. reflexivity.
  - reflexivity.
  - reflexivity.
  - unfold Int.max. cbn [MaxDays ex_active]. lia.
  - exact Hinfo.
  - exists info. rewrite Hinfo. split; [reflexivity|].
    split; [exact Hmax | exact Hremaining].
Defined.
